(** * srt_transcriber: caption synthesis and timestamp formatting

    A shallow embedding of [transcribe.py] and of the caption loop and the
    colour helper of [app.py], over a small model of the Python values the
    code manipulates: arbitrary-precision integers ([Z]), binary64 floats
    (the IEEE 754 specification [SpecFloat] of the standard library, with
    [prec = 53] and [emax = 1024]), strings and lists. *)

From Stdlib Require Import ZArith List String Ascii Bool Lia QArith Qround.
From Stdlib Require Import Sorted RelationClasses.
From Stdlib Require Import DecimalString DecimalZ.
From Stdlib Require Import Floats.SpecFloat.
Import ListNotations.

Set Implicit Arguments.
Local Open Scope string_scope.
Local Open Scope Z_scope.

(** ** Python runtime model *)

Module Py.

(** The exceptions the modelled code can raise. *)
Inductive exn : Type :=
| ValueError
| OverflowError
| IndexError
| ZeroDivisionError.

(** A computation that returns a value or raises. *)
Definition result (A : Type) : Type := (exn + A)%type.

Definition ok {A} (a : A) : result A := inr a.
Definition raise {A} (e : exn) : result A := inl e.

Definition rbind {A B} (m : result A) (k : A -> result B) : result B :=
  match m with
  | inl e => inl e
  | inr a => k a
  end.

(** *** Truthiness *)

(** [bool(x)] for an [int]: zero is false, everything else is true. *)
Definition truthy_int (z : Z) : bool := negb (z =? 0).

(** [bool(x)] for an optional [int] ([None] is false). *)
Definition truthy_opt_int (o : option Z) : bool :=
  match o with
  | None => false
  | Some z => truthy_int z
  end.

(** [bool(x)] for an optional list ([None] and [[]] are false). *)
Definition truthy_opt_list {A} (o : option (list A)) : bool :=
  match o with
  | None => false
  | Some [] => false
  | Some (_ :: _) => true
  end.

(** *** Sequences: [len], indexing, slicing, [range] *)

Definition len {A} (l : list A) : Z := Z.of_nat (List.length l).

(** [l[i]]: a negative index counts from the end; out of range raises. *)
Definition index {A} (l : list A) (i : Z) : result A :=
  let j := if i <? 0 then i + len l else i in
  if (j <? 0) || (len l <=? j) then raise IndexError
  else match nth_error l (Z.to_nat j) with
       | Some a => ok a
       | None => raise IndexError
       end.

(** How a slice bound is clipped to [0 .. n]. *)
Definition clip (n i : Z) : Z :=
  if i <? 0 then Z.max (i + n) 0 else Z.min i n.

(** [l[lo:hi]] (step 1): never raises. *)
Definition slice {A} (l : list A) (lo hi : Z) : list A :=
  let n := len l in
  let lo' := clip n lo in
  let hi' := clip n hi in
  firstn (Z.to_nat (hi' - lo')) (skipn (Z.to_nat lo') l).

(** The number of elements of [range(start, stop, step)] for [step <> 0]. *)
Definition range_len (start stop step : Z) : Z :=
  if 0 <? step then
    if start <? stop then (stop - start - 1) / step + 1 else 0
  else
    if stop <? start then (start - stop - 1) / (- step) + 1 else 0.

(** [range(start, stop, step)], as the list a [for] loop walks through;
    a zero step raises [ValueError]. *)
Definition range (start stop step : Z) : result (list Z) :=
  if step =? 0 then raise ValueError
  else ok (map (fun k => start + Z.of_nat k * step)
               (seq 0 (Z.to_nat (range_len start stop step)))).

(** *** Strings

    A string is a sequence of characters; a character is a code point below
    256 (the Latin-1 range), which covers everything the code itself writes. *)

(** [str.isspace] on one character of that range: TAB, LF, VT, FF, CR,
    FS, GS, RS, US, SPACE, NEL and NBSP. *)
Definition isspace (c : ascii) : bool :=
  let n := N_of_ascii c in
  ((9 <=? n) && (n <=? 13) || (28 <=? n) && (n <=? 32)
   || (n =? 133) || (n =? 160))%N.

(** A hexadecimal digit, in either case. *)
Definition is_hex_digit (c : ascii) : bool :=
  let n := N_of_ascii c in
  ((48 <=? n) && (n <=? 57) || (65 <=? n) && (n <=? 70)
   || (97 <=? n) && (n <=? 102))%N.

(** [s.lstrip()] *)
Fixpoint lstrip (s : string) : string :=
  match s with
  | EmptyString => EmptyString
  | String c s' => if isspace c then lstrip s' else s
  end.

(** [s.rstrip()] *)
Fixpoint rstrip (s : string) : string :=
  match s with
  | EmptyString => EmptyString
  | String c s' =>
      match rstrip s' with
      | EmptyString => if isspace c then EmptyString else String c EmptyString
      | r => String c r
      end
  end.

(** [s.strip()] *)
Definition strip (s : string) : string := rstrip (lstrip s).

(** [s.lstrip(chars)] for a one-character [chars]. *)
Fixpoint lstrip_char (c : ascii) (s : string) : string :=
  match s with
  | EmptyString => EmptyString
  | String d s' => if Ascii.eqb d c then lstrip_char c s' else s
  end.

(** [s[lo:hi]] on a string, through the list of its characters. *)
Definition str_slice (s : string) (lo hi : Z) : string :=
  string_of_list_ascii (slice (list_ascii_of_string s) lo hi).

(** The line feed, ["\n"] in the source. *)
Definition LF : ascii := ascii_of_nat 10.

(** The backslash. *)
Definition backslash : ascii := ascii_of_nat 92.
Definition nl : string := String LF "".

(** ["".join(parts)] *)
Definition join (parts : list string) : string := String.concat "" parts.

(** [str(z)] for an [int]: decimal digits, with a minus sign when negative. *)
Definition str_int (z : Z) : string := NilZero.string_of_int (Z.to_int z).

Fixpoint zeros (n : nat) : string :=
  match n with
  | O => ""
  | S n' => String "0" (zeros n')
  end.

(** [format(z, "0w")], the [{z:0w}] of an f-string: the decimal digits of
    [|z|], zero-filled on the left up to [w] characters in all, with the
    sign (if any) in front of the zeros. A wider number is not shortened. *)
Definition format_int (w : nat) (z : Z) : string :=
  let digits := str_int (Z.abs z) in
  if z <? 0
  then ("-" ++ zeros (w - 1 - String.length digits) ++ digits)%string
  else (zeros (w - String.length digits) ++ digits)%string.

(** [bool(s)] for a string: the empty string is false. *)
Definition truthy_str (s : string) : bool :=
  match s with
  | EmptyString => false
  | String _ _ => true
  end.

(** [s.replace(old, new)] for a one-character [old]: every occurrence is
    replaced, from left to right. *)
Fixpoint replace_char (old : ascii) (new : string) (s : string) : string :=
  match s with
  | EmptyString => EmptyString
  | String c s' =>
      if Ascii.eqb c old then (new ++ replace_char old new s')%string
      else String c (replace_char old new s')
  end.

(** *** binary64 floats *)

Definition prec : Z := 53.
Definition emax : Z := 1024.

Definition float : Type := spec_float.

Definition fadd : float -> float -> float := SFadd prec emax.
Definition fsub : float -> float -> float := SFsub prec emax.
Definition fmul : float -> float -> float := SFmul prec emax.
Definition fdiv : float -> float -> float := SFdiv prec emax.
Definition fltb : float -> float -> bool := SFltb.
Definition fleb : float -> float -> bool := SFleb.

Definition is_nan (x : float) : bool :=
  match x with S754_nan => true | _ => false end.

Definition is_inf (x : float) : bool :=
  match x with S754_infinity _ => true | _ => false end.

Definition is_finite (x : float) : bool :=
  match x with S754_zero _ | S754_finite _ _ _ => true | _ => false end.

(** The sign bit ([true] is negative); [false] for a NaN. *)
Definition signbit (x : float) : bool :=
  match x with
  | S754_zero s | S754_infinity s | S754_finite s _ _ => s
  | S754_nan => false
  end.

(** C's [x != 0.0], the truth value of a double (true for a NaN). *)
Definition nonzero (x : float) : bool :=
  match x with S754_zero _ => false | _ => true end.

(** The nearest binary64 to an integer (ties to even), possibly infinite. *)
Definition of_Z (z : Z) : float := binary_normalize prec emax z 0 false.

(** [float(z)]: raises when [z] is too large for a finite float. *)
Definition float_of_int (z : Z) : result float :=
  let x := of_Z z in
  if is_inf x then raise OverflowError else ok x.

(** The float a decimal literal [n / 10^k] denotes: numerator and
    denominator are exact for [|n| < 2^53] and [k <= 22], so the correctly
    rounded quotient is the nearest binary64 to the decimal, which is what
    Python's parser produces. *)
Definition dec (n : Z) (k : nat) : float :=
  fdiv (of_Z n) (of_Z (10 ^ Z.of_nat k)).

(** [int(x)]: truncation towards zero; raises on NaN and on infinities. *)
Definition int_of_float (x : float) : result Z :=
  match x with
  | S754_nan => raise ValueError
  | S754_infinity _ => raise OverflowError
  | S754_zero _ => ok 0
  | S754_finite s m e =>
      let a := if 0 <=? e then Z.pos m * 2 ^ e else Z.pos m / 2 ^ (- e) in
      ok (if s then - a else a)
  end.

(** C's [fmod]: the exact remainder, with the sign of [x]. *)
Definition fmod (x y : float) : float :=
  match x, y with
  | S754_nan, _ | _, S754_nan => S754_nan
  | S754_infinity _, _ => S754_nan
  | _, S754_zero _ => S754_nan
  | S754_zero _, _ => x
  | S754_finite _ _ _, S754_infinity _ => x
  | S754_finite sx mx ex, S754_finite _ my ey =>
      let e := Z.min ex ey in
      let r := (Z.pos mx * 2 ^ (ex - e)) mod (Z.pos my * 2 ^ (ey - e)) in
      binary_normalize prec emax (if sx then - r else r) e sx
  end.

(** C's [floor]: exact; keeps the sign of a zero. *)
Definition floor (x : float) : float :=
  match x with
  | S754_finite s m e =>
      if 0 <=? e then x
      else binary_normalize prec emax
             ((if s then Z.neg m else Z.pos m) / 2 ^ (- e)) 0 s
  | _ => x
  end.

(** C's [copysign(0.0, y)]. *)
Definition copysign_zero (y : float) : float := S754_zero (signbit y).

Definition half : float := S754_finite false 4503599627370496 (-53).
Definition one : float := S754_finite false 4503599627370496 (-52).

(** CPython's [_float_div_mod(vx, wx)] for [wx != 0]: the floored quotient
    and the remainder with the sign of [wx]. *)
Definition float_div_mod (vx wx : float) : float * float :=
  let mod0 := fmod vx wx in
  let div0 := fdiv (fsub vx mod0) wx in
  let '(mod1, div1) :=
    if nonzero mod0 then
      if negb (Bool.eqb (fltb wx (S754_zero false)) (fltb mod0 (S754_zero false)))
      then (fadd mod0 wx, fsub div0 one)
      else (mod0, div0)
    else (copysign_zero wx, div0) in
  let floordiv :=
    if nonzero div1 then
      let fl := floor div1 in
      if fltb half (fsub div1 fl) then fadd fl one else fl
    else copysign_zero (fdiv vx wx) in
  (floordiv, mod1).

(** [vx // wx] on floats. *)
Definition float_floordiv (vx wx : float) : result float :=
  if nonzero wx then ok (fst (float_div_mod vx wx))
  else raise ZeroDivisionError.

(** [vx % wx] on floats (CPython's [float_rem]). *)
Definition float_rem (vx wx : float) : result float :=
  if nonzero wx then
    let mod0 := fmod vx wx in
    ok (if nonzero mod0 then
          if negb (Bool.eqb (fltb wx (S754_zero false)) (fltb mod0 (S754_zero false)))
          then fadd mod0 wx
          else mod0
        else copysign_zero wx)
  else raise ZeroDivisionError.

(** *** Numbers: an [int] or a [float], with the mixed arithmetic the
    formatter uses (an [int] operand of a float operation is converted). *)

Inductive number : Type :=
| Int (z : Z)
| Float (x : float).

Definition as_float (a : number) : result float :=
  match a with
  | Int z => float_of_int z
  | Float x => ok x
  end.

(** [a // b] *)
Definition floordiv (a b : number) : result number :=
  match a, b with
  | Int x, Int y =>
      if y =? 0 then raise ZeroDivisionError else ok (Int (x / y))
  | _, _ =>
      rbind (as_float a) (fun x =>
      rbind (as_float b) (fun y =>
      rbind (float_floordiv x y) (fun q => ok (Float q))))
  end.

(** [a % b] *)
Definition rem (a b : number) : result number :=
  match a, b with
  | Int x, Int y =>
      if y =? 0 then raise ZeroDivisionError else ok (Int (x mod y))
  | _, _ =>
      rbind (as_float a) (fun x =>
      rbind (as_float b) (fun y =>
      rbind (float_rem x y) (fun r => ok (Float r))))
  end.

(** [a - b] *)
Definition sub (a b : number) : result number :=
  match a, b with
  | Int x, Int y => ok (Int (x - y))
  | _, _ =>
      rbind (as_float a) (fun x =>
      rbind (as_float b) (fun y => ok (Float (fsub x y))))
  end.

(** [a * b] *)
Definition mul (a b : number) : result number :=
  match a, b with
  | Int x, Int y => ok (Int (x * y))
  | _, _ =>
      rbind (as_float a) (fun x =>
      rbind (as_float b) (fun y => ok (Float (fmul x y))))
  end.

(** [int(a)] *)
Definition int (a : number) : result Z :=
  match a with
  | Int z => ok z
  | Float x => int_of_float x
  end.

End Py.

Notation "'let?' x ':=' m 'in' k" := (Py.rbind m (fun x => k))
  (at level 10, x name, m at level 100, k at level 200,
   format "'[v' 'let?'  x  ':='  m  'in' '/' k ']'").

(** ** The exact value of a float *)

Module Exact.
Import Py.

(** The value of a finite float in units of [2^-1074], the spacing of the
    smallest binary64 numbers: an integer for every float of the format.
    It is [0] for what is not finite. *)
Definition scaled (x : float) : Z :=
  match x with
  | S754_finite s m e => (if s then Z.neg m else Z.pos m) * 2 ^ (e + 1074)
  | _ => 0
  end.

Definition unit : positive := 2 ^ 1074.

(** The value of a finite float, as a fraction. *)
Definition value (x : float) : Q := scaled x # unit.

(** The float of value [v * 2^-1074] when there is one (the nearest one
    otherwise). *)
Definition of_scaled (v : Z) : float :=
  binary_normalize prec emax v (-1074) false.

(** The exponent a float of value [v * 2^-1074] has. *)
Definition expo (v : Z) : Z := fexp prec emax (Zdigits2 v - 1074).

(** [v * 2^-1074] is the value of a float: no bit below the exponent,
    and no overflow. *)
Definition representable (v : Z) : Prop :=
  (2 ^ (expo v + 1074) | v) /\ expo v <= emax - prec.

(** [x] is a float of the format (its mantissa and exponent are the
    canonical ones). *)
Definition valid (x : float) : bool := valid_binary prec emax x.

(** [x] is a zero or a positive finite float of the format. *)
Definition nonneg_finite (x : float) : bool :=
  match x with
  | S754_zero _ => true
  | S754_finite false m e => bounded prec emax m e
  | _ => false
  end.

End Exact.

(** ** The recognizer's output *)

(** A word with its timing, as the recognizer yields it. *)
Module Word.
Record t : Type := make { start : Py.float; end_ : Py.float; word : string }.
End Word.

(** A segment: its timing, its raw text, and its words when word-level
    timing was requested ([None] otherwise). *)
Module Segment.
Record t : Type := make
  { start : Py.float; end_ : Py.float; text : string;
    words : option (list Word.t) }.
End Segment.

(** ** The subtitle file being written

    One run owns a counter, the text written to the [.srt] file so far and
    what it has reported (printed lines for the command line, yielded events
    for the web service). [cues] is a ghost record of the blocks completed
    so far: the values the three [f.write] calls of a block interpolate. *)

Module Cue.
Record t : Type := make
  { index : Z; start : Py.float; end_ : Py.float; text : string }.
End Cue.

Module Run.
Import Py.

Section WithReport.
Variable E : Type.

Record state : Type := mk
  { caption_num : Z; f : string; out : list E; cues : list Cue.t }.

(** A statement: it may change the state and may raise; what was written
    before an exception stays written. *)
Definition M (A : Type) : Type := state -> result A * state.

Definition ret {A} (a : A) : M A := fun st => (ok a, st).

Definition bind {A B} (m : M A) (k : A -> M B) : M B :=
  fun st =>
    match m st with
    | (inl e, st') => (inl e, st')
    | (inr a, st') => k a st'
    end.

Definition lift {A} (r : result A) : M A := fun st => (r, st).

Definition get_caption_num : M Z := fun st => (ok (caption_num st), st).

Definition set_caption_num (n : Z) : M unit :=
  fun st => (ok tt, mk n (f st) (out st) (cues st)).

(** [f.write(s)] *)
Definition write (s : string) : M unit :=
  fun st => (ok tt, mk (caption_num st) (f st ++ s) (out st) (cues st)).

(** [print(...)] or [yield ...] *)
Definition report (e : E) : M unit :=
  fun st => (ok tt, mk (caption_num st) (f st) (out st ++ [e]) (cues st)).

(** Ghost: a block is complete. *)
Definition completed (c : Cue.t) : M unit :=
  fun st => (ok tt, mk (caption_num st) (f st) (out st) (cues st ++ [c])).

(** [for a in l: body(a)] *)
Fixpoint for_each {A} (l : list A) (body : A -> M unit) : M unit :=
  match l with
  | [] => ret tt
  | a :: l' => bind (body a) (fun _ => for_each l' body)
  end.

(** The state at [with open(path, "w") as f:]. *)
Definition initial : state := mk 0 "" [] [].

End WithReport.

Arguments ret {E A} a.
Arguments lift {E A} r.
Arguments get_caption_num {E}.
Arguments set_caption_num {E} n.
Arguments write {E} s.
Arguments completed {E} c.

End Run.

Notation "x <- m ;; k" := (Run.bind m (fun x => k))
  (at level 61, m at next level, right associativity).
Notation "m ;; k" := (Run.bind m (fun _ => k))
  (at level 61, right associativity).

(** ** transcribe.py *)

Module Transcribe.
Import Py Run.

(** [format_srt_time(seconds)]: convert seconds to the SRT timestamp
    format [HH:MM:SS,mmm]. *)
Definition format_srt_time (seconds : number) : result string :=
  let? h := floordiv seconds (Int 3600) in
  let? hours := int h in
  let? r := rem seconds (Int 3600) in
  let? m := floordiv r (Int 60) in
  let? minutes := int m in
  let? s := rem seconds (Int 60) in
  let? secs := int s in
  let? whole := int seconds in
  let? frac := sub seconds (Int whole) in
  let? ms := mul frac (Int 1000) in
  let? millis := int ms in
  ok (format_int 2 hours ++ ":" ++ format_int 2 minutes ++ ":"
      ++ format_int 2 secs ++ "," ++ format_int 3 millis)%string.

(** The block of [transcribe_to_srt] under [with open(output_path, "w")],
    followed by the closing [print]. [segments] is what the recognizer
    returned; loading the model, calling it and printing the detected
    language come before and touch neither the file nor the counter. *)
Definition transcribe_to_srt (segments : list Segment.t)
    (output_path : string) (max_words : option Z) : M string unit :=
  set_caption_num 1 ;;
  for_each segments (fun segment =>
    let whole : M string unit :=
      n <- get_caption_num ;;
      write (str_int n ++ nl) ;;
      ts <- lift (format_srt_time (Float (Segment.start segment))) ;;
      te <- lift (format_srt_time (Float (Segment.end_ segment))) ;;
      write (ts ++ " --> " ++ te ++ nl) ;;
      write (strip (Segment.text segment) ++ nl ++ nl) ;;
      te' <- lift (format_srt_time (Float (Segment.end_ segment))) ;;
      report ("[" ++ te' ++ "] " ++ strip (Segment.text segment))%string ;;
      completed (Cue.make n (Segment.start segment) (Segment.end_ segment)
                   (strip (Segment.text segment))) ;;
      n' <- get_caption_num ;;
      set_caption_num (n' + 1) in
    match max_words, Segment.words segment with
    | Some max_words, Some words =>
        if truthy_int max_words && truthy_opt_list (Some words) then
          r <- lift (range 0 (len words) max_words) ;;
          for_each r (fun i =>
            let chunk := slice words i (i + max_words) in
            first <- lift (index chunk 0) ;;
            let start := Word.start first in
            last <- lift (index chunk (-1)) ;;
            let end_ := Word.end_ last in
            let text := strip (join (map Word.word chunk)) in
            n <- get_caption_num ;;
            write (str_int n ++ nl) ;;
            ts <- lift (format_srt_time (Float start)) ;;
            te <- lift (format_srt_time (Float end_)) ;;
            write (ts ++ " --> " ++ te ++ nl) ;;
            write (text ++ nl ++ nl) ;;
            te' <- lift (format_srt_time (Float end_)) ;;
            report ("[" ++ te' ++ "] " ++ text)%string ;;
            completed (Cue.make n start end_ text) ;;
            n' <- get_caption_num ;;
            set_caption_num (n' + 1))
        else whole
    | _, _ => whole
    end) ;;
  report (nl ++ "Saved to " ++ output_path)%string.

End Transcribe.

(** ** app.py *)

Module App.
Import Py Run Transcribe.

(** What the service streams to its caller: the payload of one
    [yield f"data: {json.dumps(...)}\n\n"], before its JSON rendering. *)
Inductive event : Type :=
| ev_status (message : string)
| ev_segment (time : string) (text : string)
| ev_complete (srt_path : string).

(** The block of [transcribe.generate] under [with open(srt_path, 'w')],
    followed by the closing [yield], for a caller that consumes the whole
    stream. The three status events before it are not modelled. *)
Definition generate (segments : list Segment.t) (srt_path : string)
    (max_words : option Z) : M event unit :=
  set_caption_num 1 ;;
  for_each segments (fun segment =>
    let whole : M event unit :=
      n <- get_caption_num ;;
      write (str_int n ++ nl) ;;
      ts <- lift (format_srt_time (Float (Segment.start segment))) ;;
      te <- lift (format_srt_time (Float (Segment.end_ segment))) ;;
      write (ts ++ " --> " ++ te ++ nl) ;;
      write (strip (Segment.text segment) ++ nl ++ nl) ;;
      te' <- lift (format_srt_time (Float (Segment.end_ segment))) ;;
      report (ev_segment te' (strip (Segment.text segment))) ;;
      completed (Cue.make n (Segment.start segment) (Segment.end_ segment)
                   (strip (Segment.text segment))) ;;
      n' <- get_caption_num ;;
      set_caption_num (n' + 1) in
    match max_words, Segment.words segment with
    | Some max_words, Some words =>
        if truthy_int max_words && truthy_opt_list (Some words) then
          r <- lift (range 0 (len words) max_words) ;;
          for_each r (fun i =>
            let chunk := slice words i (i + max_words) in
            first <- lift (index chunk 0) ;;
            let start := Word.start first in
            last <- lift (index chunk (-1)) ;;
            let end_ := Word.end_ last in
            let text := strip (join (map Word.word chunk)) in
            n <- get_caption_num ;;
            write (str_int n ++ nl) ;;
            ts <- lift (format_srt_time (Float start)) ;;
            te <- lift (format_srt_time (Float end_)) ;;
            write (ts ++ " --> " ++ te ++ nl) ;;
            write (text ++ nl ++ nl) ;;
            te' <- lift (format_srt_time (Float end_)) ;;
            report (ev_segment te' text) ;;
            completed (Cue.make n start end_ text) ;;
            n' <- get_caption_num ;;
            set_caption_num (n' + 1))
        else whole
    | _, _ => whole
    end) ;;
  report (ev_complete srt_path).

(** [hex_to_ass(hex_color)]: convert a hex colour to the ASS format
    ([&HBBGGRR]). *)
Definition hex_to_ass (hex_color : string) : string :=
  let hex_color := lstrip_char "#" hex_color in
  let r := str_slice hex_color 0 2 in
  let g := str_slice hex_color 2 4 in
  let b := str_slice hex_color 4 6 in
  ("&H" ++ b ++ g ++ r)%string.

(** The escaping of the subtitle path for the encoder's filter argument:
    [str(srt_path)] with every backslash turned into a slash, then every
    colon preceded by a backslash. *)
Definition srt_path_escaped (srt_path : string) : string :=
  replace_char ":" (String backslash ":") (replace_char backslash "/" srt_path).

(** What [burn.generate] streams to its caller: the payload of one
    [yield], before its JSON rendering. *)
Inductive burn_event : Type :=
| bv_status (message : string)
| bv_progress (message : string)
| bv_complete (output_path : string)
| bv_error (message : string).

(** [burn.generate], for a caller that consumes the whole stream.
    [stderr] is the lines the encoder wrote to its error stream and
    [returncode] its exit status; starting the process and waiting for it
    are not modelled. *)
Definition burn_generate (output_path : string) (stderr : list string)
    (returncode : Z) : list burn_event :=
  [bv_status "Starting ffmpeg..."; bv_status ("Output: " ++ output_path)]
  ++ flat_map (fun line =>
                 let line := strip line in
                 if truthy_str line then [bv_progress line] else [])
              stderr
  ++ [if returncode =? 0 then bv_complete output_path
      else bv_error ("FFmpeg exited with code " ++ str_int returncode)].

End App.

(** ** The caption loop the two drivers share

    [transcribe_to_srt] and [generate] run the same loop and differ only in
    how they report a cue ([print] or [yield]). The loop is stated once
    here, over the report, and both drivers are shown to be instances. *)

Module Loop.
Import Py Run Transcribe.

Section Generic.
Variable E : Type.
Variable rep : string -> string -> E.

(** One block: the three writes, the report, the counter. *)
Definition emit (start end_ : float) (text : string) : M E unit :=
  n <- get_caption_num ;;
  write (str_int n ++ nl) ;;
  ts <- lift (format_srt_time (Float start)) ;;
  te <- lift (format_srt_time (Float end_)) ;;
  write (ts ++ " --> " ++ te ++ nl) ;;
  write (text ++ nl ++ nl) ;;
  te' <- lift (format_srt_time (Float end_)) ;;
  report (rep te' text) ;;
  completed (Cue.make n start end_ text) ;;
  n' <- get_caption_num ;;
  set_caption_num (n' + 1).

Definition whole (segment : Segment.t) : M E unit :=
  emit (Segment.start segment) (Segment.end_ segment)
       (strip (Segment.text segment)).

Definition window (words : list Word.t) (max_words i : Z) : M E unit :=
  let chunk := slice words i (i + max_words) in
  first <- lift (index chunk 0) ;;
  last <- lift (index chunk (-1)) ;;
  emit (Word.start first) (Word.end_ last)
       (strip (join (map Word.word chunk))).

Definition body (max_words : option Z) (segment : Segment.t) : M E unit :=
  match max_words, Segment.words segment with
  | Some max_words, Some words =>
      if truthy_int max_words && truthy_opt_list (Some words) then
        r <- lift (range 0 (len words) max_words) ;;
        for_each r (window words max_words)
      else whole segment
  | _, _ => whole segment
  end.

Definition loop (segments : list Segment.t) (max_words : option Z)
  : M E unit :=
  for_each segments (body max_words).

End Generic.

(** How each driver reports a cue. *)
Definition printed (time text : string) : string :=
  ("[" ++ time ++ "] " ++ text)%string.

End Loop.

(** ** Reading subtitle blocks back *)

(** Modelled from the spec: the repository writes subtitle files and has no
    reader of its own. This one follows the block layout the specification
    gives (the index on its own line, then [start --> end], then the text
    on the next line, then a blank line) and returns each time as the whole
    number of milliseconds its timestamp denotes. *)
Module Reader.
Import Py.

Record cue : Type := make
  { index : Z; start_ms : Z; end_ms : Z; text : string }.

(** Cut [s] at the first [c]: what is before it and what is after. *)
Fixpoint split_at (c : ascii) (s : string) : option (string * string) :=
  match s with
  | EmptyString => None
  | String a s' =>
      if Ascii.eqb a c then Some (EmptyString, s')
      else match split_at c s' with
           | Some (l, r) => Some (String a l, r)
           | None => None
           end
  end.

(** A decimal integer: an optional minus sign, then digits. *)
Definition parse_int (s : string) : option Z :=
  option_map Z.of_int (NilZero.int_of_string s).

(** [H:M:S,m] as milliseconds. *)
Definition parse_stamp (s : string) : option Z :=
  match split_at ":" s with
  | Some (h, r1) =>
      match split_at ":" r1 with
      | Some (m, r2) =>
          match split_at "," r2 with
          | Some (sec, ms) =>
              match parse_int h, parse_int m, parse_int sec, parse_int ms with
              | Some h, Some m, Some sec, Some ms =>
                  Some (((h * 60 + m) * 60 + sec) * 1000 + ms)
              | _, _, _, _ => None
              end
          | None => None
          end
      | None => None
      end
  | None => None
  end.

Fixpoint strip_prefix (p s : string) : option string :=
  match p, s with
  | EmptyString, _ => Some s
  | String a p', String b s' =>
      if Ascii.eqb a b then strip_prefix p' s' else None
  | String _ _, EmptyString => None
  end.

(** [start --> end] *)
Definition parse_times (line : string) : option (Z * Z) :=
  match split_at " " line with
  | Some (a, r) =>
      match strip_prefix "--> " r with
      | Some b =>
          match parse_stamp a, parse_stamp b with
          | Some ta, Some tb => Some (ta, tb)
          | _, _ => None
          end
      | None => None
      end
  | None => None
  end.

(** One block, and what follows it. *)
Definition read_block (s : string) : option (cue * string) :=
  match split_at LF s with
  | Some (l1, r1) =>
      match split_at LF r1 with
      | Some (l2, r2) =>
          match split_at LF r2 with
          | Some (l3, r3) =>
              match split_at LF r3 with
              | Some (EmptyString, r4) =>
                  match parse_int l1, parse_times l2 with
                  | Some i, Some (ta, tb) => Some (make i ta tb l3, r4)
                  | _, _ => None
                  end
              | _ => None
              end
          | None => None
          end
      | None => None
      end
  | None => None
  end.

Fixpoint read_blocks (fuel : nat) (s : string) : option (list cue) :=
  match s with
  | EmptyString => Some []
  | String _ _ =>
      match fuel with
      | O => None
      | S fuel' =>
          match read_block s with
          | Some (c, r) =>
              match read_blocks fuel' r with
              | Some cs => Some (c :: cs)
              | None => None
              end
          | None => None
          end
      end
  end.

(** Every block takes at least one character, so the length is fuel
    enough. *)
Definition read_srt (s : string) : option (list cue) :=
  read_blocks (String.length s) s.

End Reader.

(** ** What a run is expected to produce

    The vocabulary the properties are stated in: whether the formatter
    accepts a time, the block a cue is serialized as, the windows a word
    sequence is cut into, and the cues a segment contributes. *)

Module Spec.
Import Py Run Transcribe.

(** The formatter accepts the time (it rejects NaN and the infinities). *)
Definition formats (t : float) : bool :=
  match format_srt_time (Float t) with
  | inr _ => true
  | inl _ => false
  end.

(** The timestamp of an accepted time. *)
Definition stamp (t : float) : string :=
  match format_srt_time (Float t) with
  | inr s => s
  | inl _ => ""
  end.

Definition word_formats (w : Word.t) : bool :=
  formats (Word.start w) && formats (Word.end_ w).

(** Every time of the segment and of its words is accepted. *)
Definition segment_formats (s : Segment.t) : bool :=
  formats (Segment.start s) && formats (Segment.end_ s)
  && match Segment.words s with
     | None => true
     | Some ws => forallb word_formats ws
     end.

(** The subtitle block of a cue: the index on its own line, the two
    timestamps around an arrow, the text, a blank line. *)
Definition srt_block (c : Cue.t) : string :=
  (str_int (Cue.index c) ++ nl
   ++ stamp (Cue.start c) ++ " --> " ++ stamp (Cue.end_ c) ++ nl
   ++ Cue.text c ++ nl ++ nl)%string.

(** The subtitle file of a cue sequence. *)
Definition srt_file (cs : list Cue.t) : string :=
  String.concat "" (map srt_block cs).

(** Consecutive windows of [m] elements; the last one may be shorter. *)
Fixpoint windows_upto {A} (fuel m : nat) (l : list A) : list (list A) :=
  match fuel, l with
  | S fuel', _ :: _ => firstn m l :: windows_upto fuel' m (skipn m l)
  | _, _ => []
  end.

Definition windows {A} (m : nat) (l : list A) : list (list A) :=
  windows_upto (List.length l) m l.

(** A cue before it is numbered: start, end, text. *)
Definition entry : Type := (float * float * string)%type.

Definition whole_entry (s : Segment.t) : entry :=
  (Segment.start s, Segment.end_ s, strip (Segment.text s)).

(** The entry of a window that starts with [first]. *)
Definition window_entry (w : list Word.t) : list entry :=
  match w with
  | [] => []
  | first :: _ =>
      [(Word.start first, Word.end_ (List.last w first),
        strip (join (map Word.word w)))]
  end.

(** The entries one segment contributes under [max_words]. *)
Definition segment_entries (max_words : option Z) (s : Segment.t)
  : list entry :=
  match max_words, Segment.words s with
  | Some m, Some (w :: ws) =>
      if m =? 0 then [whole_entry s]
      else if 0 <? m then flat_map window_entry (windows (Z.to_nat m) (w :: ws))
      else []
  | _, _ => [whole_entry s]
  end.

(** Numbering entries from [n] on. *)
Fixpoint number (n : Z) (es : list entry) : list Cue.t :=
  match es with
  | [] => []
  | (s, e, t) :: es' => Cue.make n s e t :: number (n + 1) es'
  end.

Definition entry_formats (en : entry) : bool :=
  let '(s, e, _) := en in formats s && formats e.

(** The state after one more block, reported through [rep]. *)
Definition push {E} (rep : string -> string -> E) (st : state E)
    (en : entry) : state E :=
  let '(s, e, t) := en in
  let n := caption_num st in
  mk (n + 1)
     (((f st ++ (str_int n ++ nl)) ++ (stamp s ++ " --> " ++ stamp e ++ nl))
      ++ (t ++ nl ++ nl))
     (out st ++ [rep (stamp e) t])
     (cues st ++ [Cue.make n s e t]).

Definition pushes {E} (rep : string -> string -> E) (st : state E)
    (es : list entry) : state E :=
  fold_left (push rep) es st.

Definition entry_start (en : entry) : float := fst (fst en).

(** [a] is no later than [b] (false when either is a NaN). *)
Definition no_later (a b : float) : Prop := fleb a b = true.

(** The times of the input in the order the recognizer produces them: the
    start of each segment, then the starts of its words. *)
Definition timeline (segments : list Segment.t) : list float :=
  flat_map
    (fun s =>
       Segment.start s ::
       match Segment.words s with
       | Some ws => map Word.start ws
       | None => []
       end) segments.

(** [l1] is [l2] with some elements left out. *)
Inductive sublist {A} : list A -> list A -> Prop :=
| sublist_nil : sublist [] []
| sublist_skip a l1 l2 : sublist l1 l2 -> sublist l1 (a :: l2)
| sublist_keep a l1 l2 : sublist l1 l2 -> sublist (a :: l1) (a :: l2).

(** [st'] continues [st]: some blocks were completed, numbered on from the
    counter of [st], and the counter advanced by as many. *)
Definition continues {E} (st st' : state E) : Prop :=
  exists es : list entry,
    cues st' = (cues st ++ number (caption_num st) es)%list
    /\ caption_num st' = caption_num st + len es.

(** The cues a run over [segments] is expected to emit. *)
Definition expected (max_words : option Z) (segments : list Segment.t)
  : list Cue.t :=
  number 1 (flat_map (segment_entries max_words) segments).

(** The four numbers [format_srt_time] prints: hours, minutes, seconds and
    milliseconds, computed as the formatter computes them. *)
Definition time_fields (seconds : Py.number) : result (Z * Z * Z * Z) :=
  let? h := floordiv seconds (Int 3600) in
  let? hours := int h in
  let? r := rem seconds (Int 3600) in
  let? m := floordiv r (Int 60) in
  let? minutes := int m in
  let? s := rem seconds (Int 60) in
  let? secs := int s in
  let? whole := int seconds in
  let? frac := sub seconds (Int whole) in
  let? ms := mul frac (Int 1000) in
  let? millis := int ms in
  ok (hours, minutes, secs, millis).

(** How the four numbers are laid out. *)
Definition render (fields : Z * Z * Z * Z) : string :=
  let '(hours, minutes, secs, millis) := fields in
  (format_int 2 hours ++ ":" ++ format_int 2 minutes ++ ":"
   ++ format_int 2 secs ++ "," ++ format_int 3 millis)%string.

(** The milliseconds a timestamp of these four numbers denotes. *)
Definition fields_ms (fields : Z * Z * Z * Z) : Z :=
  let '(hours, minutes, secs, millis) := fields in
  ((hours * 60 + minutes) * 60 + secs) * 1000 + millis.

(** The milliseconds the reader finds in the timestamp printed for [t]
    ([0] where the formatter raises or the timestamp does not parse). This
    is what is on the page, not the time itself: [exact_ms] below is the
    time's own, and the round trip compares the two. *)
Definition printed_ms (t : float) : Z :=
  match Reader.parse_stamp (stamp t) with
  | Some ms => ms
  | None => 0
  end.

(** The block of a cue as the reader returns it: the index, what the two
    timestamps read as, the text. *)
Definition read_back (c : Cue.t) : Reader.cue :=
  Reader.make (Cue.index c) (printed_ms (Cue.start c))
              (printed_ms (Cue.end_ c)) (Cue.text c).

(** The character [c] does not occur in [s]. *)
Fixpoint avoids (c : ascii) (s : string) : bool :=
  match s with
  | EmptyString => true
  | String a s' => negb (Ascii.eqb a c) && avoids c s'
  end.

(** The text has no line feed in it. *)
Definition one_line (s : string) : bool := avoids LF s.

(** Only digits and minus signs. *)
Fixpoint numeric (s : string) : bool :=
  match s with
  | EmptyString => true
  | String a s' =>
      (Ascii.eqb a "-" || (48 <=? N_of_ascii a)%N && (N_of_ascii a <=? 57)%N)
      && numeric s'
  end.

(** A cue a reader can take apart: both times are accepted by the
    formatter and the text is one line. *)
Definition readable (c : Cue.t) : bool :=
  formats (Cue.start c) && formats (Cue.end_ c) && one_line (Cue.text c).

(** *** The timestamp as the specification words it

    The four numbers of the specification, over the rationals: they are
    taken from the specification's formulas, to be compared with what
    [format_srt_time] computes in binary64. *)

(** [x mod d] for a positive [d]. *)
Definition Qmod (x d : Q) : Q := (x - d * inject_Z (Qfloor (x / d)))%Q.

(** [floor((seconds - floor(seconds)) * 1000)] *)
Definition exact_millis (seconds : Q) : Z :=
  Qfloor ((seconds - inject_Z (Qfloor seconds)) * inject_Z 1000)%Q.

Definition exact_fields (seconds : Q) : Z * Z * Z * Z :=
  (Qfloor (seconds / inject_Z 3600)%Q,
   Qfloor (Qmod seconds (inject_Z 3600) / inject_Z 60)%Q,
   Qfloor (Qmod seconds (inject_Z 60)),
   exact_millis seconds).

Definition format_time (seconds : Q) : string :=
  render (exact_fields seconds).

(** *** The escaped path and the encoder's events *)

(** Every colon of [s] follows a backslash and every backslash precedes a
    colon. *)
Fixpoint escaped (s : string) : bool :=
  match s with
  | EmptyString => true
  | String c s' =>
      if Ascii.eqb c backslash then
        match s' with
        | String d s'' => Ascii.eqb d ":" && escaped s''
        | EmptyString => false
        end
      else negb (Ascii.eqb c ":") && escaped s'
  end.

(** [s] without its backslashes. *)
Fixpoint unescape (s : string) : string :=
  match s with
  | EmptyString => EmptyString
  | String c s' =>
      if Ascii.eqb c backslash then unescape s' else String c (unescape s')
  end.

(** The number of colons of [s]. *)
Fixpoint colons (s : string) : nat :=
  match s with
  | EmptyString => O
  | String c s' => ((if Ascii.eqb c ":" then 1 else 0) + colons s')%nat
  end.

(** The event ends the stream of [burn]. *)
Definition terminal (e : App.burn_event) : bool :=
  match e with
  | App.bv_complete _ | App.bv_error _ => true
  | _ => false
  end.

(** Two runs are in the same state but for what they reported, of which
    they hold equally many items. *)
Definition agree {E1 E2} (st1 : state E1) (st2 : state E2) : Prop :=
  caption_num st1 = caption_num st2
  /\ f st1 = f st2
  /\ cues st1 = cues st2
  /\ List.length (out st1) = List.length (out st2).

(** Two statements do the same but for what they report. *)
Definition alike {E1 E2} (m1 : M E1 unit) (m2 : M E2 unit) : Prop :=
  forall st1 st2, agree st1 st2 ->
    fst (m1 st1) = fst (m2 st2) /\ agree (snd (m1 st1)) (snd (m2 st2)).

(** *** The round trip, in the cue's own times *)

(** The time is zero or positive, finite and below [2^53] seconds. *)
Definition in_range (t : float) : bool :=
  Exact.nonneg_finite t && (Exact.scaled t <? 2 ^ (53 + 1074)).

(** The whole milliseconds of a time: [floor(1000 t)], over the exact
    value of the float. *)
Definition exact_ms (t : float) : Z :=
  Qfloor (Exact.value t * inject_Z 1000)%Q.

(** [ms] is the time [t] to the millisecond: the whole milliseconds of
    [t], or one more. *)
Definition to_the_ms (t : float) (ms : Z) : Prop :=
  exact_ms t <= ms <= exact_ms t + 1.

(** The cue [r] that was read is the cue [c]: the same index, the start
    and the end of [c] to the millisecond, the same text. *)
Definition reads_as (c : Cue.t) (r : Reader.cue) : Prop :=
  Reader.index r = Cue.index c
  /\ to_the_ms (Cue.start c) (Reader.start_ms r)
  /\ to_the_ms (Cue.end_ c) (Reader.end_ms r)
  /\ Reader.text r = Cue.text c.

(** A cue the round trip is stated for: both times in range and the text
    on one line. *)
Definition round_trips (c : Cue.t) : bool :=
  in_range (Cue.start c) && in_range (Cue.end_ c) && one_line (Cue.text c).

(** The result is not the IndexError of an access out of range. *)
Definition in_bounds {A} (r : result A) : Prop := r <> raise IndexError.

End Spec.
(** * Properties *)

Unset Implicit Arguments.

(** ** Facts about the Python runtime model *)

Module PyFacts.
Import Py.

Lemma append_assoc (a b c : string) : ((a ++ b) ++ c = a ++ (b ++ c))%string.
Proof. induction a as [|x a IH]; simpl; [reflexivity | now rewrite IH]. Qed.

Lemma append_nil_r (a : string) : (a ++ "")%string = a.
Proof. induction a as [|x a IH]; simpl; [reflexivity | now rewrite IH]. Qed.

Section Lists.
Context {A : Type}.
Implicit Types l : list A.

Lemma len_nonneg l : 0 <= len l.
Proof. unfold len. lia. Qed.

(** A slice that starts inside or after the list is a [firstn] of a
    [skipn]. *)
Lemma slice_firstn_skipn l (k m : nat) :
  slice l (Z.of_nat k) (Z.of_nat k + Z.of_nat m) = firstn m (skipn k l).
Proof.
  unfold slice, clip, len.
  destruct (Z.ltb_spec (Z.of_nat k) 0); [lia|].
  destruct (Z.ltb_spec (Z.of_nat k + Z.of_nat m) 0); [lia|].
  destruct (Nat.le_gt_cases (List.length l) k) as [Hk|Hk].
  - rewrite Z.min_r by lia. rewrite Z.min_r by lia.
    rewrite Z.sub_diag, Nat2Z.id. simpl.
    rewrite (skipn_all2 l) by lia. now rewrite firstn_nil.
  - rewrite (Z.min_l (Z.of_nat k)) by lia. rewrite Nat2Z.id.
    destruct (Nat.le_gt_cases (k + m) (List.length l)) as [Hm|Hm].
    + rewrite Z.min_l by lia.
      replace (Z.to_nat (Z.of_nat k + Z.of_nat m - Z.of_nat k)) with m by lia.
      reflexivity.
    + rewrite Z.min_r by lia.
      rewrite (firstn_all2 (n := m)) by (rewrite length_skipn; lia).
      apply firstn_all2. rewrite length_skipn. lia.
Qed.

Lemma index_first a l : index (a :: l) 0 = ok a.
Proof.
  assert (Hlen : len (a :: l) = Z.of_nat (List.length l) + 1)
    by (unfold len; simpl List.length; lia).
  unfold index. change (0 <? 0) with false. cbv iota. rewrite Hlen.
  destruct (Z.leb_spec (Z.of_nat (List.length l) + 1) 0); [lia|].
  reflexivity.
Qed.

Lemma last_default b l (a d : A) : List.last (b :: l) a = List.last (b :: l) d.
Proof.
  revert b. induction l as [|c l IH]; intros b; [reflexivity|].
  change (List.last (c :: l) a = List.last (c :: l) d). apply IH.
Qed.

Lemma nth_error_last a l :
  nth_error (a :: l) (List.length l) = Some (List.last (a :: l) a).
Proof.
  revert a. induction l as [|b l IH]; intros a; [reflexivity|].
  change (nth_error (b :: l) (List.length l) = Some (List.last (b :: l) a)).
  rewrite IH. f_equal. apply last_default.
Qed.

(** [l[-1]] is the last element of a list that has one. *)
Lemma index_last a l : index (a :: l) (-1) = ok (List.last (a :: l) a).
Proof.
  assert (Hlen : len (a :: l) = Z.of_nat (List.length l) + 1)
    by (unfold len; simpl List.length; lia).
  unfold index. change (-1 <? 0) with true. cbv iota. rewrite Hlen.
  replace (-1 + (Z.of_nat (List.length l) + 1)) with (Z.of_nat (List.length l))
    by lia.
  destruct (Z.ltb_spec (Z.of_nat (List.length l)) 0); [lia|].
  destruct (Z.leb_spec (Z.of_nat (List.length l) + 1) (Z.of_nat (List.length l)));
    [lia|].
  cbn [orb]. rewrite Nat2Z.id, nth_error_last. reflexivity.
Qed.

(** An empty list has neither a first nor a last element. *)
Lemma index_nil (i : Z) : index (@nil A) i = raise IndexError.
Proof.
  unfold index, len. simpl List.length. simpl Z.of_nat.
  destruct (i <? 0) eqn:Hi.
  - destruct (Z.ltb_spec (i + 0) 0); [reflexivity|].
    apply Z.ltb_lt in Hi. lia.
  - destruct (Z.ltb_spec i 0); [reflexivity|].
    destruct (Z.leb_spec 0 i); [reflexivity|lia].
Qed.

End Lists.

(** *** [range] *)

Lemma range_len_step (L m : nat) :
  (0 < L)%nat -> (0 < m)%nat ->
  Z.to_nat (range_len 0 (Z.of_nat L) (Z.of_nat m)) =
  S (Z.to_nat (range_len 0 (Z.of_nat (L - m)) (Z.of_nat m))).
Proof.
  intros HL Hm. unfold range_len.
  destruct (Z.ltb_spec 0 (Z.of_nat m)); [|lia].
  destruct (Z.ltb_spec 0 (Z.of_nat L)); [|lia].
  rewrite !Z.sub_0_r.
  destruct (Nat.le_gt_cases L m) as [Hle|Hgt].
  - replace (L - m)%nat with 0%nat by lia. simpl (0 <? Z.of_nat 0).
    cbv iota. rewrite Z.div_small by lia. reflexivity.
  - destruct (Z.ltb_spec 0 (Z.of_nat (L - m))); [|lia].
    replace (Z.of_nat L - 1) with ((Z.of_nat (L - m) - 1) + 1 * Z.of_nat m) by lia.
    rewrite Z.div_add by lia.
    assert (0 <= (Z.of_nat (L - m) - 1) / Z.of_nat m)
      by (apply Z.div_pos; lia).
    lia.
Qed.

Lemma range_len_empty (step : Z) : range_len 0 0 step = 0.
Proof. unfold range_len. destruct (0 <? step); reflexivity. Qed.

(** A backward range from [0] to a length is empty. *)
Lemma range_backward (n step : Z) :
  0 <= n -> step < 0 -> range 0 n step = ok [].
Proof.
  intros Hn Hs. unfold range, range_len.
  destruct (Z.eqb_spec step 0); [lia|].
  destruct (Z.ltb_spec 0 step); [lia|].
  destruct (Z.ltb_spec n 0); [lia|]. reflexivity.
Qed.

(** *** Windows *)

Section Windows.
Context {A : Type}.
Implicit Types l : list A.

Lemma windows_upto_concat fuel m l :
  (0 < m)%nat -> (List.length l <= fuel)%nat ->
  List.concat (Spec.windows_upto fuel m l) = l.
Proof.
  intros Hm. revert l. induction fuel as [|fuel IH]; intros l Hl.
  - destruct l; [reflexivity | simpl in Hl; lia].
  - destruct l as [|a l]; [reflexivity|].
    cbn [Spec.windows_upto List.concat].
    rewrite IH.
    + apply firstn_skipn.
    + rewrite length_skipn. simpl List.length in *. lia.
Qed.

Lemma windows_concat m l : (0 < m)%nat -> List.concat (Spec.windows m l) = l.
Proof. intros Hm. apply windows_upto_concat; [exact Hm | apply Nat.le_refl]. Qed.

Lemma windows_upto_sizes fuel m l :
  (0 < m)%nat ->
  Forall (fun w => (1 <= List.length w <= m)%nat) (Spec.windows_upto fuel m l).
Proof.
  intros Hm. revert l. induction fuel as [|fuel IH]; intros l.
  - destruct l; constructor.
  - destruct l as [|a l]; [constructor|].
    cbn [Spec.windows_upto]. constructor; [|apply IH].
    rewrite length_firstn. simpl List.length. lia.
Qed.


(** The slices the loop takes are the windows. *)
Lemma slices_windows_upto fuel (m : nat) l :
  (0 < m)%nat -> (List.length l <= fuel)%nat ->
  map (fun k => firstn m (skipn (k * m) l))
      (seq 0 (Z.to_nat (range_len 0 (len l) (Z.of_nat m)))) =
  Spec.windows_upto fuel m l.
Proof.
  intros Hm. revert l. induction fuel as [|fuel IH]; intros l Hl.
  - destruct l; [|simpl in Hl; lia].
    unfold len. simpl List.length. simpl Z.of_nat.
    rewrite range_len_empty. reflexivity.
  - destruct l as [|a l].
    { unfold len. simpl List.length. simpl Z.of_nat.
      rewrite range_len_empty. reflexivity. }
    unfold len. rewrite range_len_step by (simpl; lia).
    cbn [seq map Spec.windows_upto]. f_equal.
    rewrite <- seq_shift, map_map.
    rewrite <- IH by (rewrite length_skipn; simpl List.length in *; lia).
    unfold len. rewrite length_skipn.
    apply map_ext. intros k. f_equal.
    rewrite skipn_skipn. f_equal. lia.
Qed.

Lemma range_slices (m : nat) l :
  (0 < m)%nat ->
  exists r, range 0 (len l) (Z.of_nat m) = ok r /\
    map (fun i => slice l i (i + Z.of_nat m)) r = Spec.windows m l.
Proof.
  intros Hm. unfold range.
  destruct (Z.eqb_spec (Z.of_nat m) 0); [lia|].
  eexists. split; [reflexivity|].
  rewrite map_map. unfold Spec.windows.
  rewrite <- (slices_windows_upto (List.length l) m l Hm (Nat.le_refl _)).
  apply map_ext. intros k.
  replace (0 + Z.of_nat k * Z.of_nat m) with (Z.of_nat (k * m)) by lia.
  apply slice_firstn_skipn.
Qed.

End Windows.

End PyFacts.

(** ** The drivers are instances of the shared loop *)

Module LoopFacts.
Import Py Run Transcribe Loop.

Lemma transcribe_to_srt_loop segments output_path max_words :
  transcribe_to_srt segments output_path max_words =
  (set_caption_num 1 ;;
   loop printed segments max_words ;;
   report (nl ++ "Saved to " ++ output_path)%string).
Proof. reflexivity. Qed.

Lemma generate_loop segments srt_path max_words :
  App.generate segments srt_path max_words =
  (set_caption_num 1 ;;
   loop App.ev_segment segments max_words ;;
   report (App.ev_complete srt_path)).
Proof. reflexivity. Qed.


Section Generic.
Variable E : Type.
Variable rep : string -> string -> E.

Lemma formats_stamp t :
  Spec.formats t = true -> format_srt_time (Float t) = ok (Spec.stamp t).
Proof.
  unfold Spec.formats, Spec.stamp.
  destruct (format_srt_time (Float t)); [discriminate | reflexivity].
Qed.

Lemma emit_ok s e t st :
  Spec.entry_formats (s, e, t) = true ->
  emit rep s e t st = (ok tt, Spec.push rep st (s, e, t)).
Proof.
  intros H. apply andb_prop in H. destruct H as [Hs He].
  apply formats_stamp in Hs. apply formats_stamp in He.
  unfold emit, bind, lift, get_caption_num, write, report, completed,
    set_caption_num, Spec.push.
  rewrite Hs, He. reflexivity.
Qed.

Lemma for_each_app A (l1 l2 : list A) (b : A -> M E unit) st :
  for_each (l1 ++ l2) b st =
  match for_each l1 b st with
  | (inl e, st') => (inl e, st')
  | (inr _, st') => for_each l2 b st'
  end.
Proof.
  revert st. induction l1 as [|a l1 IH]; intros st; simpl.
  - reflexivity.
  - unfold bind. destruct (b a st) as [[e|[]] st']; [reflexivity|].
    apply IH.
Qed.

Lemma window_ok words max_words i st first rest :
  slice words i (i + max_words) = first :: rest ->
  Forall (fun en => Spec.entry_formats en = true)
         (Spec.window_entry (first :: rest)) ->
  window rep words max_words i st =
  (ok tt, Spec.pushes rep st (Spec.window_entry (first :: rest))).
Proof.
  intros Hc Hf. unfold window. rewrite Hc.
  unfold bind at 1, lift at 1.
  rewrite PyFacts.index_first.
  unfold bind at 1, lift at 1.
  rewrite PyFacts.index_last.
  cbv beta iota. unfold ok at 1 2.
  rewrite emit_ok; [reflexivity|].
  inversion Hf; assumption.
Qed.

Lemma windows_loop_ok words max_words (r : list Z) st :
  Forall (fun w => (1 <= List.length w)%nat)
         (map (fun i => slice words i (i + max_words)) r) ->
  Forall (fun en => Spec.entry_formats en = true)
         (flat_map Spec.window_entry
            (map (fun i => slice words i (i + max_words)) r)) ->
  for_each r (window rep words max_words) st =
  (ok tt, Spec.pushes rep st
            (flat_map Spec.window_entry
               (map (fun i => slice words i (i + max_words)) r))).
Proof.
  revert st. induction r as [|i r IH]; intros st Hne Hf.
  - reflexivity.
  - cbn [map flat_map] in *.
    inversion Hne as [|? ? Hi Hr]; subst.
    destruct (slice words i (i + max_words)) as [|first rest] eqn:Hc;
      [simpl in Hi; lia|].
    apply Forall_app in Hf. destruct Hf as [Hf1 Hf2].
    cbn [for_each]. unfold bind at 1.
    erewrite window_ok; [|exact Hc|exact Hf1].
    rewrite IH by assumption.
    unfold Spec.pushes. now rewrite fold_left_app.
Qed.

Lemma whole_ok segment st :
  Spec.entry_formats (Spec.whole_entry segment) = true ->
  whole rep segment st =
  (ok tt, Spec.pushes rep st [Spec.whole_entry segment]).
Proof. intros H. unfold whole. now rewrite emit_ok. Qed.

Lemma body_ok max_words segment st :
  Forall (fun en => Spec.entry_formats en = true)
         (Spec.segment_entries max_words segment) ->
  body rep max_words segment st =
  (ok tt, Spec.pushes rep st (Spec.segment_entries max_words segment)).
Proof.
  unfold body, Spec.segment_entries.
  destruct max_words as [m|];
    [|intros H; apply whole_ok; now inversion H].
  destruct (Segment.words segment) as [[|w ws]|];
    try (rewrite ?andb_false_r; intros H; apply whole_ok; now inversion H).
  unfold truthy_int, truthy_opt_list. rewrite andb_true_r.
  destruct (Z.eqb_spec m 0) as [->|Hm0]; cbn [negb];
    [intros H; apply whole_ok; now inversion H|].
  destruct (Z.ltb_spec 0 m) as [Hpos|Hneg]; intros Hf.
  - destruct (PyFacts.range_slices (Z.to_nat m) (w :: ws)) as (r & Hr & Hw);
      [lia|].
    rewrite Z2Nat.id in Hr, Hw by lia.
    unfold bind at 1, lift at 1. rewrite Hr.
    rewrite <- Hw in Hf |- *.
    apply windows_loop_ok; [|exact Hf].
    rewrite Hw. unfold Spec.windows.
    eapply Forall_impl; [|apply PyFacts.windows_upto_sizes; lia].
    intros a Ha. apply Ha.
  - unfold bind at 1, lift at 1.
    rewrite PyFacts.range_backward by (try apply PyFacts.len_nonneg; lia).
    reflexivity.
Qed.

Lemma loop_ok max_words segments st :
  Forall (fun en => Spec.entry_formats en = true)
         (flat_map (Spec.segment_entries max_words) segments) ->
  loop rep segments max_words st =
  (ok tt, Spec.pushes rep st
            (flat_map (Spec.segment_entries max_words) segments)).
Proof.
  unfold loop. revert st.
  induction segments as [|s segments IH]; intros st Hf.
  - reflexivity.
  - cbn [flat_map] in *. apply Forall_app in Hf. destruct Hf as [Hf1 Hf2].
    cbn [for_each]. unfold bind at 1. rewrite body_ok by assumption.
    rewrite IH by assumption.
    unfold Spec.pushes. now rewrite fold_left_app.
Qed.

(** What the state holds after a sequence of blocks. *)
Lemma pushes_cues es st :
  cues (Spec.pushes rep st es) = (cues st ++ Spec.number (caption_num st) es)%list.
Proof.
  unfold Spec.pushes. revert st.
  induction es as [|[[s e] t] es IH]; intros st.
  - simpl. now rewrite app_nil_r.
  - cbn [fold_left Spec.number]. rewrite IH. simpl.
    now rewrite <- app_assoc.
Qed.

Lemma pushes_caption_num es st :
  caption_num (Spec.pushes rep st es) = caption_num st + len es.
Proof.
  unfold Spec.pushes, len. revert st.
  induction es as [|[[s e] t] es IH]; intros st.
  - simpl. lia.
  - cbn [fold_left]. rewrite IH. simpl caption_num. simpl List.length. lia.
Qed.

Lemma pushes_out es st :
  out (Spec.pushes rep st es) =
  (out st ++ map (fun en => rep (Spec.stamp (snd (fst en))) (snd en)) es)%list.
Proof.
  unfold Spec.pushes. revert st.
  induction es as [|[[s e] t] es IH]; intros st.
  - simpl. now rewrite app_nil_r.
  - cbn [fold_left map]. rewrite IH. simpl. now rewrite <- app_assoc.
Qed.

(** The file holds the blocks of the cues, in order. *)
Lemma pushes_f es st :
  f (Spec.pushes rep st es) =
  (f st ++ Spec.srt_file (Spec.number (caption_num st) es))%string.
Proof.
  unfold Spec.pushes, Spec.srt_file. revert st.
  induction es as [|[[s e] t] es IH]; intros st.
  - simpl. now rewrite PyFacts.append_nil_r.
  - cbn [fold_left Spec.number map]. rewrite IH. simpl f. simpl caption_num.
    set (rest := String.concat "" (map Spec.srt_block (Spec.number (caption_num st + 1) es))).
    assert (Hc : forall b, String.concat "" (b :: map Spec.srt_block (Spec.number (caption_num st + 1) es)) = (b ++ rest)%string).
    { intros b. subst rest. simpl.
      destruct (map Spec.srt_block (Spec.number (caption_num st + 1) es));
        [now rewrite PyFacts.append_nil_r | reflexivity]. }
    rewrite Hc. unfold Spec.srt_block, nl. cbn [Cue.index Cue.start Cue.end_ Cue.text].
    repeat first [rewrite PyFacts.append_assoc | progress cbn [append]].
    reflexivity.
Qed.

(** A run of the loop between the counter's initialisation and a closing
    report, when every time is accepted. *)
Lemma run_ok max_words segments (closing : E) :
  Forall (fun en => Spec.entry_formats en = true)
         (flat_map (Spec.segment_entries max_words) segments) ->
  (set_caption_num 1 ;; loop rep segments max_words ;; report closing)
    (initial E) =
  (ok tt,
   mk (1 + len (flat_map (Spec.segment_entries max_words) segments))
      (Spec.srt_file (Spec.expected max_words segments))
      (map (fun en => rep (Spec.stamp (snd (fst en))) (snd en))
           (flat_map (Spec.segment_entries max_words) segments) ++ [closing])
      (Spec.expected max_words segments)).
Proof.
  intros Hf. unfold bind at 1. unfold set_caption_num at 1, initial.
  cbn [caption_num f out cues]. unfold bind at 1.
  rewrite loop_ok by exact Hf.
  unfold report.
  rewrite pushes_caption_num, pushes_f, pushes_out, pushes_cues.
  reflexivity.
Qed.

End Generic.

(** Accepted segments give accepted entries. *)
Lemma windows_upto_incl A fuel m (l w : list A) :
  In w (Spec.windows_upto fuel m l) -> incl w l.
Proof.
  revert l. induction fuel as [|fuel IH]; intros l Hin.
  - destruct l; destruct Hin.
  - destruct l as [|a l]; [destruct Hin|].
    cbn [Spec.windows_upto] in Hin. destruct Hin as [<-|Hin];
      intros x Hx; rewrite <- (firstn_skipn m (a :: l)); apply in_or_app.
    + left. exact Hx.
    + right. apply IH in Hin. apply Hin. exact Hx.
Qed.

Lemma last_in A (a : A) l : In (List.last (a :: l) a) (a :: l).
Proof.
  revert a. induction l as [|b l IH]; intros a; [left; reflexivity|].
  right. change (In (List.last (b :: l) a) (b :: l)).
  rewrite (PyFacts.last_default b l a b). apply IH.
Qed.

Lemma window_entry_formats ws w :
  forallb Spec.word_formats ws = true -> incl w ws ->
  Forall (fun en => Spec.entry_formats en = true) (Spec.window_entry w).
Proof.
  intros Hws Hin. destruct w as [|first rest]; [constructor|].
  rewrite forallb_forall in Hws.
  assert (H1 : Spec.word_formats first = true)
    by (apply Hws, Hin; left; reflexivity).
  assert (H2 : Spec.word_formats (List.last (first :: rest) first) = true)
    by (apply Hws, Hin, last_in).
  unfold Spec.word_formats in H1, H2.
  apply andb_prop in H1. apply andb_prop in H2.
  constructor; [|constructor].
  unfold Spec.entry_formats. apply andb_true_intro. tauto.
Qed.

Lemma segment_formats_entries max_words s :
  Spec.segment_formats s = true ->
  Forall (fun en => Spec.entry_formats en = true)
         (Spec.segment_entries max_words s).
Proof.
  unfold Spec.segment_formats. intros H.
  apply andb_prop in H. destruct H as [H Hw]. 
  assert (Hwhole : Forall (fun en => Spec.entry_formats en = true)
                          [Spec.whole_entry s])
    by (constructor; [exact H | constructor]).
  unfold Spec.segment_entries.
  destruct max_words as [m|]; [|exact Hwhole].
  destruct (Segment.words s) as [[|w ws]|]; try exact Hwhole.
  destruct (m =? 0); [exact Hwhole|].
  destruct (0 <? m); [|constructor].
  apply Forall_flat_map. apply Forall_forall. intros c Hc.
  apply (window_entry_formats _ _ Hw). eapply windows_upto_incl. exact Hc.
Qed.

Lemma segments_formats_entries max_words segments :
  Forall (fun s => Spec.segment_formats s = true) segments ->
  Forall (fun en => Spec.entry_formats en = true)
         (flat_map (Spec.segment_entries max_words) segments).
Proof.
  intros H. apply Forall_flat_map. eapply Forall_impl; [|exact H].
  intros s. apply segment_formats_entries.
Qed.

(** The two drivers, on accepted input. *)
Lemma transcribe_to_srt_ok segments output_path max_words :
  Forall (fun s => Spec.segment_formats s = true) segments ->
  fst (transcribe_to_srt segments output_path max_words (initial string)) = ok tt
  /\ cues (snd (transcribe_to_srt segments output_path max_words (initial string)))
     = Spec.expected max_words segments.
Proof.
  intros H. rewrite transcribe_to_srt_loop.
  rewrite run_ok by now apply segments_formats_entries.
  split; reflexivity.
Qed.

Lemma generate_ok segments srt_path max_words :
  Forall (fun s => Spec.segment_formats s = true) segments ->
  fst (App.generate segments srt_path max_words (initial App.event)) = ok tt
  /\ cues (snd (App.generate segments srt_path max_words (initial App.event)))
     = Spec.expected max_words segments.
Proof.
  intros H. rewrite generate_loop.
  rewrite run_ok by now apply segments_formats_entries.
  split; reflexivity.
Qed.

End LoopFacts.

(** ** Numbering *)

Module NumberFacts.
Import Py Run.

Lemma number_length n es : List.length (Spec.number n es) = List.length es.
Proof.
  revert n. induction es as [|[[s e] t] es IH]; intros n; simpl;
    [reflexivity | now rewrite IH].
Qed.

Lemma number_app n es1 es2 :
  Spec.number n (es1 ++ es2) =
  (Spec.number n es1 ++ Spec.number (n + len es1) es2)%list.
Proof.
  revert n. induction es1 as [|[[s e] t] es1 IH]; intros n.
  - simpl. unfold len. simpl. now rewrite Z.add_0_r.
  - cbn [app Spec.number]. rewrite IH. do 3 f_equal.
    unfold len. simpl List.length. lia.
Qed.


(** Numbered cues carry consecutive indices. *)
Lemma number_indices n es :
  map Cue.index (Spec.number n es) =
  map (fun k => n + Z.of_nat k) (seq 0 (List.length es)).
Proof.
  revert n. induction es as [|[[s e] t] es IH]; intros n; [reflexivity|].
  cbn [Spec.number map List.length seq]. rewrite IH.
  rewrite Z.add_0_r. f_equal.
  rewrite <- seq_shift, map_map. apply map_ext. intros k. lia.
Qed.

End NumberFacts.

(** ** The whole-segment policy *)



(** ** The word-windowed policy *)

Module WindowFacts.
Import Py Run.





Lemma windows_nonempty A m (l : list A) :
  (0 < m)%nat ->
  Forall (fun w => (1 <= List.length w)%nat) (Spec.windows m l).
Proof.
  intros Hm. eapply Forall_impl; [|apply PyFacts.windows_upto_sizes; exact Hm].
  intros w Hw. apply Hw.
Qed.

End WindowFacts.


(** ** The windows of a word sequence *)

Module BoundsFacts.

(** The range of the window loop, the windows taken at its indices, and
    what they add up to. *)
Lemma slices_in_bounds (A : Type) (words : list A) (max_words : Z) :
  0 < max_words -> words <> [] ->
  exists r,
    Py.range 0 (Py.len words) max_words = Py.ok r
    /\ (forall i, In i r <-> 0 <= i < Py.len words /\ i mod max_words = 0)
    /\ (forall i, In i r ->
          let chunk := Py.slice words i (i + max_words) in
          chunk <> []
          /\ (exists first, Py.index chunk 0 = Py.ok first)
          /\ (exists last, Py.index chunk (-1) = Py.ok last))
    /\ List.concat (map (fun i => Py.slice words i (i + max_words)) r) = words.
Proof.
  intros Hm Hne.
  destruct (PyFacts.range_slices (Z.to_nat max_words) words ltac:(lia))
    as (r & Hr & Hw).
  rewrite Z2Nat.id in Hr, Hw by lia.
  exists r. split; [exact Hr|]. split; [|split].
  - unfold Py.range in Hr. destruct (Z.eqb_spec max_words 0); [lia|].
    injection Hr as <-. intros i. rewrite in_map_iff.
    assert (HL : 0 < Py.len words)
      by (unfold Py.len; destruct words; [congruence | simpl; lia]).
    unfold Py.range_len.
    destruct (Z.ltb_spec 0 max_words); [|lia].
    destruct (Z.ltb_spec 0 (Py.len words)); [|lia].
    rewrite Z.sub_0_r.
    assert (Hq : 0 <= (Py.len words - 1) / max_words)
      by (apply Z.div_pos; lia).
    pose proof (Z.mul_div_le (Py.len words - 1) max_words Hm) as Hle.
    split.
    + intros (k & <- & Hk). apply in_seq in Hk.
      split; [split; [nia|]|].
      * assert (Z.of_nat k <= (Py.len words - 1) / max_words) by lia. nia.
      * apply Z_mod_mult.
    + intros ((Hi0 & HiL) & Hmod).
      exists (Z.to_nat (i / max_words)).
      assert (Hdiv : 0 <= i / max_words) by (apply Z.div_pos; lia).
      assert (Hex : i = max_words * (i / max_words))
        by (apply Z_div_exact_full_2; lia).
      split; [rewrite Z2Nat.id by lia; lia|].
      apply in_seq. split; [lia|].
      assert (i / max_words <= (Py.len words - 1) / max_words)
        by (apply Z.div_le_mono; lia).
      lia.
  - intros i Hi chunk.
    assert (Hin : In chunk (Spec.windows (Z.to_nat max_words) words))
      by (rewrite <- Hw; apply in_map_iff; exists i; split; [reflexivity | exact Hi]).
    pose proof (WindowFacts.windows_nonempty A (Z.to_nat max_words) words
                  ltac:(lia)) as Hs.
    rewrite Forall_forall in Hs. specialize (Hs chunk Hin).
    destruct chunk as [|a l]; [simpl in Hs; lia|].
    split; [discriminate|]. split.
    + exists a. apply PyFacts.index_first.
    + exists (List.last (a :: l) a). apply PyFacts.index_last.
  - rewrite Hw. apply PyFacts.windows_concat. lia.
Qed.

End BoundsFacts.

(** ** No access out of range *)

Module SafetyFacts.
Import Py Run Transcribe Loop.

Lemma in_bounds_cast A B (e : exn) :
  Spec.in_bounds (@inl exn A e) -> Spec.in_bounds (@inl exn B e).
Proof.
  unfold Spec.in_bounds, raise. intros H H'. apply H.
  inversion H'. reflexivity.
Qed.

Lemma ok_in_bounds A (a : A) : Spec.in_bounds (ok a).
Proof. unfold Spec.in_bounds, ok, raise. discriminate. Qed.

Lemma rbind_in_bounds A B (m : result A) (k : A -> result B) :
  Spec.in_bounds m -> (forall a, Spec.in_bounds (k a)) ->
  Spec.in_bounds (rbind m k).
Proof.
  destruct m as [e|a]; cbn [rbind]; intros Hm Hk;
    [exact (in_bounds_cast _ _ e Hm) | apply Hk].
Qed.

Lemma float_of_int_in_bounds z : Spec.in_bounds (float_of_int z).
Proof.
  unfold float_of_int. cbv zeta. destruct (is_inf (of_Z z));
    [unfold Spec.in_bounds, raise; discriminate | apply ok_in_bounds].
Qed.

Lemma as_float_in_bounds a : Spec.in_bounds (as_float a).
Proof.
  destruct a; [apply float_of_int_in_bounds | apply ok_in_bounds].
Qed.

Lemma float_floordiv_in_bounds x y : Spec.in_bounds (float_floordiv x y).
Proof.
  unfold float_floordiv. destruct (nonzero y);
    [apply ok_in_bounds | unfold Spec.in_bounds, raise; discriminate].
Qed.

Lemma float_rem_in_bounds x y : Spec.in_bounds (float_rem x y).
Proof.
  unfold float_rem. destruct (nonzero y);
    [apply ok_in_bounds | unfold Spec.in_bounds, raise; discriminate].
Qed.

Lemma int_in_bounds a : Spec.in_bounds (int a).
Proof.
  destruct a as [z|x]; [apply ok_in_bounds|].
  destruct x; cbn [int int_of_float];
    first [apply ok_in_bounds | unfold Spec.in_bounds, raise; discriminate].
Qed.

Ltac in_bounds :=
  repeat first
    [ apply ok_in_bounds
    | apply as_float_in_bounds
    | apply float_floordiv_in_bounds
    | apply float_rem_in_bounds
    | apply int_in_bounds
    | apply rbind_in_bounds; [|intros ?] ].

Lemma floordiv_in_bounds a b : Spec.in_bounds (floordiv a b).
Proof.
  destruct a as [x|x], b as [y|y]; unfold floordiv; try solve [in_bounds].
  destruct (y =? 0);
    [unfold Spec.in_bounds, raise; discriminate | apply ok_in_bounds].
Qed.

Lemma rem_in_bounds a b : Spec.in_bounds (rem a b).
Proof.
  destruct a as [x|x], b as [y|y]; unfold rem; try solve [in_bounds].
  destruct (y =? 0);
    [unfold Spec.in_bounds, raise; discriminate | apply ok_in_bounds].
Qed.

Lemma sub_in_bounds a b : Spec.in_bounds (sub a b).
Proof. destruct a as [x|x], b as [y|y]; unfold sub; in_bounds. Qed.

Lemma mul_in_bounds a b : Spec.in_bounds (mul a b).
Proof. destruct a as [x|x], b as [y|y]; unfold mul; in_bounds. Qed.

(** The formatter raises on some times, but never an IndexError. *)
Lemma format_srt_time_in_bounds seconds :
  Spec.in_bounds (format_srt_time seconds).
Proof.
  unfold format_srt_time.
  repeat first
    [ apply ok_in_bounds
    | apply floordiv_in_bounds
    | apply rem_in_bounds
    | apply sub_in_bounds
    | apply mul_in_bounds
    | apply int_in_bounds
    | apply rbind_in_bounds; [|intros ?] ].
Qed.

Section Generic.
Variable E : Type.
Variable rep : string -> string -> E.

Lemma emit_in_bounds s e t st : Spec.in_bounds (fst (emit rep s e t st)).
Proof.
  pose proof (format_srt_time_in_bounds (Float s)) as Hs.
  pose proof (format_srt_time_in_bounds (Float e)) as He.
  unfold emit, bind, lift, get_caption_num, write, report, completed,
    set_caption_num.
  destruct (format_srt_time (Float s)) as [e1|ts];
    [|destruct (format_srt_time (Float e)) as [e2|te]];
    unfold ok; cbv beta iota; cbn [fst].
  - exact (in_bounds_cast _ _ e1 Hs).
  - exact (in_bounds_cast _ _ e2 He).
  - apply ok_in_bounds.
Qed.

Lemma for_each_in_bounds A (l : list A) (b : A -> M E unit) :
  (forall a, In a l -> forall st, Spec.in_bounds (fst (b a st))) ->
  forall st, Spec.in_bounds (fst (for_each l b st)).
Proof.
  induction l as [|a l IH]; intros Hb st; cbn [for_each].
  - apply ok_in_bounds.
  - unfold bind. pose proof (Hb a (or_introl eq_refl) st) as Ha.
    destruct (b a st) as [[e|[]] st']; cbn [fst] in *; [exact Ha|].
    apply IH. intros a' Hin. apply Hb. right. exact Hin.
Qed.

(** A window that is not empty is read at both ends. *)
Lemma window_in_bounds words max_words i st :
  slice words i (i + max_words) <> [] ->
  Spec.in_bounds (fst (window rep words max_words i st)).
Proof.
  intros Hne. unfold window.
  destruct (slice words i (i + max_words)) as [|first rest];
    [contradiction|].
  unfold bind at 1, lift at 1. rewrite PyFacts.index_first.
  unfold bind at 1, lift at 1. rewrite PyFacts.index_last.
  cbv beta iota. unfold ok at 1 2. apply emit_in_bounds.
Qed.

Lemma body_in_bounds max_words segment st :
  Spec.in_bounds (fst (body rep max_words segment st)).
Proof.
  assert (Hw : Spec.in_bounds (fst (whole rep segment st)))
    by (apply emit_in_bounds).
  unfold body. destruct max_words as [m|]; [|exact Hw].
  destruct (Segment.words segment) as [ws|]; [|exact Hw].
  destruct (truthy_int m && truthy_opt_list (Some ws)) eqn:Hg; [|exact Hw].
  apply andb_prop in Hg. destruct Hg as [Hm Hws].
  unfold truthy_int in Hm. apply negb_true_iff in Hm.
  apply Z.eqb_neq in Hm.
  assert (Hne : ws <> []) by (destruct ws; [discriminate Hws | discriminate]).
  unfold bind, lift.
  destruct (Z.lt_trichotomy m 0) as [Hneg|[H0|Hpos]]; [|contradiction|].
  - rewrite PyFacts.range_backward by (unfold len; lia).
    unfold ok. cbv beta iota. apply ok_in_bounds.
  - destruct (BoundsFacts.slices_in_bounds Word.t ws m Hpos Hne)
      as (r & Hr & _ & Hin & _).
    rewrite Hr. unfold ok. cbv beta iota.
    apply for_each_in_bounds. intros i Hi st'.
    apply window_in_bounds. exact (proj1 (Hin i Hi)).
Qed.

Lemma run_in_bounds segments max_words closing st :
  Spec.in_bounds
    (fst ((set_caption_num 1 ;; loop rep segments max_words ;;
           report closing) st)).
Proof.
  unfold bind at 1. unfold set_caption_num at 1. unfold bind, loop.
  pose proof (for_each_in_bounds _ segments (body rep max_words)
                (fun s _ st' => body_in_bounds max_words s st')
                (mk 1 (f st) (out st) (cues st))) as H.
  destruct (for_each segments (body rep max_words) _) as [[e|[]] st'];
    cbn [fst] in *; [exact H|].
  unfold report. cbn [fst]. apply ok_in_bounds.
Qed.

End Generic.

End SafetyFacts.

(** C10. For a positive [max_words] and a non-empty word sequence, the
    loop's range holds exactly the multiples of [max_words] below the
    length; the window taken at each of them is non-empty, so reading its
    first and its last element succeeds; and the windows, in order,
    concatenate to the word sequence. In the code the error branch is
    unreachable: whatever the segments, their times and [max_words], a run
    of either driver never ends in the IndexError of an access out of
    range (it may end in the formatter's exception for a time that is not
    finite). *)
Theorem window_never_empty :
  (forall (A : Type) (words : list A) (max_words : Z),
     0 < max_words -> words <> [] ->
     exists r,
       Py.range 0 (Py.len words) max_words = Py.ok r
       /\ (forall i, In i r <-> 0 <= i < Py.len words /\ i mod max_words = 0)
       /\ (forall i, In i r ->
             let chunk := Py.slice words i (i + max_words) in
             chunk <> []
             /\ (exists first, Py.index chunk 0 = Py.ok first)
             /\ (exists last, Py.index chunk (-1) = Py.ok last))
       /\ List.concat (map (fun i => Py.slice words i (i + max_words)) r)
          = words)
  /\ (forall (segments : list Segment.t) (path : string)
             (max_words : option Z),
        fst (Transcribe.transcribe_to_srt segments path max_words
               (Run.initial string))
        <> Py.raise Py.IndexError
        /\ fst (App.generate segments path max_words (Run.initial App.event))
           <> Py.raise Py.IndexError).
Proof.
  split; [exact BoundsFacts.slices_in_bounds|].
  intros segments path max_words.
  rewrite LoopFacts.transcribe_to_srt_loop, LoopFacts.generate_loop.
  split; apply SafetyFacts.run_in_bounds.
Qed.

Lemma window_never_empty_witness :
  0 < 2 /\ [1; 2; 3] <> []
  /\ exists r,
       Py.range 0 (Py.len [1; 2; 3]) 2 = Py.ok r
       /\ (forall i, In i r <-> 0 <= i < Py.len [1; 2; 3] /\ i mod 2 = 0)
       /\ (forall i, In i r ->
             let chunk := Py.slice [1; 2; 3] i (i + 2) in
             chunk <> []
             /\ (exists first, Py.index chunk 0 = Py.ok first)
             /\ (exists last, Py.index chunk (-1) = Py.ok last))
       /\ List.concat (map (fun i => Py.slice [1; 2; 3] i (i + 2)) r) = [1; 2; 3].
Proof.
  split; [reflexivity|]. split; [discriminate|].
  apply (proj1 window_never_empty Z [1; 2; 3] 2); [reflexivity | discriminate].
Defined.

(** ** One counter for the whole run *)

Module CounterFacts.
Import Py Run Transcribe Loop.

Section Generic.
Variable E : Type.
Variable rep : string -> string -> E.

Lemma continues_refl (st : state E) : Spec.continues st st.
Proof.
  exists []. simpl. unfold len. simpl. split; [now rewrite app_nil_r | lia].
Qed.

Lemma continues_trans (st1 st2 st3 : state E) :
  Spec.continues st1 st2 -> Spec.continues st2 st3 -> Spec.continues st1 st3.
Proof.
  intros (es1 & Hc1 & Hn1) (es2 & Hc2 & Hn2).
  exists (es1 ++ es2)%list. split.
  - rewrite Hc2, Hc1, Hn1, NumberFacts.number_app. now rewrite app_assoc.
  - rewrite Hn2, Hn1. unfold len. rewrite length_app. lia.
Qed.

(** A block either completes, and adds one cue under the current number,
    or stops at a time the formatter rejects, and adds none. *)
Lemma emit_continues s e t (st : state E) :
  Spec.continues st (snd (emit rep s e t st)).
Proof.
  unfold emit, bind, lift, get_caption_num, write, report, completed,
    set_caption_num.
  destruct (format_srt_time (Float s)) as [x|ts];
    [cbn [snd]; exists []; cbn; unfold len; cbn; split;
       [now rewrite app_nil_r | lia]|].
  destruct (format_srt_time (Float e)) as [x|te];
    [cbn [snd]; exists []; cbn; unfold len; cbn; split;
       [now rewrite app_nil_r | lia]|].
  cbn [snd]. exists [(s, e, t)]. cbn. unfold len. cbn. split; [reflexivity | lia].
Qed.

Lemma window_continues words max_words i (st : state E) :
  Spec.continues st (snd (window rep words max_words i st)).
Proof.
  unfold window, bind at 1, lift at 1.
  destruct (index (slice words i (i + max_words)) 0) as [x|first];
    [apply continues_refl|].
  unfold bind at 1, lift at 1.
  destruct (index (slice words i (i + max_words)) (-1)) as [x|last];
    [apply continues_refl|].
  apply emit_continues.
Qed.

Lemma for_each_continues A (body : A -> M E unit) (l : list A) :
  (forall a st, Spec.continues st (snd (body a st))) ->
  forall st, Spec.continues st (snd (for_each l body st)).
Proof.
  intros Hb. induction l as [|a l IH]; intros st.
  - apply continues_refl.
  - cbn [for_each]. unfold bind. specialize (Hb a st).
    destruct (body a st) as [[x|[]] st']; cbn [snd] in *; [exact Hb|].
    eapply continues_trans; [exact Hb | apply IH].
Qed.

Lemma body_continues max_words segment (st : state E) :
  Spec.continues st (snd (body rep max_words segment st)).
Proof.
  unfold body.
  destruct max_words as [m|]; [|apply emit_continues].
  destruct (Segment.words segment) as [ws|]; [|apply emit_continues].
  destruct (truthy_int m && truthy_opt_list (Some ws)); [|apply emit_continues].
  unfold bind, lift.
  destruct (range 0 (len ws) m) as [x|r]; [apply continues_refl|].
  apply for_each_continues. intros i st'. apply window_continues.
Qed.

Lemma run_continues max_words segments (closing : E) :
  let st := snd ((set_caption_num 1 ;; loop rep segments max_words ;;
                  report closing) (initial E)) in
  exists es, cues st = Spec.number 1 es /\ caption_num st = 1 + len es.
Proof.
  intros st. subst st.
  pose proof (for_each_continues _ (body rep max_words) segments
                (body_continues max_words) (mk 1 "" [] [])) as (es & Hc & Hn).
  exists es.
  unfold bind, set_caption_num, report, loop, initial, ok.
  cbn [caption_num f out cues].
  destruct (for_each segments (body rep max_words) (mk 1 "" [] []))
    as [[x|[]] st']; cbn [snd cues caption_num app] in *; split; assumption.
Qed.

(** The indices so far are 1, ..., K and the counter stands at K + 1. *)
Lemma run_indices max_words segments (closing : E) :
  let st := snd ((set_caption_num 1 ;; loop rep segments max_words ;;
                  report closing) (initial E)) in
  map Cue.index (cues st) = map Z.of_nat (seq 1 (List.length (cues st)))
  /\ caption_num st = Z.of_nat (List.length (cues st)) + 1.
Proof.
  intros st. destruct (run_continues max_words segments closing)
    as (es & Hc & Hn).
  fold st in Hc, Hn.
  rewrite Hc, Hn, NumberFacts.number_indices, NumberFacts.number_length.
  split; [|unfold len; lia].
  rewrite <- seq_shift, map_map. apply map_ext. intros k. lia.
Qed.

End Generic.

End CounterFacts.

(** C4. Whatever the segments and whatever [max_words] (absent, positive
    or not), and whether the run completes or stops at a rejected time, the
    indices of the cues emitted so far are 1, 2, ..., K in this order, K
    being their number, and the counter stands at K + 1: it starts at 1 and
    moves by one after each cue, under either policy. This holds for the
    command-line run and for the web service alike. *)
Theorem index_contiguity (segments : list Segment.t) (max_words : option Z)
    (path : string) :
  let st := snd (Transcribe.transcribe_to_srt segments path max_words
                   (Run.initial string)) in
  let st' := snd (App.generate segments path max_words
                    (Run.initial App.event)) in
  (map Cue.index (Run.cues st)
   = map Z.of_nat (seq 1 (List.length (Run.cues st)))
   /\ Run.caption_num st = Z.of_nat (List.length (Run.cues st)) + 1)
  /\ (map Cue.index (Run.cues st')
      = map Z.of_nat (seq 1 (List.length (Run.cues st')))
      /\ Run.caption_num st' = Z.of_nat (List.length (Run.cues st')) + 1).
Proof.
  intros st st'. subst st st'.
  rewrite LoopFacts.transcribe_to_srt_loop, LoopFacts.generate_loop.
  split; apply CounterFacts.run_indices.
Qed.

(** ** Which policy a segment gets *)






(** ** Colours for the encoder *)

(** C8. For six hexadecimal digits RRGGBB, with or without a leading [#],
    [hex_to_ass] returns [&H] followed by the blue pair, the green pair and
    the red pair. *)
Theorem hex_to_ass_reorders (r1 r2 g1 g2 b1 b2 : ascii) :
  forallb Py.is_hex_digit [r1; r2; g1; g2; b1; b2] = true ->
  let rrggbb := string_of_list_ascii [r1; r2; g1; g2; b1; b2] in
  let bbggrr := string_of_list_ascii [b1; b2; g1; g2; r1; r2] in
  App.hex_to_ass rrggbb = ("&H" ++ bbggrr)%string
  /\ App.hex_to_ass ("#" ++ rrggbb) = ("&H" ++ bbggrr)%string.
Proof.
  intros H rrggbb bbggrr.
  assert (Hr1 : Ascii.eqb r1 "#" = false).
  { cbn [forallb] in H. apply andb_prop in H. destruct H as [H _].
    destruct (Ascii.eqb_spec r1 "#") as [->|]; [discriminate H | reflexivity]. }
  assert (Hs : Py.lstrip_char "#" rrggbb = rrggbb)
    by (subst rrggbb; cbn [string_of_list_ascii Py.lstrip_char];
        now rewrite Hr1).
  split.
  - unfold App.hex_to_ass. rewrite Hs. reflexivity.
  - unfold App.hex_to_ass. cbn [append Py.lstrip_char].
    change (Ascii.eqb "#" "#") with true. cbv iota.
    rewrite Hs. reflexivity.
Qed.

Lemma hex_to_ass_reorders_witness :
  forallb Py.is_hex_digit ["F"; "f"; "8"; "0"; "0"; "A"]%char = true
  /\ App.hex_to_ass "#Ff800A" = "&H0A80Ff".
Proof.
  split; [reflexivity|].
  exact (proj2 (hex_to_ass_reorders "F" "f" "8" "0" "0" "A" eq_refl)).
Defined.

(** ** Cues follow the input's order in time *)

Module OrderFacts.
Import Py Run.

Lemma fleb_trans (a b c : float) :
  fleb a b = true -> fleb b c = true -> fleb a c = true.
Proof.
  unfold fleb, SFleb.
  destruct a as [sa|sa| |sa ma ea], b as [sb|sb| |sb mb eb],
           c as [sc|sc| |sc mc ec];
    try destruct sa; try destruct sb; try destruct sc;
    cbn [SFcompare]; try reflexivity; try discriminate;
    change (Pos.compare_cont Eq) with Pos.compare;
    repeat match goal with
    | |- context [Z.compare ?x ?y] =>
        destruct (Z.compare_spec x y); subst
    | |- context [Pos.compare ?x ?y] =>
        destruct (Pos.compare_spec x y); subst
    end;
    cbn [CompOpp]; try reflexivity; try discriminate; try lia.
Qed.

#[local] Instance no_later_trans : Transitive Spec.no_later.
Proof. intros a b c. apply fleb_trans. Qed.

Section Sublists.
Context {A : Type}.
Implicit Types l : list A.

Lemma sublist_refl l : Spec.sublist l l.
Proof. induction l; constructor; assumption. Qed.

Lemma sublist_nil_l l : Spec.sublist [] l.
Proof. induction l; constructor; assumption. Qed.

Lemma sublist_app l1 l2 k1 k2 :
  Spec.sublist l1 k1 -> Spec.sublist l2 k2 ->
  Spec.sublist (l1 ++ l2) (k1 ++ k2).
Proof.
  intros H1 H2. induction H1; simpl; try constructor; assumption.
Qed.

Lemma sublist_skipn n l : Spec.sublist (skipn n l) l.
Proof.
  revert l. induction n as [|n IH]; intros l; [apply sublist_refl|].
  destruct l as [|a l]; [constructor|]. simpl. constructor. apply IH.
Qed.

Lemma sublist_trans l1 l2 l3 :
  Spec.sublist l1 l2 -> Spec.sublist l2 l3 -> Spec.sublist l1 l3.
Proof.
  intros H12 H23. revert l1 H12.
  induction H23 as [|a l2 l3 H23 IH|a l2 l3 H23 IH]; intros l1 H12.
  - exact H12.
  - constructor. apply IH. exact H12.
  - inversion H12; subst; constructor; apply IH; assumption.
Qed.

Lemma sublist_Forall (P : A -> Prop) l1 l2 :
  Spec.sublist l1 l2 -> Forall P l2 -> Forall P l1.
Proof.
  induction 1 as [|a l1 l2 H IH|a l1 l2 H IH]; intros HF.
  - constructor.
  - inversion HF; subst. apply IH. assumption.
  - inversion HF; subst. constructor; [assumption | apply IH; assumption].
Qed.

Lemma sublist_StronglySorted (R : A -> A -> Prop) l1 l2 :
  Spec.sublist l1 l2 -> StronglySorted R l2 -> StronglySorted R l1.
Proof.
  induction 1 as [|a l1 l2 H IH|a l1 l2 H IH]; intros HS.
  - constructor.
  - inversion HS; subst. apply IH. assumption.
  - inversion HS; subst. constructor; [apply IH; assumption|].
    eapply sublist_Forall; eassumption.
Qed.

End Sublists.

Lemma sublist_map A B (g : A -> B) (l1 l2 : list A) :
  Spec.sublist l1 l2 -> Spec.sublist (map g l1) (map g l2).
Proof. induction 1; simpl; constructor; assumption. Qed.

(** The starts of the window cues are starts of words, in word order. *)
Lemma window_starts_sublist fuel m (l : list Word.t) :
  Spec.sublist
    (map Spec.entry_start (flat_map Spec.window_entry (Spec.windows_upto fuel m l)))
    (map Word.start l).
Proof.
  revert l. induction fuel as [|fuel IH]; intros l.
  - destruct l; apply sublist_nil_l.
  - destruct l as [|a l]; [constructor|].
    cbn [Spec.windows_upto flat_map]. rewrite map_app.
    destruct m as [|m].
    + cbn [firstn Spec.window_entry map app skipn]. apply IH.
    + cbn [firstn Spec.window_entry map app skipn Spec.entry_start fst].
      apply Spec.sublist_keep.
      eapply sublist_trans; [apply IH|].
      apply sublist_map, sublist_skipn.
Qed.

Lemma entries_starts_sublist max_words segments :
  Spec.sublist
    (map Spec.entry_start (flat_map (Spec.segment_entries max_words) segments))
    (Spec.timeline segments).
Proof.
  induction segments as [|s l IH]; [constructor|].
  unfold Spec.timeline. cbn [flat_map]. rewrite map_app.
  change (?a :: ?x ++ ?y)%list with ((a :: x) ++ y)%list.
  apply sublist_app; [|exact IH].
  assert (Hwhole : Spec.sublist (map Spec.entry_start [Spec.whole_entry s])
            (Segment.start s ::
             match Segment.words s with
             | Some ws => map Word.start ws
             | None => []
             end)).
  { cbn. apply Spec.sublist_keep. apply sublist_nil_l. }
  unfold Spec.segment_entries.
  destruct max_words as [m|]; [|exact Hwhole].
  destruct (Segment.words s) as [[|w ws]|] eqn:Hw;
    try (first [exact Hwhole | rewrite Hw in Hwhole; exact Hwhole]).
  destruct (m =? 0); [exact Hwhole|].
  destruct (0 <? m); [|apply sublist_nil_l].
  apply Spec.sublist_skip. apply window_starts_sublist.
Qed.

Lemma number_starts n es :
  map Cue.start (Spec.number n es) = map Spec.entry_start es.
Proof.
  revert n. induction es as [|[[s e] t] es IH]; intros n; [reflexivity|].
  cbn [Spec.number map]. now rewrite IH.
Qed.

End OrderFacts.

(** C6, as stated, fails. Two segments in non-decreasing order of start
    (0.0 and 5.0), the first one carrying two words in chronological order
    that lie inside it (at 0.0 and at 8.0), the second one starting before
    the first one ends: with [max_words = 1] the cues start at 0.0, 8.0
    and 5.0. *)
Lemma temporal_ordering_counterexample :
  let s1 :=
    Segment.make (Py.dec 0 1) (Py.dec 100 1) " one two"
      (Some [Word.make (Py.dec 0 1) (Py.dec 10 1) " one";
             Word.make (Py.dec 80 1) (Py.dec 90 1) " two"]) in
  let s2 := Segment.make (Py.dec 50 1) (Py.dec 120 1) " three" None in
  let run := Transcribe.transcribe_to_srt [s1; s2] "a.srt" (Some 1)
               (Run.initial string) in
  Sorted Spec.no_later (map Segment.start [s1; s2])
  /\ (forall s ws, In s [s1; s2] -> Segment.words s = Some ws ->
        Sorted Spec.no_later (map Word.start ws))
  /\ fst run = Py.ok tt
  /\ map Cue.start (Run.cues (snd run))
     = [Py.dec 0 1; Py.dec 80 1; Py.dec 50 1]
  /\ ~ Sorted Spec.no_later (map Cue.start (Run.cues (snd run))).
Proof.
  intros s1 s2 run.
  split; [repeat constructor|].
  split.
  { intros s ws [<-|[<-|[]]] Hw; [|discriminate Hw].
    injection Hw as <-. repeat constructor. }
  split; [reflexivity|].
  split; [vm_compute; reflexivity|].
  intros H. change (map Cue.start (Run.cues (snd run)))
    with [Py.dec 0 1; Py.dec 80 1; Py.dec 50 1] in H.
  inversion H as [|a l Hl Hd]; subst.
  inversion Hl as [|a' l' Hl' Hd']; subst.
  inversion Hd' as [|b l'' Hb]; subst.
  vm_compute in Hb. discriminate Hb.
Qed.

(** C6, amended. When the formatter accepts every time and the input's
    timeline (the start of each segment, then the starts of its words,
    segment after segment) is non-decreasing, the start times of the cues
    of a run are non-decreasing, whatever [max_words]. *)
Theorem temporal_ordering (segments : list Segment.t) (output_path : string)
    (max_words : option Z) :
  Forall (fun s => Spec.segment_formats s = true) segments ->
  Sorted Spec.no_later (Spec.timeline segments) ->
  let run := Transcribe.transcribe_to_srt segments output_path max_words
               (Run.initial string) in
  fst run = Py.ok tt
  /\ Sorted Spec.no_later (map Cue.start (Run.cues (snd run))).
Proof.
  intros Hf Hs run. subst run.
  destruct (LoopFacts.transcribe_to_srt_ok segments output_path max_words Hf)
    as [Hr Hc].
  split; [exact Hr|]. rewrite Hc. unfold Spec.expected.
  rewrite OrderFacts.number_starts.
  apply StronglySorted_Sorted.
  eapply OrderFacts.sublist_StronglySorted.
  - apply OrderFacts.entries_starts_sublist.
  - apply Sorted_StronglySorted; [exact OrderFacts.no_later_trans | exact Hs].
Qed.

Lemma temporal_ordering_witness :
  let s1 :=
    Segment.make (Py.dec 0 1) (Py.dec 100 1) " one two"
      (Some [Word.make (Py.dec 0 1) (Py.dec 10 1) " one";
             Word.make (Py.dec 80 1) (Py.dec 90 1) " two"]) in
  let s2 := Segment.make (Py.dec 100 1) (Py.dec 120 1) " three" None in
  Forall (fun s => Spec.segment_formats s = true) [s1; s2]
  /\ Sorted Spec.no_later (Spec.timeline [s1; s2])
  /\ Sorted Spec.no_later
       (map Cue.start
          (Run.cues (snd (Transcribe.transcribe_to_srt [s1; s2] "a.srt"
                            (Some 1) (Run.initial string))))).
Proof.
  intros s1 s2.
  assert (Hf : Forall (fun s => Spec.segment_formats s = true) [s1; s2])
    by (apply Forall_forall, forallb_forall; vm_compute; reflexivity).
  assert (Hs : Sorted Spec.no_later (Spec.timeline [s1; s2]))
    by (repeat constructor).
  split; [exact Hf|]. split; [exact Hs|].
  exact (proj2 (temporal_ordering [s1; s2] "a.srt" (Some 1) Hf Hs)).
Defined.

(** ** Reading the subtitle file back *)

Module ReaderFacts.
Import Py Transcribe.

Lemma split_at_app c a b :
  Spec.avoids c a = true ->
  Reader.split_at c (a ++ String c b) = Some (a, b).
Proof.
  induction a as [|x a IH]; intros H; cbn [append Reader.split_at].
  - now rewrite Ascii.eqb_refl.
  - cbn [Spec.avoids] in H. apply andb_prop in H. destruct H as [Hx Ha].
    apply negb_true_iff in Hx. rewrite Hx, (IH Ha). reflexivity.
Qed.

Lemma numeric_app a b :
  Spec.numeric (a ++ b) = Spec.numeric a && Spec.numeric b.
Proof.
  induction a as [|x a IH]; [reflexivity|].
  cbn [append Spec.numeric]. now rewrite IH, andb_assoc.
Qed.

Lemma numeric_zeros n : Spec.numeric (zeros n) = true.
Proof. induction n as [|n IH]; [reflexivity | exact IH]. Qed.

Lemma numeric_uint d : Spec.numeric (NilEmpty.string_of_uint d) = true.
Proof. induction d; [reflexivity | exact IHd ..]. Qed.

Lemma numeric_str_int z : Spec.numeric (str_int z) = true.
Proof.
  unfold str_int, NilZero.string_of_int, NilZero.string_of_uint.
  destruct (Z.to_int z) as [d|d]; destruct d; try reflexivity;
    apply (numeric_uint (_ _)) || (cbn [Spec.numeric]; apply (numeric_uint (_ _))).
Qed.

Lemma numeric_format_int w z : Spec.numeric (format_int w z) = true.
Proof.
  unfold format_int. destruct (z <? 0).
  - change ("-" ++ ?s)%string with (String "-" s). cbn [Spec.numeric].
    rewrite numeric_app, numeric_zeros, numeric_str_int. reflexivity.
  - rewrite numeric_app, numeric_zeros, numeric_str_int. reflexivity.
Qed.

(** A number has no colon, comma, space or line feed in it. *)
Lemma numeric_avoids c s :
  Ascii.eqb c "-" = false ->
  ((48 <=? N_of_ascii c) && (N_of_ascii c <=? 57))%N = false ->
  Spec.numeric s = true -> Spec.avoids c s = true.
Proof.
  intros Hm Hd. induction s as [|a s IH]; intros H; [reflexivity|].
  cbn [Spec.numeric Spec.avoids] in *.
  apply andb_prop in H. destruct H as [Ha Hs].
  rewrite (IH Hs), andb_true_r.
  apply negb_true_iff. destruct (Ascii.eqb_spec a c) as [->|]; [|reflexivity].
  rewrite Hm, Hd in Ha. discriminate Ha.
Qed.

(** *** Integers print and parse back *)

Lemma uint_of_zeros k u :
  NilEmpty.uint_of_string (zeros k ++ NilEmpty.string_of_uint u)
  = Some (Nat.iter k Decimal.D0 u).
Proof.
  induction k as [|k IH]; [apply NilEmpty.usu|].
  cbn [zeros append NilEmpty.uint_of_string Nat.iter]. rewrite IH. reflexivity.
Qed.

Lemma of_uint_zeros k u :
  Z.of_uint (Nat.iter k Decimal.D0 u) = Z.of_uint u.
Proof. induction k as [|k IH]; [reflexivity | exact IH]. Qed.

Lemma str_int_nonneg z :
  0 <= z ->
  exists u, u <> Decimal.Nil /\ str_int z = NilEmpty.string_of_uint u
            /\ Z.of_uint u = z.
Proof.
  intros Hz. unfold str_int. destruct z as [|p|p]; [| |lia].
  - exists (Decimal.D0 Decimal.Nil). repeat split. discriminate.
  - exists (Pos.to_uint p). split; [apply DecimalPos.Unsigned.to_uint_nonnil|].
    split.
    + cbn [Z.to_int NilZero.string_of_int]. unfold NilZero.string_of_uint.
      pose proof (DecimalPos.Unsigned.to_uint_nonnil p) as Hn.
      destruct (Pos.to_uint p); [congruence | reflexivity ..].
    + unfold Z.of_uint. now rewrite DecimalPos.Unsigned.of_to.
Qed.

Lemma string_of_uint_nonempty u :
  u <> Decimal.Nil -> NilEmpty.string_of_uint u <> EmptyString.
Proof. destruct u; [congruence | discriminate ..]. Qed.

Lemma string_of_uint_head u a s :
  NilEmpty.string_of_uint u = String a s -> Ascii.eqb a "-" = false.
Proof. destruct u; intros [= <- _]; reflexivity. Qed.

Lemma parse_padded k z :
  0 <= z -> Reader.parse_int (zeros k ++ str_int z) = Some z.
Proof.
  intros Hz. destruct (str_int_nonneg z Hz) as (u & Hu & -> & <-).
  unfold Reader.parse_int, NilZero.int_of_string.
  destruct (zeros k ++ NilEmpty.string_of_uint u)%string as [|a s] eqn:Hs.
  - destruct k; [|discriminate Hs]. cbn [zeros append] in Hs.
    now apply string_of_uint_nonempty in Hs.
  - assert (Ha : Ascii.eqb a "-" = false).
    { destruct k; cbn [zeros append] in Hs.
      - eapply string_of_uint_head; exact Hs.
      - injection Hs as <- _. reflexivity. }
    rewrite Ha. unfold NilZero.uint_of_string. rewrite <- Hs, uint_of_zeros.
    cbn [option_map Z.of_int]. now rewrite of_uint_zeros.
Qed.

Lemma parse_format_int w z : Reader.parse_int (format_int w z) = Some z.
Proof.
  unfold format_int. destruct (Z.ltb_spec z 0) as [Hneg|Hpos].
  - destruct (str_int_nonneg (Z.abs z) (Z.abs_nonneg z)) as (u & Hu & -> & Hz).
    unfold Reader.parse_int.
    change ("-" ++ ?s)%string with (String "-" s).
    cbn [NilZero.int_of_string]. change (Ascii.eqb "-" "-") with true.
    cbv iota. unfold NilZero.uint_of_string.
    destruct (zeros (w - 1 - String.length (NilEmpty.string_of_uint u))
              ++ NilEmpty.string_of_uint u)%string as [|a s] eqn:Hs.
    + destruct (w - 1 - String.length (NilEmpty.string_of_uint u))%nat;
        [|discriminate Hs].
      cbn [zeros append] in Hs. now apply string_of_uint_nonempty in Hs.
    + rewrite <- Hs, uint_of_zeros. cbn [option_map Z.of_int].
      rewrite of_uint_zeros, Hz. f_equal. lia.
  - rewrite Z.abs_eq by lia. apply parse_padded. exact Hpos.
Qed.

Lemma parse_str_int z : Reader.parse_int (str_int z) = Some z.
Proof.
  unfold Reader.parse_int, str_int.
  rewrite NilZero.isi.
  - cbn [option_map]. now rewrite DecimalZ.of_to.
  - destruct z; cbn; try discriminate. intros [= H].
    now apply DecimalPos.Unsigned.to_uint_nonnil in H.
  - destruct z; cbn; try discriminate. intros [= H].
    now apply DecimalPos.Unsigned.to_uint_nonnil in H.
Qed.

(** *** Timestamps print and parse back *)

Lemma format_srt_time_fields x :
  format_srt_time x = (let? fields := Spec.time_fields x in ok (Spec.render fields)).
Proof.
  unfold format_srt_time, Spec.time_fields.
  repeat match goal with
  | |- context [rbind ?m _] =>
      match m with
      | rbind _ _ => fail 1
      | _ => destruct m as [?|?]; cbn [rbind]; try reflexivity
      end
  end.
Qed.

Lemma avoids_app c a b :
  Spec.avoids c (a ++ b) = Spec.avoids c a && Spec.avoids c b.
Proof.
  induction a as [|x a IH]; [reflexivity|].
  cbn [append Spec.avoids]. now rewrite IH, andb_assoc.
Qed.

Lemma avoids_render c fields :
  Ascii.eqb c "-" = false ->
  ((48 <=? N_of_ascii c) && (N_of_ascii c <=? 57))%N = false ->
  Ascii.eqb ":" c = false -> Ascii.eqb "," c = false ->
  Spec.avoids c (Spec.render fields) = true.
Proof.
  intros Hm Hd Hc Hk. destruct fields as [[[h m] s] ms]. unfold Spec.render.
  rewrite !avoids_app. cbn [Spec.avoids]. rewrite Hc, Hk.
  rewrite !(numeric_avoids c _ Hm Hd (numeric_format_int _ _)). reflexivity.
Qed.

Lemma parse_stamp_render fields :
  Reader.parse_stamp (Spec.render fields) = Some (Spec.fields_ms fields).
Proof.
  destruct fields as [[[h m] s] ms]. unfold Spec.render, Reader.parse_stamp.
  cbn [append].
  rewrite split_at_app
    by (apply numeric_avoids; [reflexivity .. | apply numeric_format_int]).
  cbv beta iota.
  rewrite split_at_app
    by (apply numeric_avoids; [reflexivity .. | apply numeric_format_int]).
  cbv beta iota.
  rewrite split_at_app
    by (apply numeric_avoids; [reflexivity .. | apply numeric_format_int]).
  cbv beta iota.
  rewrite !parse_format_int. reflexivity.
Qed.

Lemma stamp_render t :
  Spec.formats t = true ->
  exists fields,
    Spec.stamp t = Spec.render fields
    /\ Spec.printed_ms t = Spec.fields_ms fields.
Proof.
  unfold Spec.formats, Spec.printed_ms, Spec.stamp.
  rewrite format_srt_time_fields.
  destruct (Spec.time_fields (Float t)) as [e|fields]; cbn [rbind];
    [discriminate|].
  intros _. exists fields. split; [reflexivity|].
  unfold ok. now rewrite parse_stamp_render.
Qed.

Lemma parse_times_line a b :
  Spec.formats a = true -> Spec.formats b = true ->
  Reader.parse_times (Spec.stamp a ++ " --> " ++ Spec.stamp b)
  = Some (Spec.printed_ms a, Spec.printed_ms b).
Proof.
  intros Ha Hb.
  destruct (stamp_render a Ha) as (fa & -> & ->).
  destruct (stamp_render b Hb) as (fb & -> & ->).
  unfold Reader.parse_times.
  change (" --> " ++ Spec.render fb)%string
    with (String " " ("--> " ++ Spec.render fb)).
  rewrite split_at_app by (apply avoids_render; reflexivity).
  cbv beta iota. cbn [append Reader.strip_prefix].
  change (Ascii.eqb "-" "-") with true. change (Ascii.eqb ">" ">") with true.
  change (Ascii.eqb " " " ") with true. cbv iota.
  rewrite !parse_stamp_render. reflexivity.
Qed.

(** *** Blocks *)

Lemma read_block_ok c rest :
  Spec.readable c = true ->
  Reader.read_block (Spec.srt_block c ++ rest) = Some (Spec.read_back c, rest).
Proof.
  unfold Spec.readable. intros H.
  apply andb_prop in H. destruct H as [H Ht].
  apply andb_prop in H. destruct H as [Ha Hb].
  unfold Spec.srt_block, nl.
  repeat first [rewrite PyFacts.append_assoc | progress cbn [append]].
  set (line := (Spec.stamp (Cue.start c) ++ " --> " ++ Spec.stamp (Cue.end_ c))%string).
  assert (Hline : (Spec.stamp (Cue.start c) ++
                   String " " (String "-" (String "-" (String ">" (String " "
                     (Spec.stamp (Cue.end_ c) ++
                      String LF (Cue.text c ++ String LF (String LF rest))))))))%string
                  = (line ++ String LF (Cue.text c ++ String LF (String LF rest)))%string).
  { subst line.
    repeat first [rewrite PyFacts.append_assoc | progress cbn [append]].
    reflexivity. }
  rewrite Hline. clear Hline.
  assert (Hl : Spec.avoids LF line = true).
  { subst line. destruct (stamp_render _ Ha) as (fa & -> & _).
    destruct (stamp_render _ Hb) as (fb & -> & _).
    rewrite !avoids_app, !avoids_render by reflexivity. reflexivity. }
  unfold Reader.read_block.
  rewrite split_at_app
    by (apply numeric_avoids; [reflexivity .. | apply numeric_str_int]).
  cbv beta iota.
  rewrite split_at_app by exact Hl.
  cbv beta iota.
  rewrite split_at_app by exact Ht.
  cbv beta iota.
  cbn [Reader.split_at]. rewrite Ascii.eqb_refl.
  rewrite parse_str_int. subst line. rewrite parse_times_line by assumption.
  reflexivity.
Qed.

Lemma srt_file_cons c cs :
  Spec.srt_file (c :: cs) = (Spec.srt_block c ++ Spec.srt_file cs)%string.
Proof.
  unfold Spec.srt_file. cbn [map String.concat].
  destruct (map Spec.srt_block cs); [now rewrite PyFacts.append_nil_r | reflexivity].
Qed.

Lemma read_blocks_ok fuel cs :
  Forall (fun c => Spec.readable c = true) cs ->
  (List.length cs <= fuel)%nat ->
  Reader.read_blocks fuel (Spec.srt_file cs) = Some (map Spec.read_back cs).
Proof.
  intros Hr. revert fuel. induction Hr as [|c cs Hc Hr IH]; intros fuel Hfuel.
  - destruct fuel; reflexivity.
  - destruct fuel as [|fuel]; [simpl in Hfuel; lia|].
    rewrite srt_file_cons.
    pose proof (read_block_ok c (Spec.srt_file cs) Hc) as Hb.
    destruct (Spec.srt_block c ++ Spec.srt_file cs)%string as [|a s] eqn:Hs;
      [discriminate Hb|].
    cbn [Reader.read_blocks]. rewrite Hb, IH by (simpl in Hfuel; lia).
    reflexivity.
Qed.

Lemma length_append a b :
  String.length (a ++ b) = (String.length a + String.length b)%nat.
Proof. induction a as [|x a IH]; simpl; [reflexivity | now rewrite IH]. Qed.

Lemma srt_file_length cs :
  (List.length cs <= String.length (Spec.srt_file cs))%nat.
Proof.
  induction cs as [|c cs IH]; [simpl; lia|].
  rewrite srt_file_cons, length_append. unfold Spec.srt_block.
  rewrite !length_append. unfold nl. simpl String.length. simpl List.length. lia.
Qed.

Lemma read_srt_ok cs :
  Forall (fun c => Spec.readable c = true) cs ->
  Reader.read_srt (Spec.srt_file cs) = Some (map Spec.read_back cs).
Proof.
  intros H. apply read_blocks_ok; [exact H | apply srt_file_length].
Qed.

End ReaderFacts.

Module RoundTripFacts.
Import Py Run.

Lemma numbered_formats n es :
  Forall (fun en => Spec.entry_formats en = true) es ->
  Forall (fun c => Spec.formats (Cue.start c) && Spec.formats (Cue.end_ c) = true)
         (Spec.number n es).
Proof.
  intros H. revert n. induction H as [|[[s e] t] es Hen H IH]; intros n.
  - constructor.
  - cbn [Spec.number]. constructor; [exact Hen | apply IH].
Qed.

End RoundTripFacts.

(** ** binary64 arithmetic that is exact *)

Module FloatFacts.
Import Py.

Lemma fexp_eq z : fexp prec emax z = Z.max (z - 53) (-1074).
Proof. reflexivity. Qed.

Lemma iter_pos_nat A (g : A -> A) p x :
  iter_pos g p x = Nat.iter (Pos.to_nat p) g x.
Proof.
  revert x. induction p as [p IH|p IH|]; intros x; cbn [iter_pos].
  - rewrite !IH, Pos2Nat.inj_xI.
    replace (S (2 * Pos.to_nat p)) with (S (Pos.to_nat p + Pos.to_nat p)) by lia.
    now rewrite Nat.iter_succ_r, Nat.iter_add.
  - rewrite !IH, Pos2Nat.inj_xO.
    replace (2 * Pos.to_nat p)%nat with (Pos.to_nat p + Pos.to_nat p)%nat by lia.
    now rewrite Nat.iter_add.
  - reflexivity.
Qed.

(** Shifting out zero bits loses nothing. *)
Lemma shr_exact k m :
  0 < m -> (2 ^ Z.of_nat k | m) ->
  Nat.iter k shr_1 (Build_shr_record m false false)
  = Build_shr_record (m / 2 ^ Z.of_nat k) false false.
Proof.
  intros Hm. induction k as [|k IH]; intros Hd.
  - cbn. now rewrite Z.div_1_r.
  - rewrite Nat.iter_succ.
    replace (Z.of_nat (S k)) with (Z.of_nat k + 1) in * by lia.
    rewrite Z.pow_add_r in * by lia. change (2 ^ 1) with 2 in *.
    destruct Hd as [c Hc].
    rewrite IH by (exists (c * 2); lia).
    assert (Hk : 0 < 2 ^ Z.of_nat k) by (apply Z.pow_pos_nonneg; lia).
    replace (m / 2 ^ Z.of_nat k) with (2 * c)
      by (subst m; replace (c * (2 ^ Z.of_nat k * 2)) with (2 * c * 2 ^ Z.of_nat k) by lia;
          now rewrite Z.div_mul by lia).
    replace (m / (2 ^ Z.of_nat k * 2)) with c
      by (subst m; replace (c * (2 ^ Z.of_nat k * 2)) with (c * (2 ^ Z.of_nat k * 2)) by lia;
          now rewrite Z.div_mul by lia).
    assert (0 < c) by nia.
    destruct c as [|c|c]; try lia. reflexivity.
Qed.

Lemma digits2_size p : digits2_pos p = Pos.size p.
Proof. induction p; cbn; congruence. Qed.

Lemma digits_log2 m : 0 < m -> Zdigits2 m = Z.log2 m + 1.
Proof.
  destruct m as [|p|p]; try lia. intros _. cbn [Zdigits2].
  rewrite digits2_size. destruct p; cbn [Z.log2 Pos.size]; lia.
Qed.

Lemma digits_shift m j :
  0 < m -> 0 <= j -> Zdigits2 (m * 2 ^ j) = Zdigits2 m + j.
Proof.
  intros Hm Hj.
  assert (0 < 2 ^ j) by (apply Z.pow_pos_nonneg; lia).
  rewrite !digits_log2 by nia. rewrite Z.log2_mul_pow2 by lia. lia.
Qed.

Lemma digits_bound m d :
  0 < m -> 0 <= d -> (m < 2 ^ d <-> Zdigits2 m <= d).
Proof.
  intros Hm Hd. rewrite digits_log2 by exact Hm.
  rewrite Z.log2_lt_pow2 by exact Hm. lia.
Qed.

Lemma pos_iter_xO d n : Z.pos (Pos.iter xO n d) = Z.pos n * 2 ^ Z.pos d.
Proof.
  induction d as [|d IH] using Pos.peano_ind.
  - cbn [Pos.iter]. lia.
  - rewrite Pos.iter_succ, Pos2Z.inj_succ, Z.pow_succ_r by lia.
    rewrite Pos2Z.inj_xO, IH. lia.
Qed.

(** Rounding a mantissa that ends in [j] zero bits, whose other bits fit
    the format, is exact. *)
Lemma round_aux_exact s (m : positive) e j :
  0 <= j -> (2 ^ j | Z.pos m) ->
  fexp prec emax (Zdigits2 (Z.pos m / 2 ^ j) + (e + j)) = e + j ->
  e + j <= emax - prec ->
  binary_round_aux prec emax s (Z.pos m) e loc_Exact
  = S754_finite s (Z.to_pos (Z.pos m / 2 ^ j)) (e + j).
Proof.
  intros Hj Hd Hc Hb.
  assert (Hp : 0 < 2 ^ j) by (apply Z.pow_pos_nonneg; lia).
  destruct Hd as [c Hm].
  assert (Hcp : 0 < c) by nia.
  assert (HM : Z.pos m / 2 ^ j = c) by (rewrite Hm; apply Z.div_mul; lia).
  rewrite HM in *.
  assert (Hdig : Zdigits2 (Z.pos m) + e = Zdigits2 c + (e + j))
    by (rewrite Hm, digits_shift by lia; lia).
  unfold binary_round_aux, shr_fexp. rewrite Hdig, Hc.
  replace (e + j - e) with j by lia.
  cbn [shr_record_of_loc].
  assert (Hshr : shr (Build_shr_record (Z.pos m) false false) e j
                 = (Build_shr_record c false false, e + j)).
  { unfold shr. destruct j as [|p|p]; try lia.
    - rewrite Z.add_0_r. f_equal. f_equal. rewrite Hm. cbn. lia.
    - f_equal. rewrite iter_pos_nat.
      assert (Hm' : Z.pos m = c * 2 ^ Z.of_nat (Pos.to_nat p))
        by (rewrite positive_nat_Z; exact Hm).
      rewrite shr_exact; [|lia|exists c; exact Hm'].
      f_equal. rewrite Hm'. apply Z.div_mul. rewrite positive_nat_Z. lia. }
  rewrite Hshr. cbn [shr_m loc_of_shr_record round_nearest_even].
  rewrite Hc, Z.sub_diag. cbn [shr shr_record_of_loc shr_m].
  destruct c as [|c|c]; try lia.
  destruct (Z.leb_spec (e + j) (emax - prec)); [reflexivity | lia].
Qed.

(** The float of a representable value, read off the value. *)
Lemma normalize_exact (n : positive) e sz :
  -1074 <= e ->
  Exact.representable (Z.pos n * 2 ^ (e + 1074)) ->
  binary_normalize prec emax (Z.pos n) e sz
  = S754_finite false
      (Z.to_pos (Z.pos n * 2 ^ (e + 1074)
                 / 2 ^ (Exact.expo (Z.pos n * 2 ^ (e + 1074)) + 1074)))
      (Exact.expo (Z.pos n * 2 ^ (e + 1074))).
Proof.
  intros He [Hd Hb].
  remember (Z.pos n * 2 ^ (e + 1074)) as V eqn:HVdef.
  assert (Hpe : 0 < 2 ^ (e + 1074)) by (apply Z.pow_pos_nonneg; lia).
  assert (HV : 0 < V) by nia.
  assert (Hdig : Zdigits2 V - 1074 = Z.pos (digits2_pos n) + e)
    by (rewrite HVdef, digits_shift by lia; cbn [Zdigits2]; lia).
  remember (Exact.expo V) as E eqn:HEdef.
  assert (HE : E = fexp prec emax (Z.pos (digits2_pos n) + e))
    by (rewrite HEdef; unfold Exact.expo; now rewrite Hdig).
  assert (HEmin : -1074 <= E) by (rewrite HE, fexp_eq; lia).
  assert (HpE : 0 < 2 ^ (E + 1074)) by (apply Z.pow_pos_nonneg; lia).
  destruct Hd as [c Hc].
  assert (Hcp : 0 < c) by nia.
  assert (HVc : V / 2 ^ (E + 1074) = c) by (rewrite Hc; apply Z.div_mul; lia).
  assert (Hcanon : fexp prec emax (Zdigits2 c + E) = E).
  { rewrite HEdef at 2. unfold Exact.expo. f_equal.
    rewrite Hc at 1. rewrite digits_shift by lia. lia. }
  rewrite HVc.
  cbn [binary_normalize]. unfold binary_round. rewrite <- HE.
  unfold shl_align.
  destruct (E - e) as [|d|d] eqn:Hdiff.
  - assert (HEe : e = E) by lia.
    assert (Hn : Z.pos n = c) by (rewrite HEe in HVdef; nia).
    clear HVc Hc HEdef. subst c. subst e.
    pose proof (round_aux_exact false n E 0) as R.
    rewrite Z.div_1_r, Z.add_0_r in R.
    apply R; try lia; try assumption.
    exists (Z.pos n). lia.
  - assert (Hs : 2 ^ (E + 1074) = 2 ^ (E - e) * 2 ^ (e + 1074))
      by (rewrite <- Z.pow_add_r by lia; f_equal; lia).
    assert (Hn : Z.pos n = c * 2 ^ (E - e)) by (rewrite Hs in Hc; nia).
    assert (Hq : Z.pos n / 2 ^ (E - e) = c)
      by (rewrite Hn; apply Z.div_mul, Z.pow_nonzero; lia).
    pose proof (round_aux_exact false n e (E - e)) as R.
    rewrite Hq in R. replace (e + (E - e)) with E in R by lia.
    apply R; try lia; try assumption.
    exists c. exact Hn.
  - assert (Hs : 2 ^ (e + 1074) = 2 ^ (e - E) * 2 ^ (E + 1074))
      by (rewrite <- Z.pow_add_r by lia; f_equal; lia).
    assert (Hmz : Z.pos (Pos.iter xO n d) = c).
    { rewrite pos_iter_xO. replace (Z.pos d) with (e - E) by lia.
      rewrite Hs in HVdef. nia. }
    clear HVc Hc. subst c.
    pose proof (round_aux_exact false (Pos.iter xO n d) E 0) as R.
    rewrite Z.div_1_r, Z.add_0_r in R.
    apply R; try lia; try assumption.
    exists (Z.pos (Pos.iter xO n d)). lia.
Qed.

Lemma of_scaled_eq V :
  0 < V -> Exact.representable V ->
  Exact.of_scaled V
  = S754_finite false (Z.to_pos (V / 2 ^ (Exact.expo V + 1074))) (Exact.expo V).
Proof.
  intros HV HR. destruct V as [|n|n]; try lia.
  pose proof (normalize_exact n (-1074) false) as R.
  change (-1074 + 1074) with 0 in R. rewrite Z.pow_0_r, Z.mul_1_r in R.
  apply R; [lia | exact HR].
Qed.

Lemma normalize_scaled (n : positive) e sz :
  -1074 <= e ->
  Exact.representable (Z.pos n * 2 ^ (e + 1074)) ->
  binary_normalize prec emax (Z.pos n) e sz
  = Exact.of_scaled (Z.pos n * 2 ^ (e + 1074)).
Proof.
  intros He HR. rewrite normalize_exact by assumption.
  rewrite of_scaled_eq; [reflexivity| |exact HR].
  assert (0 < 2 ^ (e + 1074)) by (apply Z.pow_pos_nonneg; lia). nia.
Qed.

(** What a representable value gives: a finite positive float of the
    format, with that value. *)
Lemma of_scaled_spec V :
  0 < V -> Exact.representable V ->
  exists m e,
    Exact.of_scaled V = S754_finite false m e
    /\ bounded prec emax m e = true
    /\ -1074 <= e
    /\ Z.pos m * 2 ^ (e + 1074) = V.
Proof.
  intros HV HR. pose proof HR as [[c Hc] Hb].
  assert (HEmin : -1074 <= Exact.expo V)
    by (unfold Exact.expo; rewrite fexp_eq; lia).
  assert (HpE : 0 < 2 ^ (Exact.expo V + 1074))
    by (apply Z.pow_pos_nonneg; lia).
  assert (Hcp : 0 < c) by nia.
  assert (HVc : V / 2 ^ (Exact.expo V + 1074) = c)
    by (rewrite Hc at 1; apply Z.div_mul; lia).
  exists (Z.to_pos c), (Exact.expo V).
  rewrite of_scaled_eq, HVc by assumption.
  split; [reflexivity|]. split; [|split; [exact HEmin|]].
  - unfold bounded, canonical_mantissa. apply andb_true_intro. split.
    + apply Z.eqb_eq. unfold Exact.expo at 2. f_equal.
      change (Z.pos (digits2_pos (Z.to_pos c))) with (Zdigits2 (Z.pos (Z.to_pos c))).
      rewrite Z2Pos.id by lia. rewrite Hc at 2.
      rewrite digits_shift by lia. lia.
    + apply Z.leb_le. exact Hb.
  - rewrite Z2Pos.id by lia. lia.
Qed.

Lemma scaled_of_scaled V :
  0 < V -> Exact.representable V -> Exact.scaled (Exact.of_scaled V) = V.
Proof.
  intros HV HR. destruct (of_scaled_spec V HV HR) as (m & e & -> & _ & _ & H).
  exact H.
Qed.

(** A positive float of the format is the float of its value. *)
Lemma valid_positive m e :
  bounded prec emax m e = true ->
  -1074 <= e /\ e <= 971
  /\ 0 < Z.pos m * 2 ^ (e + 1074)
  /\ Exact.expo (Z.pos m * 2 ^ (e + 1074)) = e
  /\ Exact.representable (Z.pos m * 2 ^ (e + 1074))
  /\ Exact.of_scaled (Z.pos m * 2 ^ (e + 1074)) = S754_finite false m e.
Proof.
  unfold bounded, canonical_mantissa. intros H.
  apply andb_prop in H. destruct H as [Hc Hb].
  apply Z.eqb_eq in Hc. apply Z.leb_le in Hb.
  assert (He : -1074 <= e) by (rewrite <- Hc, fexp_eq; lia).
  assert (Hp : 0 < 2 ^ (e + 1074)) by (apply Z.pow_pos_nonneg; lia).
  assert (Hx : Exact.expo (Z.pos m * 2 ^ (e + 1074)) = e).
  { unfold Exact.expo. rewrite digits_shift by lia. cbn [Zdigits2].
    rewrite <- Hc at 2. f_equal. lia. }
  assert (HR : Exact.representable (Z.pos m * 2 ^ (e + 1074))).
  { split; rewrite Hx; [exists (Z.pos m); reflexivity | exact Hb]. }
  split; [exact He|]. split; [exact Hb|]. split; [nia|].
  split; [exact Hx|]. split; [exact HR|].
  rewrite of_scaled_eq by (assumption || nia).
  rewrite Hx, Z.div_mul by lia. reflexivity.
Qed.

(** A multiple of [2^t] below [2^(53+t)] is representable. *)
Lemma representable_multiple V t :
  0 <= t <= 2045 -> (2 ^ t | V) -> 0 < V < 2 ^ (53 + t) ->
  Exact.representable V.
Proof.
  intros Ht [c Hc] HV.
  assert (Hd : Zdigits2 V <= 53 + t) by (apply digits_bound; lia).
  assert (Hd0 : 0 < Zdigits2 V)
    by (rewrite digits_log2 by lia; pose proof (Z.log2_nonneg V); lia).
  unfold Exact.representable, Exact.expo. rewrite fexp_eq.
  split; [|unfold emax, prec; lia].
  destruct (Z.max_spec (Zdigits2 V - 1074 - 53) (-1074)) as [[Hlt ->]|[Hge ->]].
  - exists V. change (-1074 + 1074) with 0. rewrite Z.pow_0_r. lia.
  - exists (c * 2 ^ (t - (Zdigits2 V - 1074 - 53 + 1074))).
    rewrite <- Z.mul_assoc, <- Z.pow_add_r by lia. rewrite Hc. do 2 f_equal. lia.
Qed.

Lemma shl_align_fst m e ez :
  ez <= e -> Z.pos (fst (shl_align m e ez)) = Z.pos m * 2 ^ (e - ez).
Proof.
  intros H. unfold shl_align. destruct (ez - e) as [|d|d] eqn:Hd; cbn [fst].
  - replace (e - ez) with 0 by lia. lia.
  - lia.
  - rewrite pos_iter_xO. do 2 f_equal. lia.
Qed.

Lemma bounded_lt m e : bounded prec emax m e = true -> Z.pos m < 2 ^ 53.
Proof.
  unfold bounded, canonical_mantissa. intros H.
  apply andb_prop in H. destruct H as [Hc _]. apply Z.eqb_eq in Hc.
  rewrite fexp_eq in Hc.
  apply digits_bound; try lia. cbn [Zdigits2]. lia.
Qed.

Lemma scaled_lt m e :
  bounded prec emax m e = true ->
  Z.pos m * 2 ^ (e + 1074) < 2 ^ (53 + (e + 1074)).
Proof.
  intros H. pose proof (bounded_lt m e H) as Hm.
  destruct (valid_positive m e H) as (He & _).
  assert (Hp : 0 < 2 ^ (e + 1074)) by (apply Z.pow_pos_nonneg; lia).
  replace (2 ^ (53 + (e + 1074))) with (2 ^ 53 * 2 ^ (e + 1074))
    by (rewrite <- Z.pow_add_r by lia; reflexivity).
  apply Z.mul_lt_mono_pos_r; assumption.
Qed.

(** *** Subtraction *)

Lemma fsub_exact ma ea mb eb :
  bounded prec emax ma ea = true -> bounded prec emax mb eb = true ->
  let A := Z.pos ma * 2 ^ (ea + 1074) in
  let B := Z.pos mb * 2 ^ (eb + 1074) in
  B <= A -> (B < A -> Exact.representable (A - B)) ->
  fsub (S754_finite false ma ea) (S754_finite false mb eb)
  = if A =? B then S754_zero false else Exact.of_scaled (A - B).
Proof.
  intros Ha Hb A B Hle HR.
  destruct (valid_positive ma ea Ha) as (Hea & _).
  destruct (valid_positive mb eb Hb) as (Heb & _).
  unfold fsub, SFsub. cbn [cond_Zopp].
  set (ez := Z.min ea eb).
  assert (Hez : -1074 <= ez /\ ez <= ea /\ ez <= eb) by (subst ez; lia).
  rewrite !shl_align_fst by lia.
  assert (Hpz : 0 < 2 ^ (ez + 1074)) by (apply Z.pow_pos_nonneg; lia).
  assert (HA : A = Z.pos ma * 2 ^ (ea - ez) * 2 ^ (ez + 1074)).
  { subst A. rewrite <- Z.mul_assoc, <- Z.pow_add_r by lia. do 2 f_equal. lia. }
  assert (HB : B = Z.pos mb * 2 ^ (eb - ez) * 2 ^ (ez + 1074)).
  { subst B. rewrite <- Z.mul_assoc, <- Z.pow_add_r by lia. do 2 f_equal. lia. }
  remember (Z.pos ma * 2 ^ (ea - ez) - Z.pos mb * 2 ^ (eb - ez)) as D eqn:HD.
  assert (HDV : D * 2 ^ (ez + 1074) = A - B) by lia.
  destruct (Z.eqb_spec A B) as [Heq|Hne].
  - assert (D = 0) by nia. subst D. rewrite H. reflexivity.
  - destruct D as [|n|n]; try nia.
    rewrite normalize_scaled; rewrite ?HDV; try lia; try reflexivity.
    apply HR. lia.
Qed.

(** *** Remainder *)

Lemma fmod_exact ma ea my ey :
  bounded prec emax ma ea = true -> bounded prec emax my ey = true ->
  let A := Z.pos ma * 2 ^ (ea + 1074) in
  let Y := Z.pos my * 2 ^ (ey + 1074) in
  (0 < A mod Y -> Exact.representable (A mod Y))
  /\ fmod (S754_finite false ma ea) (S754_finite false my ey)
     = if A mod Y =? 0 then S754_zero false else Exact.of_scaled (A mod Y).
Proof.
  intros Ha Hy A Y.
  destruct (valid_positive ma ea Ha) as (Hea & Hea' & HA0 & _).
  destruct (valid_positive my ey Hy) as (Hey & Hey' & HY0 & _).
  pose proof (scaled_lt ma ea Ha) as HAlt. pose proof (scaled_lt my ey Hy) as HYlt.
  fold A in HA0, HAlt. fold Y in HY0, HYlt.
  set (ez := Z.min ea ey).
  assert (Hez : -1074 <= ez /\ ez <= ea /\ ez <= ey) by (subst ez; lia).
  assert (Hpz : 0 < 2 ^ (ez + 1074)) by (apply Z.pow_pos_nonneg; lia).
  assert (HA : A = Z.pos ma * 2 ^ (ea - ez) * 2 ^ (ez + 1074)).
  { subst A. rewrite <- Z.mul_assoc, <- Z.pow_add_r by lia. do 2 f_equal. lia. }
  assert (HY : Y = Z.pos my * 2 ^ (ey - ez) * 2 ^ (ez + 1074)).
  { subst Y. rewrite <- Z.mul_assoc, <- Z.pow_add_r by lia. do 2 f_equal. lia. }
  assert (Hpa : 0 < 2 ^ (ea - ez)) by (apply Z.pow_pos_nonneg; lia).
  assert (Hpy : 0 < 2 ^ (ey - ez)) by (apply Z.pow_pos_nonneg; lia).
  remember ((Z.pos ma * 2 ^ (ea - ez)) mod (Z.pos my * 2 ^ (ey - ez))) as r eqn:Hr.
  assert (HrV : r * 2 ^ (ez + 1074) = A mod Y).
  { rewrite HA, HY, Hr. rewrite Z.mul_mod_distr_r by nia. reflexivity. }
  assert (Hr0 : 0 <= r)
    by (rewrite Hr; apply Z.mod_pos_bound; nia).
  pose proof (Z.mod_pos_bound A Y HY0) as HmodY.
  pose proof (Z.mod_le A Y ltac:(lia) HY0) as HmodA.
  assert (HR : 0 < A mod Y -> Exact.representable (A mod Y)).
  { intros Hpos. apply (representable_multiple _ (ez + 1074)).
    - lia.
    - exists r. lia.
    - split; [exact Hpos|].
      destruct (Z.min_spec ea ey) as [[_ Hm]|[_ Hm]]; fold ez in Hm;
        rewrite Hm; lia. }
  split; [exact HR|].
  unfold fmod. fold ez. rewrite <- Hr.
  destruct (Z.eqb_spec (A mod Y) 0) as [H0|Hn0].
  - assert (r = 0) by nia. subst r. rewrite H. reflexivity.
  - destruct r as [|n|n]; try lia.
    rewrite normalize_scaled; rewrite ?HrV; try lia; try reflexivity.
    apply HR. lia.
Qed.

(** *** Conversions to [int] *)

Lemma int_of_float_scaled m e :
  -1074 <= e ->
  int_of_float (S754_finite false m e)
  = ok (Z.pos m * 2 ^ (e + 1074) / 2 ^ 1074).
Proof.
  intros He. unfold int_of_float. f_equal.
  destruct (Z.leb_spec 0 e).
  - rewrite Z.pow_add_r by lia. rewrite Z.mul_assoc, Z.div_mul; [reflexivity|].
    apply Z.pow_nonzero; lia.
  - replace (2 ^ 1074) with (2 ^ (- e) * 2 ^ (e + 1074))
      by (rewrite <- Z.pow_add_r by lia; f_equal; lia).
    rewrite Z.div_mul_cancel_r; [reflexivity| |];
      apply Z.pow_nonzero; lia.
Qed.

Lemma digits_spec m : 0 < m -> 2 ^ (Zdigits2 m - 1) <= m < 2 ^ Zdigits2 m.
Proof.
  intros Hm. rewrite digits_log2 by exact Hm.
  replace (Z.log2 m + 1 - 1) with (Z.log2 m) by lia.
  replace (Z.log2 m + 1) with (Z.succ (Z.log2 m)) by lia.
  apply Z.log2_spec. exact Hm.
Qed.

Lemma digits_pos m : 0 < m -> 1 <= Zdigits2 m.
Proof.
  intros Hm. rewrite digits_log2 by exact Hm.
  pose proof (Z.log2_nonneg m). lia.
Qed.

(** *** Division with an integer quotient *)

Lemma fdiv_exact ma ea my ey q :
  bounded prec emax ma ea = true -> bounded prec emax my ey = true ->
  let A := Z.pos ma * 2 ^ (ea + 1074) in
  let Y := Z.pos my * 2 ^ (ey + 1074) in
  A = q * Y -> 0 < q < 2 ^ 53 -> A < 2 ^ (53 + 1074) -> 2 ^ 1074 <= Y ->
  fdiv (S754_finite false ma ea) (S754_finite false my ey)
  = Exact.of_scaled (q * 2 ^ 1074).
Proof.
  intros Ha Hy A Y HAq Hq HAlt HYge.
  destruct (valid_positive ma ea Ha) as (Hea & Hea' & HA0 & _).
  destruct (valid_positive my ey Hy) as (Hey & Hey' & HY0 & _).
  fold A in HA0. fold Y in HY0.
  assert (Hpa : 0 < 2 ^ (ea + 1074)) by (apply Z.pow_pos_nonneg; lia).
  assert (Hpy : 0 < 2 ^ (ey + 1074)) by (apply Z.pow_pos_nonneg; lia).
  set (d1 := Z.pos (digits2_pos ma)). set (d2 := Z.pos (digits2_pos my)).
  assert (HdA : Zdigits2 A = d1 + (ea + 1074))
    by (subst A; rewrite digits_shift by lia; reflexivity).
  assert (HdY : Zdigits2 Y = d2 + (ey + 1074))
    by (subst Y; rewrite digits_shift by lia; reflexivity).
  pose proof (digits_spec A HA0) as HsA. pose proof (digits_spec Y HY0) as HsY.
  pose proof (digits_spec q (proj1 Hq)) as Hsq.
  pose proof (digits_pos q (proj1 Hq)) as Hq1.
  assert (Hd1 : d1 + ea <= 53).
  { assert (Zdigits2 A <= 53 + 1074) by (apply digits_bound; lia). lia. }
  assert (Hd2 : 1 <= d2 + ey).
  { destruct (Z.le_gt_cases 1 (d2 + ey)) as [H|H]; [exact H|].
    assert (Y < 2 ^ 1074); [|lia].
    eapply Z.lt_le_trans; [apply HsY|]. apply Z.pow_le_mono_r; lia. }
  assert (Hdq : Zdigits2 q <= 53) by (apply digits_bound; lia).
  (* the quotient has at least the digits the exponents announce *)
  assert (Hqd : d1 + ea - (d2 + ey) <= Zdigits2 q).
  { destruct (Z.le_gt_cases (d1 + ea - (d2 + ey)) (Zdigits2 q)) as [H|H];
      [exact H|]. exfalso.
    assert (Hq2 : q < 2 ^ (d1 + ea - (d2 + ey) - 1)).
    { eapply Z.lt_le_trans; [apply Hsq|]. apply Z.pow_le_mono_r; lia. }
    assert (HP : 2 ^ (d1 + ea - (d2 + ey) - 1) * 2 ^ Zdigits2 Y
                 = 2 ^ (Zdigits2 A - 1))
      by (rewrite <- Z.pow_add_r by lia; f_equal; lia).
    assert (0 < 2 ^ (d1 + ea - (d2 + ey) - 1)) by (apply Z.pow_pos_nonneg; lia).
    nia. }
  set (E := Zdigits2 q - 53).
  assert (HE : Exact.expo (q * 2 ^ 1074) = E).
  { unfold Exact.expo. rewrite digits_shift, fexp_eq by lia. subst E. lia. }
  assert (HR : Exact.representable (q * 2 ^ 1074)).
  { apply (representable_multiple _ 1074); [lia | exists q; reflexivity |].
    split; [nia|]. rewrite Z.pow_add_r by lia. nia. }
  assert (HpE : 0 < 2 ^ (- E)) by (apply Z.pow_pos_nonneg; subst E; lia).
  rewrite of_scaled_eq by (assumption || nia). rewrite HE.
  replace (q * 2 ^ 1074 / 2 ^ (E + 1074)) with (q * 2 ^ (- E)).
  2:{ replace (2 ^ 1074) with (2 ^ (- E) * 2 ^ (E + 1074))
        by (rewrite <- Z.pow_add_r by (subst E; lia); f_equal; lia).
      rewrite Z.mul_assoc, Z.div_mul; [reflexivity|].
      apply Z.pow_nonzero; subst E; lia. }
  (* the division itself *)
  unfold fdiv, SFdiv, SFdiv_core_binary. cbn [xorb Zdigits2].
  fold d1 d2. rewrite fexp_eq.
  set (e' := Z.min (Z.max (d1 + ea - (d2 + ey) - 53) (-1074)) (ea - ey)).
  assert (He' : e' <= E /\ e' <= -1 /\ e' <= ea - ey) by (subst e' E; lia).
  assert (Hpe : 0 < 2 ^ (- e')) by (apply Z.pow_pos_nonneg; lia).
  assert (Hps : 0 < 2 ^ (ea - ey - e')) by (apply Z.pow_pos_nonneg; lia).
  assert (Hm' : match ea - ey - e' with
                | 0 => Z.pos ma
                | Z.pos _ => Z.shiftl (Z.pos ma) (ea - ey - e')
                | Z.neg _ => 0
                end = q * 2 ^ (- e') * Z.pos my).
  { assert (Hsh : match ea - ey - e' with
                  | 0 => Z.pos ma
                  | Z.pos _ => Z.shiftl (Z.pos ma) (ea - ey - e')
                  | Z.neg _ => 0
                  end = Z.pos ma * 2 ^ (ea - ey - e')).
    { destruct (ea - ey - e') as [|p|p] eqn:Hs; try lia.
      rewrite Z.shiftl_mul_pow2 by lia. reflexivity. }
    rewrite Hsh.
    apply (Z.mul_reg_r _ _ (2 ^ (ey + 1074))); [lia|].
    assert (HP : 2 ^ (ea - ey - e') * 2 ^ (ey + 1074)
                 = 2 ^ (ea + 1074) * 2 ^ (- e'))
      by (rewrite <- !Z.pow_add_r by lia; f_equal; lia).
    subst A Y. nia. }
  rewrite Hm'.
  assert (Hde : Z.div_eucl (q * 2 ^ (- e') * Z.pos my) (Z.pos my)
                = (q * 2 ^ (- e'), 0)).
  { pose proof (Z.div_mul (q * 2 ^ (- e')) (Z.pos my) ltac:(lia)) as Hdiv.
    pose proof (Z.mod_mul (q * 2 ^ (- e')) (Z.pos my) ltac:(lia)) as Hmod.
    unfold Z.div, Z.modulo in Hdiv, Hmod.
    destruct (Z.div_eucl (q * 2 ^ (- e') * Z.pos my) (Z.pos my)) as [a b].
    cbn [fst snd] in *. congruence. }
  rewrite Hde.
  assert (Hloc : new_location (Z.pos my) 0 = loc_Exact)
    by (unfold new_location, new_location_even, new_location_odd;
        destruct (Z.even (Z.pos my)); reflexivity).
  rewrite Hloc.
  assert (Hn : 0 < q * 2 ^ (- e')) by nia.
  destruct (q * 2 ^ (- e')) as [|n|n] eqn:Hnq; try lia.
  assert (Hsplit : Z.pos n = q * 2 ^ (- E) * 2 ^ (E - e')).
  { rewrite <- Z.mul_assoc, <- Z.pow_add_r by (subst E; lia).
    rewrite <- Hnq. do 2 f_equal. lia. }
  pose proof (round_aux_exact false n e' (E - e')) as R.
  assert (Hquo : Z.pos n / 2 ^ (E - e') = q * 2 ^ (- E))
    by (rewrite Hsplit; apply Z.div_mul, Z.pow_nonzero; lia).
  rewrite Hquo in R. replace (e' + (E - e')) with E in R by lia.
  apply R.
  - lia.
  - exists (q * 2 ^ (- E)). exact Hsplit.
  - rewrite digits_shift, fexp_eq by (subst E; lia). subst E. lia.
  - subst E. unfold emax, prec. lia.
Qed.

(** *** Integers as floats *)

Lemma representable_int q :
  0 < q < 2 ^ 53 -> Exact.representable (q * 2 ^ 1074).
Proof.
  intros Hq. apply (representable_multiple _ 1074);
    [lia | exists q; reflexivity |].
  split; [nia|]. rewrite Z.pow_add_r by lia. nia.
Qed.

Lemma of_Z_scaled q :
  0 < q < 2 ^ 53 -> of_Z q = Exact.of_scaled (q * 2 ^ 1074).
Proof.
  intros Hq. unfold of_Z. destruct q as [|n|n]; try lia.
  rewrite normalize_scaled; [reflexivity | lia |].
  apply representable_int. exact Hq.
Qed.

Lemma int_of_float_int q :
  0 < q < 2 ^ 53 -> int_of_float (Exact.of_scaled (q * 2 ^ 1074)) = ok q.
Proof.
  intros Hq.
  destruct (of_scaled_spec (q * 2 ^ 1074)) as (m & e & -> & Hb & He & Hv);
    [nia | apply representable_int; exact Hq |].
  rewrite int_of_float_scaled by exact He. rewrite Hv.
  rewrite Z.div_mul by (apply Z.pow_nonzero; lia). reflexivity.
Qed.

Lemma floor_int q :
  0 < q < 2 ^ 53 ->
  floor (Exact.of_scaled (q * 2 ^ 1074)) = Exact.of_scaled (q * 2 ^ 1074).
Proof.
  intros Hq.
  destruct (of_scaled_spec (q * 2 ^ 1074)) as (m & e & Hx & Hb & He & Hv);
    [nia | apply representable_int; exact Hq |].
  rewrite Hx. unfold floor. destruct (Z.leb_spec 0 e); [reflexivity|].
  assert (Hp : 0 < 2 ^ (e + 1074)) by (apply Z.pow_pos_nonneg; lia).
  assert (Hm : Z.pos m = q * 2 ^ (- e)).
  { apply (Z.mul_reg_r _ _ (2 ^ (e + 1074))); [lia|].
    rewrite Hv, <- Z.mul_assoc, <- Z.pow_add_r by lia. do 2 f_equal. lia. }
  rewrite Hm, Z.div_mul by (apply Z.pow_nonzero; lia).
  rewrite <- Hx. destruct q as [|n|n]; try lia.
  rewrite normalize_scaled; [reflexivity | lia |].
  apply representable_int. exact Hq.
Qed.

Lemma signbit_round_aux m e l :
  signbit (binary_round_aux prec emax false m e l) = false.
Proof.
  unfold binary_round_aux.
  destruct (shr_fexp prec emax m e l) as [mrs' e'].
  destruct (shr_fexp prec emax _ e' loc_Exact) as [mrs'' e''].
  destruct (shr_m mrs''); try reflexivity.
  destruct (e'' <=? emax - prec); reflexivity.
Qed.

Lemma signbit_fdiv ma ea mb eb :
  signbit (fdiv (S754_finite false ma ea) (S754_finite false mb eb)) = false.
Proof.
  unfold fdiv, SFdiv.
  destruct (SFdiv_core_binary prec emax (Z.pos ma) ea (Z.pos mb) eb)
    as [[mz ez] lz].
  apply signbit_round_aux.
Qed.

(** The end of [float_div_mod] on a quotient that is a whole number. *)
Lemma floordiv_tail q vx wx :
  0 < q < 2 ^ 53 ->
  let div1 := Exact.of_scaled (q * 2 ^ 1074) in
  (if nonzero div1 then
     let fl := floor div1 in
     if fltb half (fsub div1 fl) then fadd fl one else fl
   else copysign_zero (fdiv vx wx)) = div1.
Proof.
  intros Hq div1. subst div1. rewrite floor_int by exact Hq.
  destruct (of_scaled_spec (q * 2 ^ 1074)) as (m & e & Hx & Hb & He & Hv);
    [nia | apply representable_int; exact Hq |].
  rewrite Hx. cbn [nonzero]. cbv zeta.
  rewrite fsub_exact by (assumption || lia).
  rewrite Z.eqb_refl. reflexivity.
Qed.

(** *** Floor division and remainder by a whole number *)

Lemma fltb_zero_pos m e :
  fltb (S754_finite false m e) (S754_zero false) = false.
Proof. reflexivity. Qed.

Lemma float_div_mod_zero s my ey :
  float_div_mod (S754_zero s) (S754_finite false my ey)
  = (S754_zero s, S754_zero false).
Proof. destruct s; reflexivity. Qed.

Lemma float_div_mod_exact mx ex my ey :
  bounded prec emax mx ex = true -> bounded prec emax my ey = true ->
  let N := Z.pos mx * 2 ^ (ex + 1074) in
  let Y := Z.pos my * 2 ^ (ey + 1074) in
  N < 2 ^ (53 + 1074) -> (2 ^ 1074 | Y) ->
  exists fq,
    float_div_mod (S754_finite false mx ex) (S754_finite false my ey)
    = (fq, if N mod Y =? 0 then S754_zero false
           else Exact.of_scaled (N mod Y))
    /\ int_of_float fq = ok (N / Y).
Proof.
  intros Hx Hy N Y HN [d Hd].
  destruct (valid_positive mx ex Hx) as (Hex & _ & HN0 & _ & HRN & HxN).
  destruct (valid_positive my ey Hy) as (Hey & _ & HY0 & _ & HRY & HyY).
  fold N in HN0, HRN, HxN. fold Y in HY0, HRY, HyY.
  assert (Hp : 0 < 2 ^ 1074) by (apply Z.pow_pos_nonneg; lia).
  assert (Hd0 : 0 < d) by nia.
  assert (HYge : 2 ^ 1074 <= Y) by nia.
  pose proof (Z.div_mod N Y ltac:(lia)) as Hdm.
  pose proof (Z.mod_pos_bound N Y HY0) as Hr.
  assert (Hq0 : 0 <= N / Y) by (apply Z.div_pos; lia).
  assert (Hqlt : N / Y < 2 ^ 53).
  { rewrite Z.pow_add_r in HN by lia.
    destruct (Z.lt_ge_cases (N / Y) (2 ^ 53)) as [H|H]; [exact H|]. nia. }
  destruct (fmod_exact mx ex my ey Hx Hy) as [HRr Hmod].
  fold N Y in HRr, Hmod.
  unfold float_div_mod. rewrite Hmod.
  destruct (Z.eqb_spec (N mod Y) 0) as [Hr0|Hr0].
  - (* the remainder is zero *)
    cbn [nonzero]. cbv iota.
    assert (Hq : 0 < N / Y) by nia.
    assert (Hdiv : fdiv (fsub (S754_finite false mx ex) (S754_zero false))
                        (S754_finite false my ey)
                   = Exact.of_scaled (N / Y * 2 ^ 1074)).
    { change (fsub (S754_finite false mx ex) (S754_zero false))
        with (S754_finite false mx ex).
      apply fdiv_exact; try assumption; fold N Y; lia. }
    rewrite Hdiv. cbv zeta.
    rewrite floordiv_tail by lia.
    eexists. split; [reflexivity|]. apply int_of_float_int. lia.
  - (* a remainder *)
    assert (Hrpos : 0 < N mod Y) by lia.
    destruct (of_scaled_spec (N mod Y) Hrpos (HRr Hrpos))
      as (mr & er & Hfr & Hbr & Her & Hvr).
    rewrite Hfr. cbn [nonzero]. rewrite !fltb_zero_pos.
    cbn [Bool.eqb negb]. cbv iota.
    assert (Hsub : fsub (S754_finite false mx ex) (S754_finite false mr er)
                   = if N =? N mod Y then S754_zero false
                     else Exact.of_scaled (N - N mod Y)).
    { pose proof (fsub_exact mx ex mr er Hx Hbr) as R. cbv zeta in R.
      fold N in R. rewrite Hvr in R. apply R.
      - apply Z.mod_le; lia.
      - intros Hlt. apply (representable_multiple _ 1074); [lia| |lia].
        exists (d * (N / Y)). nia. }
    rewrite Hsub.
    destruct (Z.eqb_spec N (N mod Y)) as [Heq|Hne].
    + (* the quotient is zero *)
      assert (Hq : N / Y = 0) by nia.
      change (fdiv (S754_zero false) (S754_finite false my ey))
        with (S754_zero false).
      cbn [nonzero]. cbv iota zeta.
      unfold copysign_zero. rewrite signbit_fdiv.
      eexists. split; [reflexivity|]. rewrite Hq. reflexivity.
    + assert (Hq : 0 < N / Y) by nia.
      assert (HNr : N - N mod Y = N / Y * Y) by lia.
      assert (HRq : Exact.representable (N - N mod Y)).
      { apply (representable_multiple _ 1074); [lia| |lia].
        exists (d * (N / Y)). nia. }
      destruct (of_scaled_spec (N - N mod Y) ltac:(lia) HRq)
        as (ma & ea & Hfa & Hba & Hea & Hva).
      rewrite Hfa.
      assert (Hdiv : fdiv (S754_finite false ma ea) (S754_finite false my ey)
                     = Exact.of_scaled (N / Y * 2 ^ 1074)).
      { apply fdiv_exact; try assumption; fold Y; rewrite ?Hva; lia. }
      rewrite Hdiv. cbv zeta.
      rewrite floordiv_tail by lia.
      eexists. split; [reflexivity|]. apply int_of_float_int. lia.
Qed.

(** The float of a whole number from 1 up to [2^53]. *)
Lemma of_Z_spec d :
  0 < d < 2 ^ 53 ->
  exists m e,
    of_Z d = S754_finite false m e
    /\ bounded prec emax m e = true
    /\ Z.pos m * 2 ^ (e + 1074) = d * 2 ^ 1074.
Proof.
  intros Hd. rewrite of_Z_scaled by exact Hd.
  destruct (of_scaled_spec (d * 2 ^ 1074)) as (m & e & Hx & Hb & He & Hv);
    [nia | apply representable_int; exact Hd |].
  exists m, e. auto.
Qed.

Lemma float_floordiv_exact x d :
  Exact.nonneg_finite x = true -> Exact.scaled x < 2 ^ (53 + 1074) ->
  0 < d < 2 ^ 53 ->
  exists fq,
    floordiv (Float x) (Int d) = ok (Float fq)
    /\ int_of_float fq = ok (Exact.scaled x / (d * 2 ^ 1074)).
Proof.
  intros Hx HN Hd.
  destruct (of_Z_spec d Hd) as (my & ey & Hy & Hby & Hvy).
  unfold floordiv, as_float, float_of_int. rewrite Hy.
  cbn [is_inf rbind ok]. unfold float_floordiv. cbn [nonzero].
  destruct x as [s|s| |s mx ex]; try discriminate Hx.
  - rewrite float_div_mod_zero. cbn [fst rbind ok].
    eexists. split; [reflexivity|]. reflexivity.
  - destruct s; [discriminate Hx|]. cbn [Exact.nonneg_finite] in Hx.
    cbn [Exact.scaled] in HN |- *.
    destruct (float_div_mod_exact mx ex my ey Hx Hby HN)
      as (fq & Hdm & Hint); [exists d; rewrite Hvy; reflexivity|].
    rewrite Hdm. cbn [fst rbind ok].
    exists fq. split; [reflexivity|]. rewrite Hint, Hvy. reflexivity.
Qed.

Lemma float_rem_exact x d :
  Exact.nonneg_finite x = true -> Exact.scaled x < 2 ^ (53 + 1074) ->
  0 < d < 2 ^ 53 ->
  exists fr,
    rem (Float x) (Int d) = ok (Float fr)
    /\ Exact.nonneg_finite fr = true
    /\ Exact.scaled fr = Exact.scaled x mod (d * 2 ^ 1074).
Proof.
  intros Hx HN Hd.
  destruct (of_Z_spec d Hd) as (my & ey & Hy & Hby & Hvy).
  unfold rem, as_float, float_of_int. rewrite Hy.
  cbn [is_inf rbind ok]. unfold float_rem. cbn [nonzero].
  destruct x as [s|s| |s mx ex]; try discriminate Hx.
  - exists (S754_zero false). cbn [fmod nonzero copysign_zero signbit rbind].
    repeat split. 
  - destruct s; [discriminate Hx|]. cbn [Exact.nonneg_finite] in Hx.
    cbn [Exact.scaled] in HN |- *.
    destruct (fmod_exact mx ex my ey Hx Hby) as [HR Hmod].
    rewrite Hvy in HR, Hmod. rewrite Hmod.
    assert (Hp : 0 < 2 ^ 1074) by (apply Z.pow_pos_nonneg; lia).
    pose proof (Z.mod_pos_bound (Z.pos mx * 2 ^ (ex + 1074)) (d * 2 ^ 1074)
                  ltac:(nia)) as Hr.
    destruct (Z.eqb_spec (Z.pos mx * 2 ^ (ex + 1074) mod (d * 2 ^ 1074)) 0)
      as [H0|H0].
    + exists (S754_zero false). cbn [nonzero copysign_zero signbit rbind].
      rewrite H0. repeat split.
    + assert (Hrpos : 0 < Z.pos mx * 2 ^ (ex + 1074) mod (d * 2 ^ 1074))
        by lia.
      destruct (of_scaled_spec _ Hrpos (HR Hrpos))
        as (mr & er & Hfr & Hbr & Her & Hvr).
      rewrite Hfr. cbn [nonzero]. rewrite !fltb_zero_pos.
      cbn [Bool.eqb negb rbind]. cbv iota.
      exists (S754_finite false mr er). split; [reflexivity|].
      split; [exact Hbr | exact Hvr].
Qed.

(** *** Rounding in general: a finite product stays finite *)

Lemma shr_1_m rec : 0 <= shr_m rec -> shr_m (shr_1 rec) = shr_m rec / 2.
Proof.
  destruct rec as [m r s]. cbn [shr_m]. intros Hm.
  destruct m as [|[p|p|]|]; cbn [shr_1 shr_m]; try lia; try reflexivity.
  - rewrite Pos2Z.inj_xI. apply Z.div_unique with (r := 1); lia.
  - rewrite Pos2Z.inj_xO. apply Z.div_unique with (r := 0); lia.
Qed.

Lemma shr_m_iter k rec :
  0 <= shr_m rec ->
  shr_m (Nat.iter k shr_1 rec) = shr_m rec / 2 ^ Z.of_nat k.
Proof.
  intros Hm. induction k as [|k IH].
  - cbn. now rewrite Z.div_1_r.
  - rewrite Nat.iter_succ, shr_1_m.
    + rewrite IH, Z.div_div by (try apply Z.pow_pos_nonneg; lia).
      f_equal. rewrite Nat2Z.inj_succ, Z.pow_succ_r by lia. lia.
    + rewrite IH. apply Z.div_pos; [exact Hm | apply Z.pow_pos_nonneg; lia].
Qed.

Lemma shr_fexp_m m e l :
  0 <= m ->
  snd (shr_fexp prec emax m e l) = Z.max e (fexp prec emax (Zdigits2 m + e))
  /\ shr_m (fst (shr_fexp prec emax m e l))
     = m / 2 ^ (snd (shr_fexp prec emax m e l) - e).
Proof.
  intros Hm. unfold shr_fexp, shr.
  assert (H0 : shr_m (shr_record_of_loc m l) = m)
    by (destruct l as [|[]]; reflexivity).
  destruct (fexp prec emax (Zdigits2 m + e) - e) as [|p|p] eqn:Hn;
    cbn [fst snd].
  - split; [lia|]. rewrite Z.sub_diag, Z.div_1_r. exact H0.
  - split; [lia|]. rewrite iter_pos_nat, shr_m_iter by lia.
    rewrite H0, positive_nat_Z. do 2 f_equal. lia.
  - split; [lia|]. rewrite Z.sub_diag, Z.div_1_r. exact H0.
Qed.

Lemma round_bounds m l :
  0 <= m -> m <= round_nearest_even m l <= m + 1.
Proof.
  intros Hm. destruct l as [|[]]; cbn [round_nearest_even];
    try destruct (Z.even m); lia.
Qed.

Lemma digits_upper m d : 0 <= m -> 0 <= d -> m < 2 ^ d -> Zdigits2 m <= d.
Proof.
  intros Hm Hd H. destruct (Z.eq_dec m 0) as [->|]; [cbn; lia|].
  apply digits_bound; lia.
Qed.

Lemma digits_nonneg m : 0 <= Zdigits2 m.
Proof. destruct m; cbn; lia. Qed.

Lemma digits_lt m : 0 <= m -> m < 2 ^ Zdigits2 m.
Proof.
  intros Hm. destruct (Z.eq_dec m 0) as [->|]; [cbn; lia|].
  apply digits_spec. lia.
Qed.

Lemma digits_div m k :
  0 <= m -> 0 <= k -> Zdigits2 (m / 2 ^ k) <= Z.max (Zdigits2 m - k) 0.
Proof.
  intros Hm Hk.
  assert (Hp : 0 < 2 ^ k) by (apply Z.pow_pos_nonneg; lia).
  pose proof (digits_lt m Hm) as Hlt. pose proof (digits_nonneg m) as Hd.
  apply digits_upper; [apply Z.div_pos; lia | lia |].
  apply Z.div_lt_upper_bound; [lia|].
  rewrite <- Z.pow_add_r by lia.
  eapply Z.lt_le_trans; [exact Hlt|]. apply Z.pow_le_mono_r; lia.
Qed.

Lemma digits_succ m : 0 <= m -> Zdigits2 (m + 1) <= Zdigits2 m + 1.
Proof.
  intros Hm. pose proof (digits_lt m Hm). pose proof (digits_nonneg m).
  apply digits_upper; try lia.
  rewrite Z.pow_add_r by lia. change (2 ^ 1) with 2. lia.
Qed.

Lemma digits_mono a b : 0 <= a <= b -> Zdigits2 a <= Zdigits2 b.
Proof.
  intros H. pose proof (digits_lt b ltac:(lia)). pose proof (digits_nonneg b).
  apply digits_upper; lia.
Qed.

Lemma digits_mul a b :
  0 <= a -> 0 <= b -> Zdigits2 (a * b) <= Zdigits2 a + Zdigits2 b.
Proof.
  intros Ha Hb.
  pose proof (digits_lt a Ha). pose proof (digits_lt b Hb).
  pose proof (digits_nonneg a). pose proof (digits_nonneg b).
  apply digits_upper; try nia.
  rewrite Z.pow_add_r by lia. nia.
Qed.

(** Rounding a non-negative mantissa of moderate size gives a zero or a
    positive finite float. *)
Lemma round_aux_finite m e l :
  0 <= m -> Zdigits2 m + e <= 1000 -> e <= 971 ->
  match binary_round_aux prec emax false m e l with
  | S754_zero false | S754_finite false _ _ => True
  | _ => False
  end.
Proof.
  intros Hm Hd He. unfold binary_round_aux.
  pose proof (shr_fexp_m m e l Hm) as [He1 Hm1].
  destruct (shr_fexp prec emax m e l) as [mrs' e']. cbn [fst snd] in *.
  assert (Ha : 0 <= shr_m mrs').
  { rewrite Hm1. apply Z.div_pos; [exact Hm | apply Z.pow_pos_nonneg; lia]. }
  pose proof (round_bounds (shr_m mrs') (loc_of_shr_record mrs') Ha) as Hr.
  set (m1 := round_nearest_even (shr_m mrs') (loc_of_shr_record mrs')) in *.
  pose proof (shr_fexp_m m1 e' loc_Exact ltac:(lia)) as [He2 Hm2].
  destruct (shr_fexp prec emax m1 e' loc_Exact) as [mrs'' e''].
  cbn [fst snd] in *.
  rewrite fexp_eq in He1, He2.
  assert (Hdm1 : Zdigits2 m1 + e' <= 1001).
  { pose proof (digits_mono m1 (shr_m mrs' + 1) ltac:(lia)) as H1.
    pose proof (digits_succ (shr_m mrs') Ha) as H2.
    pose proof (digits_div m (e' - e) Hm ltac:(lia)) as H3.
    rewrite <- Hm1 in H3. lia. }
  assert (0 <= shr_m mrs'').
  { rewrite Hm2. apply Z.div_pos; [lia | apply Z.pow_pos_nonneg; lia]. }
  destruct (shr_m mrs'') as [|p|p]; try lia; try exact I.
  destruct (Z.leb_spec e'' (emax - prec)) as [_|Hgt]; [exact I|].
  unfold emax, prec in Hgt. lia.
Qed.

(** *** The whole part, the fraction and its product *)

Lemma int_of_float_whole x :
  Exact.nonneg_finite x = true ->
  int_of_float x = ok (Exact.scaled x / 2 ^ 1074).
Proof.
  destruct x as [s|s| |s m e]; try discriminate.
  - intros _. reflexivity.
  - destruct s; [discriminate|]. cbn [Exact.nonneg_finite Exact.scaled].
    intros Hb. destruct (valid_positive m e Hb) as (He & _).
    apply int_of_float_scaled. exact He.
Qed.

Lemma of_Z_zero : of_Z 0 = S754_zero false.
Proof. reflexivity. Qed.

Lemma exponent_nonpos m e :
  bounded prec emax m e = true ->
  Z.pos m * 2 ^ (e + 1074) < 2 ^ (53 + 1074) -> e <= 0.
Proof.
  intros Hb HN.
  destruct (valid_positive m e Hb) as (He & _ & HN0 & _).
  assert (Hd : Zdigits2 (Z.pos m * 2 ^ (e + 1074)) <= 53 + 1074)
    by (apply digits_bound; lia).
  rewrite digits_shift in Hd by lia. cbn [Zdigits2] in Hd.
  unfold bounded, canonical_mantissa in Hb.
  apply andb_prop in Hb. destruct Hb as [Hc _].
  apply Z.eqb_eq in Hc. rewrite fexp_eq in Hc. lia.
Qed.

Lemma fraction_exact x :
  Exact.nonneg_finite x = true -> Exact.scaled x < 2 ^ (53 + 1074) ->
  let fr := fsub x (of_Z (Exact.scaled x / 2 ^ 1074)) in
  sub (Float x) (Int (Exact.scaled x / 2 ^ 1074)) = ok (Float fr)
  /\ Exact.nonneg_finite fr = true
  /\ Exact.scaled fr = Exact.scaled x mod 2 ^ 1074.
Proof.
  intros Hx HN fr.
  assert (Hp : 0 < 2 ^ 1074) by (apply Z.pow_pos_nonneg; lia).
  destruct x as [s|s| |s mx ex]; try discriminate Hx.
  - subst fr. cbn [Exact.scaled]. rewrite Z.div_0_l, Z.mod_0_l by lia.
    destruct s; repeat split.
  - destruct s; [discriminate Hx|]. cbn [Exact.nonneg_finite] in Hx.
    cbn [Exact.scaled] in *.
    destruct (valid_positive mx ex Hx) as (Hex & _ & HN0 & _).
    pose proof (exponent_nonpos mx ex Hx HN) as Hex0.
    pose proof (scaled_lt mx ex Hx) as Hs.
    remember (Z.pos mx * 2 ^ (ex + 1074)) as N eqn:HNdef.
    pose proof (Z.div_mod N (2 ^ 1074) ltac:(lia)) as Hdm.
    pose proof (Z.mod_pos_bound N (2 ^ 1074) Hp) as Hr.
    assert (Hw0 : 0 <= N / 2 ^ 1074) by (apply Z.div_pos; lia).
    assert (Hwlt : N / 2 ^ 1074 < 2 ^ 53).
    { rewrite Z.pow_add_r in HN by lia.
      destruct (Z.lt_ge_cases (N / 2 ^ 1074) (2 ^ 53)) as [H|H]; [exact H|].
      nia. }
    destruct (Z.eq_dec (N / 2 ^ 1074) 0) as [Hw|Hw].
    + unfold fr. rewrite Hw, of_Z_zero.
      split; [reflexivity|]. split; [exact Hx|].
      cbn [fsub SFsub Exact.scaled]. rewrite <- HNdef. lia.
    + destruct (of_Z_spec (N / 2 ^ 1074) ltac:(lia))
        as (mw & ew & Hfw & Hbw & Hvw).
      assert (HR : N / 2 ^ 1074 * 2 ^ 1074 < N ->
                   Exact.representable (N - N / 2 ^ 1074 * 2 ^ 1074)).
      { intros Hlt. apply (representable_multiple _ (ex + 1074)); [lia| |lia].
        exists (Z.pos mx - N / 2 ^ 1074 * 2 ^ (- ex)).
        rewrite Z.mul_sub_distr_r, <- HNdef. f_equal.
        rewrite <- Z.mul_assoc, <- Z.pow_add_r by lia.
        do 2 f_equal. lia. }
      assert (Hsub : fr = if N =? N / 2 ^ 1074 * 2 ^ 1074
                          then S754_zero false
                          else Exact.of_scaled (N - N / 2 ^ 1074 * 2 ^ 1074)).
      { unfold fr. rewrite Hfw.
        pose proof (fsub_exact mx ex mw ew Hx Hbw) as R. cbv zeta in R.
        rewrite <- HNdef, Hvw in R. apply R; [lia | exact HR]. }
      split; [unfold sub, as_float, float_of_int, fr; rewrite Hfw; reflexivity|].
      rewrite Hsub.
      destruct (Z.eqb_spec N (N / 2 ^ 1074 * 2 ^ 1074)) as [Heq|Hne].
      * split; [reflexivity|]. cbn [Exact.scaled]. lia.
      * assert (Hpos : 0 < N - N / 2 ^ 1074 * 2 ^ 1074) by lia.
        destruct (of_scaled_spec _ Hpos (HR ltac:(lia)))
          as (mf & ef & Hff & Hbf & Hef & Hvf).
        rewrite Hff. split; [exact Hbf|]. cbn [Exact.scaled]. lia.
Qed.

End FloatFacts.
(** ** The rounded product that gives the milliseconds *)

Module MillisFacts.
Import Py FloatFacts.

(** Rounding to nearest keeps the mantissa cut at the target exponent, or
    takes the next one; the renormalisation that follows loses nothing. *)
Lemma round_aux_value m e l :
  0 <= m -> Zdigits2 m + e <= 1000 -> e <= 970 ->
  let e' := Z.max e (fexp prec emax (Zdigits2 m + e)) in
  exists m1,
    m / 2 ^ (e' - e) <= m1 <= m / 2 ^ (e' - e) + 1
    /\ match binary_round_aux prec emax false m e l with
       | S754_zero false => m1 = 0
       | S754_finite false mm ee => e' <= ee /\ Z.pos mm * 2 ^ (ee - e') = m1
       | _ => False
       end.
Proof.
  intros Hm Hd He e0. unfold binary_round_aux.
  pose proof (shr_fexp_m m e l Hm) as [He1 Hm1].
  destruct (shr_fexp prec emax m e l) as [mrs' e']. cbn [fst snd] in *.
  assert (Ha : 0 <= shr_m mrs').
  { rewrite Hm1. apply Z.div_pos; [exact Hm | apply Z.pow_pos_nonneg; lia]. }
  pose proof (round_bounds (shr_m mrs') (loc_of_shr_record mrs') Ha) as Hr.
  set (m1 := round_nearest_even (shr_m mrs') (loc_of_shr_record mrs')) in *.
  clearbody m1.
  pose proof (shr_fexp_m m1 e' loc_Exact ltac:(lia)) as [He2 Hm2].
  destruct (shr_fexp prec emax m1 e' loc_Exact) as [mrs'' e''].
  cbn [fst snd] in *.
  exists m1. subst e0. rewrite <- He1, <- Hm1. split; [exact Hr|].
  rewrite fexp_eq in He1, He2.
  assert (Hd' : Zdigits2 (shr_m mrs') <= 53).
  { pose proof (digits_div m (e' - e) Hm ltac:(lia)) as H3.
    rewrite <- Hm1 in H3. lia. }
  assert (Hlt' : shr_m mrs' < 2 ^ 53).
  { pose proof (digits_lt _ Ha) as H. eapply Z.lt_le_trans; [exact H|].
    apply Z.pow_le_mono_r; lia. }
  destruct (Z.eq_dec m1 (2 ^ 53)) as [Heq|Hne].
  - assert (Hd1 : Zdigits2 m1 = 54) by (rewrite Heq; reflexivity).
    assert (He'' : e'' = e' + 1) by lia.
    rewrite Hm2, He'', Heq. replace (e' + 1 - e') with 1 by lia.
    change (2 ^ 53 / 2 ^ 1) with (Z.pos 4503599627370496).
    cbv beta iota.
    destruct (Z.leb_spec (e' + 1) (emax - prec)) as [_|Hgt].
    + split; [lia|]. replace (e' + 1 - e') with 1 by lia. reflexivity.
    + unfold emax, prec in Hgt. lia.
  - assert (Hlt1 : m1 < 2 ^ 53) by lia.
    assert (Hd1 : Zdigits2 m1 <= 53) by (apply digits_upper; lia).
    assert (He'' : e'' = e') by lia.
    rewrite Hm2, He'', Z.sub_diag, Z.pow_0_r, Z.div_1_r.
    destruct m1 as [|p|p]; try lia; cbv beta iota.
    destruct (Z.leb_spec e' (emax - prec)) as [_|Hgt].
    + split; [lia | rewrite Z.sub_diag; lia].
    + unfold emax, prec in Hgt. lia.
Qed.

(** The integer part of a rounded float, from its mantissa at a
    non-positive exponent. *)
Lemma int_of_float_mantissa mm ee e' m1 :
  e' <= 0 -> e' <= ee -> Z.pos mm * 2 ^ (ee - e') = m1 ->
  int_of_float (S754_finite false mm ee) = ok (m1 / 2 ^ (- e')).
Proof.
  intros He' Hee Hm1. cbn [int_of_float]. f_equal.
  assert (Hp : 0 < 2 ^ (ee - e')) by (apply Z.pow_pos_nonneg; lia).
  destruct (Z.leb_spec 0 ee) as [Hpos|Hneg].
  - replace m1 with (Z.pos mm * 2 ^ ee * 2 ^ (- e')).
    + rewrite Z.div_mul; [reflexivity|].
      apply Z.pow_nonzero; lia.
    + rewrite <- Hm1, <- Z.mul_assoc, <- Z.pow_add_r by lia.
      do 2 f_equal; lia.
  - replace (2 ^ (- e')) with (2 ^ (- ee) * 2 ^ (ee - e')).
    + rewrite <- Hm1, Z.div_mul_cancel_r; [reflexivity | | lia].
      apply Z.pow_nonzero; lia.
    + rewrite <- Z.pow_add_r by lia. f_equal; lia.
Qed.

(** [frac * d] for a fraction below one: the product is rounded to the
    nearest float, so that its integer part is the floor of the exact
    product or one more. *)
Lemma product_bounds fr d :
  Exact.nonneg_finite fr = true -> Exact.scaled fr < 2 ^ 1074 ->
  0 < d < 2 ^ 53 ->
  exists ms,
    mul (Float fr) (Int d) = ok (Float (fmul fr (of_Z d)))
    /\ int_of_float (fmul fr (of_Z d)) = ok ms
    /\ Exact.scaled fr * d / 2 ^ 1074 <= ms
       <= Exact.scaled fr * d / 2 ^ 1074 + 1.
Proof.
  intros Hf Hlt Hd.
  destruct (of_Z_spec d Hd) as (my & ey & Hy & Hby & Hvy).
  assert (Hmul : mul (Float fr) (Int d) = ok (Float (fmul fr (of_Z d))))
    by (unfold mul, as_float, float_of_int; rewrite Hy; reflexivity).
  assert (Hint : exists ms,
             int_of_float (fmul fr (S754_finite false my ey)) = ok ms
             /\ Exact.scaled fr * d / 2 ^ 1074 <= ms
                <= Exact.scaled fr * d / 2 ^ 1074 + 1).
  { destruct fr as [s|s| |s mf ef]; try discriminate Hf.
    - exists 0. split; [reflexivity|].
      cbn [Exact.scaled]. rewrite Z.mul_0_l, Z.div_0_l; [lia|].
      apply Z.pow_nonzero; lia.
    - destruct s; [discriminate Hf|]. cbn [Exact.nonneg_finite] in Hf.
      cbn [Exact.scaled] in *.
      destruct (valid_positive mf ef Hf) as (Hef & _ & HF0 & _).
      destruct (valid_positive my ey Hby) as (Hey & Hey' & HY0 & _).
      assert (Hp : 0 < 2 ^ 1074) by (apply Z.pow_pos_nonneg; lia).
      assert (Hdf : Zdigits2 (Z.pos mf) + ef <= 0).
      { assert (H : Zdigits2 (Z.pos mf * 2 ^ (ef + 1074)) <= 1074)
          by (apply digits_bound; lia).
        rewrite digits_shift in H by lia. lia. }
      assert (Hdy : Zdigits2 (Z.pos my) + ey <= 53).
      { assert (H : Zdigits2 (Z.pos my * 2 ^ (ey + 1074)) <= 53 + 1074).
        { apply digits_bound; try lia; rewrite Hvy, Z.pow_add_r by lia; nia. }
        rewrite digits_shift in H by lia. lia. }
      pose proof (digits_pos (Z.pos mf) ltac:(lia)) as Hdf1.
      pose proof (digits_pos (Z.pos my) ltac:(lia)) as Hdy1.
      pose proof (digits_mul (Z.pos mf) (Z.pos my) ltac:(lia) ltac:(lia)) as Hdm.
      set (m := Z.pos mf * Z.pos my) in *. remember (ef + ey) as e eqn:Ee.
      assert (Hm0 : 0 <= m) by (unfold m; lia).
      assert (Hey0 : ey <= 0).
      { apply (exponent_nonpos my ey Hby). rewrite Hvy, Z.pow_add_r by lia.
        nia. }
      assert (He0 : -2148 <= e <= -1) by lia.
      assert (Hde : Zdigits2 m + e <= 53) by lia.
      assert (Hfloor : Z.pos mf * 2 ^ (ef + 1074) * d / 2 ^ 1074
                       = m / 2 ^ (- e)).
      { rewrite <- (Z.div_mul_cancel_r _ _ (2 ^ 1074)) by lia.
        replace (Z.pos mf * 2 ^ (ef + 1074) * d * 2 ^ 1074)
          with (m * 2 ^ (e + 2148)).
        - replace (2 ^ 1074 * 2 ^ 1074) with (2 ^ (- e) * 2 ^ (e + 2148)).
          + apply Z.div_mul_cancel_r; apply Z.pow_nonzero; lia.
          + rewrite <- !Z.pow_add_r by lia. f_equal; lia.
        - rewrite <- Z.mul_assoc, <- Hvy. unfold m.
          replace (e + 2148) with ((ef + 1074) + (ey + 1074)) by lia.
          rewrite Z.pow_add_r by lia. ring. }
      rewrite Hfloor.
      destruct (round_aux_value m e loc_Exact Hm0 ltac:(lia) ltac:(lia))
        as (m1 & Hb & Hres).
      rewrite fexp_eq in Hb, Hres.
      set (e' := Z.max e (Z.max (Zdigits2 m + e - 53) (-1074))) in *.
      assert (He' : e <= e' <= 0) by (unfold e'; lia).
      assert (HK : 0 < 2 ^ (- e')) by (apply Z.pow_pos_nonneg; lia).
      assert (Hsplit : m / 2 ^ (- e) = m / 2 ^ (e' - e) / 2 ^ (- e')).
      { rewrite Z.div_div by (try apply Z.pow_nonzero; lia).
        rewrite <- Z.pow_add_r by lia. do 2 f_equal; lia. }
      assert (Hbound : m / 2 ^ (- e) <= m1 / 2 ^ (- e')
                       <= m / 2 ^ (- e) + 1).
      { rewrite Hsplit. split.
        - apply Z.div_le_mono; lia.
        - rewrite <- (Z.div_add _ 1) by lia.
          apply Z.div_le_mono; [lia|]. nia. }
      unfold fmul, SFmul. cbn [xorb]. rewrite Pos2Z.inj_mul, <- Ee. fold m.
      destruct (binary_round_aux prec emax false m e loc_Exact)
        as [s|s| |s mm ee]; try contradiction.
      + destruct s; [contradiction|]. exists 0. split; [reflexivity|].
        subst m1. rewrite Z.div_0_l in Hbound by lia. exact Hbound.
      + destruct s; [contradiction|]. destruct Hres as [Hee Hm1].
        exists (m1 / 2 ^ (- e')). split; [|exact Hbound].
        apply int_of_float_mantissa; lia. }
  destruct Hint as (ms & Hi & Hms). exists ms.
  split; [exact Hmul|]. split; [rewrite Hy; exact Hi | exact Hms].
Qed.

End MillisFacts.
(** ** The timestamp of a time *)

Module TimeFacts.
Import Py FloatFacts MillisFacts.

Lemma unit_eq : Z.pos Exact.unit = 2 ^ 1074.
Proof. reflexivity. Qed.

Lemma Qfloor_div N U d :
  Qfloor ((N # U) / inject_Z (Z.pos d))%Q = N / (Z.pos d * Z.pos U).
Proof.
  unfold Qdiv, Qinv, inject_Z, Qmult, Qfloor. cbn [Qnum Qden].
  f_equal; lia.
Qed.

Lemma Qfloor_whole N U : Qfloor (N # U) = N / Z.pos U.
Proof. reflexivity. Qed.

Lemma Qmod_eq N U d :
  Spec.Qmod (N # U) (inject_Z (Z.pos d))
  = (N * 1 + - (Z.pos d * (N / (Z.pos d * Z.pos U))) * Z.pos U # U * 1)%Q.
Proof.
  unfold Spec.Qmod. rewrite Qfloor_div.
  unfold Qminus, Qplus, Qopp, Qmult, inject_Z. cbn [Qnum Qden].
  reflexivity.
Qed.

Lemma Qmod_num N U d :
  N * 1 + - (Z.pos d * (N / (Z.pos d * Z.pos U))) * Z.pos U
  = N mod (Z.pos d * Z.pos U).
Proof. rewrite Z.mod_eq by lia. ring. Qed.

Lemma Qfloor_mod N U d :
  Qfloor (Spec.Qmod (N # U) (inject_Z (Z.pos d)))
  = N mod (Z.pos d * Z.pos U) / Z.pos U.
Proof.
  rewrite Qmod_eq, Qfloor_whole, Qmod_num. f_equal. lia.
Qed.

Lemma Qfloor_mod_div N U d k :
  Qfloor (Spec.Qmod (N # U) (inject_Z (Z.pos d)) / inject_Z (Z.pos k))%Q
  = N mod (Z.pos d * Z.pos U) / (Z.pos k * Z.pos U).
Proof.
  rewrite Qmod_eq, Qfloor_div, Qmod_num. f_equal. lia.
Qed.

Lemma exact_millis_eq N U :
  Spec.exact_millis (N # U) = N mod Z.pos U * 1000 / Z.pos U.
Proof.
  unfold Spec.exact_millis. rewrite Qfloor_whole.
  unfold Qminus, Qplus, Qopp, Qmult, inject_Z, Qfloor. cbn [Qnum Qden].
  f_equal; [|lia]. rewrite Z.mod_eq by lia. ring.
Qed.

(** The specification's four numbers, in integer arithmetic on the
    scaled value. *)
Lemma exact_fields_eq N U :
  Spec.exact_fields (N # U)
  = (N / (3600 * Z.pos U),
     N mod (3600 * Z.pos U) / (60 * Z.pos U),
     N mod (60 * Z.pos U) / Z.pos U,
     N mod Z.pos U * 1000 / Z.pos U).
Proof.
  unfold Spec.exact_fields.
  rewrite (Qfloor_div N U 3600), (Qfloor_mod_div N U 3600 60),
    (Qfloor_mod N U 60), exact_millis_eq.
  reflexivity.
Qed.

Lemma value_lt x :
  (Exact.value x < inject_Z (2 ^ 53))%Q ->
  Exact.scaled x < 2 ^ (53 + 1074).
Proof.
  unfold Exact.value, Qlt, inject_Z. cbn [Qnum Qden].
  rewrite unit_eq, Z.mul_1_r, <- Z.pow_add_r by lia. intros H; exact H.
Qed.

Lemma rbind_ok A B (a : A) (k : A -> result B) : rbind (ok a) k = k a.
Proof. reflexivity. Qed.

(** What [format_srt_time] computes on a float below [2^53]: the first
    three numbers are exact, the last is taken from a rounded product. *)
Lemma time_fields_float x :
  Exact.nonneg_finite x = true -> Exact.scaled x < 2 ^ (53 + 1074) ->
  let N := Exact.scaled x in
  let U := 2 ^ 1074 in
  exists ms,
    Spec.time_fields (Float x)
    = ok (N / (3600 * U), N mod (3600 * U) / (60 * U), N mod (60 * U) / U, ms)
    /\ N mod U * 1000 / U <= ms <= N mod U * 1000 / U + 1.
Proof.
  intros Hx Hlt N U.
  assert (HU : 0 < U) by (apply Z.pow_pos_nonneg; lia).
  assert (H53 : 2 ^ (53 + 1074) = 2 ^ 53 * U) by (apply Z.pow_add_r; lia).
  assert (Hc : 3600 < 2 ^ 53 /\ 60 < 2 ^ 53 /\ 1000 < 2 ^ 53)
    by (repeat split; reflexivity).
  destruct (float_floordiv_exact x 3600 Hx Hlt ltac:(lia))
    as (fq & Hq & Hqi).
  destruct (float_rem_exact x 3600 Hx Hlt ltac:(lia))
    as (fr & Hr & Hrf & Hrs).
  assert (Hrlt : Exact.scaled fr < 2 ^ (53 + 1074)).
  { rewrite Hrs, H53.
    pose proof (Z.mod_pos_bound (Exact.scaled x) (3600 * 2 ^ 1074)
                  ltac:(fold U; lia)) as Hb.
    fold U in Hb |- *. nia. }
  destruct (float_floordiv_exact fr 60 Hrf Hrlt ltac:(lia))
    as (fm & Hm & Hmi).
  destruct (float_rem_exact x 60 Hx Hlt ltac:(lia))
    as (fs & Hs & Hsf & Hss).
  pose proof (int_of_float_whole fs Hsf) as Hsi.
  pose proof (int_of_float_whole x Hx) as Hw.
  destruct (fraction_exact x Hx Hlt) as (Hsub & Hff & Hfs).
  set (ff := fsub x (of_Z (Exact.scaled x / 2 ^ 1074))) in *.
  assert (Hflt : Exact.scaled ff < 2 ^ 1074).
  { rewrite Hfs. apply Z.mod_pos_bound. exact HU. }
  destruct (product_bounds ff 1000 Hff Hflt ltac:(lia))
    as (ms & Hmul & Hmi' & Hms).
  exists ms. split.
  - unfold Spec.time_fields.
    rewrite Hq, rbind_ok. cbn [int]. rewrite Hqi, rbind_ok.
    rewrite Hr, rbind_ok, Hm, rbind_ok. cbn [int]. rewrite Hmi, rbind_ok.
    rewrite Hs, rbind_ok. cbn [int]. rewrite Hsi, rbind_ok, Hw, rbind_ok.
    rewrite Hsub, rbind_ok, Hmul, rbind_ok. cbn [int].
    rewrite Hmi', rbind_ok, Hrs, Hss. reflexivity.
  - rewrite Hfs in Hms. exact Hms.
Qed.

(** On an integer number of seconds the arithmetic is exact. *)
Lemma time_fields_int z :
  Spec.time_fields (Int z) = ok (Spec.exact_fields (inject_Z z)).
Proof.
  unfold inject_Z. rewrite exact_fields_eq.
  unfold Spec.time_fields. cbn.
  rewrite !Z.div_1_r, Z.sub_diag, Z.mod_1_r. reflexivity.
Qed.

End TimeFacts.

(** C2, as stated, fails: the milliseconds are not always the floor of the
    fraction times 1000. The float that the literal [0.009] denotes lies
    below nine thousandths, so that the floor of its fraction times 1000
    is 8; [format_srt_time] multiplies in binary64, the product rounds up
    to 9.0, and the timestamp reads 009. Read over the decimal literal
    instead, the formula fails as well: [1.001] prints 000 where the
    formula gives 001. *)
Lemma timestamp_formatting_counterexample :
  let x := Py.dec 9 3 in
  Exact.nonneg_finite x = true
  /\ (Exact.value x < 9 # 1000)%Q
  /\ Transcribe.format_srt_time (Py.Float x) = Py.ok "00:00:00,009"
  /\ Spec.format_time (Exact.value x) = "00:00:00,008"
  /\ Transcribe.format_srt_time (Py.Float (Py.dec 1001 3))
     = Py.ok "00:00:01,000"
  /\ Spec.format_time (1001 # 1000) = "00:00:01,001".
Proof.
  cbv zeta.
  split; [vm_compute; reflexivity|].
  split; [vm_compute; reflexivity|].
  split; [vm_compute; reflexivity|].
  split; [vm_compute; reflexivity|].
  split; vm_compute; reflexivity.
Qed.

(** C2, amended: on an integer number of seconds [format_srt_time] returns
    exactly the timestamp of the specification's formulas. On a
    non-negative float below [2^53] it returns a timestamp whose hours,
    minutes and seconds are the exact floors of the formulas, taken over
    the exact value of the float, and whose milliseconds are the floor of
    the fraction times 1000 or one more (the product is rounded to the
    nearest float before it is truncated). The three examples of the
    specification hold. *)
Theorem timestamp_formatting :
  (forall z,
     Transcribe.format_srt_time (Py.Int z)
     = Py.ok (Spec.format_time (inject_Z z)))
  /\ (forall x,
        Exact.nonneg_finite x = true ->
        (Exact.value x < inject_Z (2 ^ 53))%Q ->
        exists ms,
          let '(hours, minutes, secs, millis) :=
            Spec.exact_fields (Exact.value x) in
          Transcribe.format_srt_time (Py.Float x)
          = Py.ok (Spec.render (hours, minutes, secs, ms))
          /\ millis <= ms <= millis + 1)
  /\ Transcribe.format_srt_time (Py.Int 0) = Py.ok "00:00:00,000"
  /\ Transcribe.format_srt_time (Py.Float (Py.dec 36612345 4))
     = Py.ok "01:01:01,234"
  /\ Transcribe.format_srt_time (Py.Float (Py.dec 59999 3))
     = Py.ok "00:00:59,999".
Proof.
  split; [|split].
  - intros z.
    rewrite ReaderFacts.format_srt_time_fields, TimeFacts.time_fields_int.
    reflexivity.
  - intros x Hx Hv. apply TimeFacts.value_lt in Hv.
    destruct (TimeFacts.time_fields_float x Hx Hv) as (ms & Htf & Hb).
    exists ms. unfold Exact.value.
    rewrite TimeFacts.exact_fields_eq, TimeFacts.unit_eq. split.
    + rewrite ReaderFacts.format_srt_time_fields, Htf. reflexivity.
    + exact Hb.
  - split; [vm_compute; reflexivity|].
    split; vm_compute; reflexivity.
Qed.

Lemma timestamp_formatting_witness :
  let x := Py.dec 36612345 4 in
  Exact.nonneg_finite x = true
  /\ (Exact.value x < inject_Z (2 ^ 53))%Q
  /\ exists ms,
       let '(hours, minutes, secs, millis) :=
         Spec.exact_fields (Exact.value x) in
       Transcribe.format_srt_time (Py.Float x)
       = Py.ok (Spec.render (hours, minutes, secs, ms))
       /\ millis <= ms <= millis + 1.
Proof.
  cbv zeta.
  split; [vm_compute; reflexivity|].
  split; [vm_compute; reflexivity|].
  apply (proj1 (proj2 timestamp_formatting)); vm_compute; reflexivity.
Defined.

(** ** The round trip through the subtitle file *)

Module RoundFacts.
Import Py FloatFacts MillisFacts TimeFacts.

(** The hours, minutes and seconds of a time add up to its whole
    seconds. *)
Lemma fields_ms_whole N U ms :
  0 < U ->
  Spec.fields_ms (N / (3600 * U), N mod (3600 * U) / (60 * U),
                  N mod (60 * U) / U, ms)
  = N / U * 1000 + ms.
Proof.
  intros HU. cbn [Spec.fields_ms].
  assert (Hs : forall d, 0 < d -> N mod (d * U) / U = (N / U) mod d).
  { intros d Hd. rewrite (Z.mul_comm d U), Z.rem_mul_r by lia.
    rewrite (Z.mul_comm U), Z.div_add by lia.
    rewrite (Z.div_small (N mod U)) by (apply Z.mod_pos_bound; lia). lia. }
  assert (Hh : N / (3600 * U) = N / U / 3600)
    by (rewrite (Z.mul_comm 3600 U), Z.div_div by lia; reflexivity).
  assert (Hm : N mod (3600 * U) / (60 * U) = (N / U) mod 3600 / 60).
  { rewrite (Z.mul_comm 60 U), <- Z.div_div by lia. now rewrite Hs by lia. }
  rewrite Hh, Hm, (Hs 60) by lia.
  set (a := N / U). clearbody a.
  pose proof (Z.div_mod a 3600 ltac:(lia)).
  pose proof (Z.mod_pos_bound a 3600 ltac:(lia)).
  pose proof (Z.div_mod (a mod 3600) 60 ltac:(lia)).
  pose proof (Z.mod_pos_bound (a mod 3600) 60 ltac:(lia)).
  pose proof (Z.div_mod a 60 ltac:(lia)).
  pose proof (Z.mod_pos_bound a 60 ltac:(lia)).
  lia.
Qed.

Lemma exact_ms_eq t :
  Spec.exact_ms t = Exact.scaled t * 1000 / 2 ^ 1074.
Proof.
  unfold Spec.exact_ms, Exact.value, Qmult, inject_Z, Qfloor.
  cbn [Qnum Qden]. rewrite Pos.mul_1_r, unit_eq. reflexivity.
Qed.

(** In range, what the timestamp reads as is the time to the
    millisecond. *)
Lemma printed_ms_exact t :
  Spec.in_range t = true ->
  Spec.formats t = true /\ Spec.to_the_ms t (Spec.printed_ms t).
Proof.
  unfold Spec.in_range. intros H. apply andb_prop in H.
  destruct H as [Hx Hlt]. apply Z.ltb_lt in Hlt.
  destruct (time_fields_float t Hx Hlt) as (ms & Htf & Hb). cbv zeta in *.
  assert (Hf : Spec.formats t = true).
  { unfold Spec.formats. rewrite ReaderFacts.format_srt_time_fields, Htf.
    reflexivity. }
  split; [exact Hf|].
  unfold Spec.printed_ms, Spec.stamp.
  rewrite ReaderFacts.format_srt_time_fields, Htf.
  unfold ok. cbn [rbind]. rewrite ReaderFacts.parse_stamp_render.
  assert (HU : 0 < 2 ^ 1074) by (apply Z.pow_pos_nonneg; lia).
  rewrite (fields_ms_whole _ _ ms HU).
  unfold Spec.to_the_ms. rewrite exact_ms_eq.
  set (U := 2 ^ 1074) in *. set (N := Exact.scaled t) in *.
  assert (Hsplit : N * 1000 / U = N / U * 1000 + N mod U * 1000 / U).
  { rewrite (Z.div_mod N U) at 1 by lia.
    replace ((U * (N / U) + N mod U) * 1000)
      with (N / U * 1000 * U + N mod U * 1000) by ring.
    rewrite Z.div_add_l by lia. reflexivity. }
  rewrite Hsplit. lia.
Qed.

Lemma round_trips_readable c :
  Spec.round_trips c = true -> Spec.readable c = true.
Proof.
  unfold Spec.round_trips, Spec.readable. intros H.
  apply andb_prop in H. destruct H as [H Ht].
  apply andb_prop in H. destruct H as [Ha Hb].
  rewrite (proj1 (printed_ms_exact _ Ha)), (proj1 (printed_ms_exact _ Hb)), Ht.
  reflexivity.
Qed.

Lemma round_trips_reads c :
  Spec.round_trips c = true -> Spec.reads_as c (Spec.read_back c).
Proof.
  unfold Spec.round_trips. intros H.
  apply andb_prop in H. destruct H as [H Ht].
  apply andb_prop in H. destruct H as [Ha Hb].
  unfold Spec.reads_as, Spec.read_back.
  cbn [Reader.index Reader.start_ms Reader.end_ms Reader.text].
  split; [reflexivity|].
  split; [exact (proj2 (printed_ms_exact _ Ha))|].
  split; [exact (proj2 (printed_ms_exact _ Hb)) | reflexivity].
Qed.

(** A sequence of such cues is read back, cue by cue. *)
Lemma read_srt_reads cs :
  Forall (fun c => Spec.round_trips c = true) cs ->
  exists rs,
    Reader.read_srt (Spec.srt_file cs) = Some rs
    /\ Forall2 Spec.reads_as cs rs.
Proof.
  intros H. exists (map Spec.read_back cs). split.
  - apply ReaderFacts.read_srt_ok.
    eapply Forall_impl; [|exact H]. intros c. apply round_trips_readable.
  - induction H as [|c cs Hc H IH]; cbn [map]; constructor;
      [apply round_trips_reads; exact Hc | exact IH].
Qed.

End RoundFacts.

(** C7, as stated, fails, in four ways. (1) A cue text may hold line
    feeds, and then two different cue sequences share one subtitle file,
    so that no reader recovers both: one cue whose text holds a blank line
    followed by what looks like a second block is written exactly as two
    cues are, and the one-cue sequence is what a run emits for a single
    segment with that text. (2) A negative time is not printed as itself:
    half a second before zero is printed with hour [-1] and milliseconds
    [-500], which reads as a second and a half before zero. (3) From
    [2^53] seconds on the hours are no longer exact: [10^22] seconds is
    printed with hours that are 113 short, and reads back 406.8 seconds
    early. (4) The milliseconds read back are not always the whole
    milliseconds of the time: the float of [0.009] lies below nine
    thousandths, and reads back as 9 milliseconds. *)
Lemma serialization_round_trip_counterexample :
  (let text :=
     ("a" ++ Py.nl ++ Py.nl ++ "2" ++ Py.nl
      ++ "00:00:01,000 --> 00:00:02,000" ++ Py.nl ++ "b")%string in
   let one := [Cue.make 1 (Py.dec 0 1) (Py.dec 10 1) text] in
   let two := [Cue.make 1 (Py.dec 0 1) (Py.dec 10 1) "a";
               Cue.make 2 (Py.dec 10 1) (Py.dec 20 1) "b"] in
   let run := Transcribe.transcribe_to_srt
                [Segment.make (Py.dec 0 1) (Py.dec 10 1) text None] "a.srt"
                None (Run.initial string) in
   Run.cues (snd run) = one
   /\ Run.f (snd run) = Spec.srt_file one
   /\ Spec.srt_file one = Spec.srt_file two
   /\ forall reader : string -> option (list Reader.cue),
        ~ ((exists rs, reader (Spec.srt_file one) = Some rs
                       /\ Forall2 Spec.reads_as one rs)
           /\ (exists rs, reader (Spec.srt_file two) = Some rs
                          /\ Forall2 Spec.reads_as two rs)))
  /\ (let c := Cue.make 1 (Py.dec (-5) 1) (Py.dec 10 1) "a" in
      Transcribe.format_srt_time (Py.Float (Cue.start c))
      = Py.ok "-1:59:59,-500"
      /\ Reader.read_srt (Spec.srt_file [c])
         = Some [Reader.make 1 (-1500) 1000 "a"]
      /\ Spec.exact_ms (Cue.start c) = -500)
  /\ (let c := Cue.make 1 (Py.of_Z (10 ^ 22)) (Py.of_Z (10 ^ 22)) "a" in
      Transcribe.format_srt_time (Py.Float (Cue.start c))
      = Py.ok "2777777777777777664:46:40,000"
      /\ Reader.read_srt (Spec.srt_file [c])
         = Some [Reader.make 1 9999999999999999593200000
                   9999999999999999593200000 "a"]
      /\ Spec.exact_ms (Cue.start c) = 10 ^ 25)
  /\ (let c := Cue.make 1 (Py.dec 9 3) (Py.dec 10 1) "a" in
      Spec.round_trips c = true
      /\ Reader.read_srt (Spec.srt_file [c]) = Some [Reader.make 1 9 1000 "a"]
      /\ Spec.exact_ms (Cue.start c) = 8).
Proof.
  split; [|split; [|split]].
  - intros text one two run.
    assert (Hsame : Spec.srt_file one = Spec.srt_file two)
      by (vm_compute; reflexivity).
    split; [vm_compute; reflexivity|].
    split; [vm_compute; reflexivity|].
    split; [exact Hsame|].
    intros reader [(rs1 & H1 & F1) (rs2 & H2 & F2)].
    rewrite Hsame in H1.
    assert (Hrs : rs1 = rs2)
      by exact (f_equal (fun o => match o with Some l => l | None => [] end)
                        (eq_trans (eq_sym H1) H2)).
    apply Forall2_length in F1, F2. rewrite Hrs in F1.
    rewrite <- F2 in F1. unfold one, two in F1. cbn [List.length] in F1.
    discriminate F1.
  - cbv zeta. cbn [Cue.start].
    split; [vm_compute; reflexivity|].
    split; vm_compute; reflexivity.
  - cbv zeta. cbn [Cue.start].
    split; [vm_compute; reflexivity|].
    split; vm_compute; reflexivity.
  - cbv zeta. cbn [Cue.start].
    split; [vm_compute; reflexivity|].
    split; vm_compute; reflexivity.
Qed.

(** C7, amended. For every cue sequence whose times are zero or positive,
    finite and below [2^53] seconds and whose texts hold no line feed,
    reading the subtitle file of the sequence (for each cue its index on a
    line, its two timestamps around an arrow on the next, its text on the
    next, then a blank line) gives back, cue by cue, the identical index,
    the identical text, and the start and the end of the cue to the
    millisecond: the whole milliseconds of the time, or one more. The
    file a run writes is the subtitle file of the cues it emitted, so a
    run with such cues is read back in full. *)
Theorem serialization_round_trip :
  (forall cs : list Cue.t,
     Forall (fun c => Spec.round_trips c = true) cs ->
     exists rs,
       Reader.read_srt (Spec.srt_file cs) = Some rs
       /\ Forall2 Spec.reads_as cs rs)
  /\ (forall (segments : list Segment.t) (output_path : string)
             (max_words : option Z),
        Forall (fun s => Spec.segment_formats s = true) segments ->
        let run := Transcribe.transcribe_to_srt segments output_path max_words
                     (Run.initial string) in
        Run.f (snd run) = Spec.srt_file (Run.cues (snd run))
        /\ (Forall (fun c => Spec.round_trips c = true)
                   (Run.cues (snd run)) ->
            exists rs,
              Reader.read_srt (Run.f (snd run)) = Some rs
              /\ Forall2 Spec.reads_as (Run.cues (snd run)) rs)).
Proof.
  split; [exact RoundFacts.read_srt_reads|].
  intros segments output_path max_words Hf run. subst run.
  pose proof (LoopFacts.segments_formats_entries max_words segments Hf) as He.
  rewrite LoopFacts.transcribe_to_srt_loop, LoopFacts.run_ok by exact He.
  cbn [snd Run.f Run.cues]. split; [reflexivity|].
  apply RoundFacts.read_srt_reads.
Qed.

Lemma serialization_round_trip_witness :
  let cs := [Cue.make 1 (Py.dec 15 1) (Py.dec 40 1) "Good morning.";
             Cue.make 2 (Py.dec 40 1) (Py.dec 3661234 3) "See you."] in
  Forall (fun c => Spec.round_trips c = true) cs
  /\ exists rs,
       Reader.read_srt (Spec.srt_file cs) = Some rs
       /\ Forall2 Spec.reads_as cs rs.
Proof.
  intros cs.
  assert (H : Forall (fun c => Spec.round_trips c = true) cs)
    by (apply Forall_forall, forallb_forall; vm_compute; reflexivity).
  split; [exact H|].
  exact (proj1 serialization_round_trip cs H).
Defined.
(** ** Strings *)

Module StringFacts.
Import Py.

Lemma rstrip_idem s : rstrip (rstrip s) = rstrip s.
Proof.
  induction s as [|c s IH]; [reflexivity|].
  cbn [rstrip]. destruct (rstrip s) as [|d r] eqn:Hr.
  - destruct (isspace c) eqn:Hc; [reflexivity|].
    cbn [rstrip]. rewrite Hc. reflexivity.
  - change (rstrip (String c (String d r)))
      with (match rstrip (String d r) with
            | EmptyString =>
                if isspace c then EmptyString else String c EmptyString
            | r' => String c r'
            end).
    rewrite IH. reflexivity.
Qed.

Lemma lstrip_head s :
  match lstrip s with
  | EmptyString => True
  | String c _ => isspace c = false
  end.
Proof.
  induction s as [|c s IH]; [exact I|].
  cbn [lstrip]. destruct (isspace c) eqn:Hc; [exact IH | exact Hc].
Qed.

Lemma rstrip_head c s :
  isspace c = false -> exists r, rstrip (String c s) = String c r.
Proof.
  intros Hc. cbn [rstrip]. destruct (rstrip s) as [|d r].
  - rewrite Hc. eexists. reflexivity.
  - eexists. reflexivity.
Qed.

Lemma strip_idem s : strip (strip s) = strip s.
Proof.
  unfold strip. pose proof (lstrip_head s) as H.
  destruct (lstrip s) as [|c t]; [reflexivity|].
  destruct (rstrip_head c t H) as [r Hr]. rewrite Hr.
  cbn [lstrip]. rewrite H, <- Hr. apply rstrip_idem.
Qed.

Lemma lstrip_char_cons c s : lstrip_char c (String c s) = lstrip_char c s.
Proof. cbn [lstrip_char]. now rewrite Ascii.eqb_refl. Qed.

Lemma length_zeros n : String.length (zeros n) = n.
Proof. induction n as [|n IH]; [reflexivity | cbn; now rewrite IH]. Qed.

(** A field is padded up to its width and never shortened. *)
Lemma format_int_length w z : (w <= String.length (format_int w z))%nat.
Proof.
  unfold format_int. destruct (z <? 0).
  - rewrite !ReaderFacts.length_append, length_zeros. cbn [String.length].
    lia.
  - rewrite ReaderFacts.length_append, length_zeros. lia.
Qed.

End StringFacts.

(** ** What a run reports, and what it leaves behind when it stops *)

Module RunFacts.
Import Py Run Transcribe Loop.

Lemma number_reports E (rep : string -> string -> E) n es :
  map (fun en => rep (Spec.stamp (snd (fst en))) (snd en)) es
  = map (fun c => rep (Spec.stamp (Cue.end_ c)) (Cue.text c))
        (Spec.number n es).
Proof.
  revert n. induction es as [|[[s e] t] es IH]; intros n; [reflexivity|].
  cbn [map Spec.number fst snd Cue.end_ Cue.text]. f_equal. apply IH.
Qed.

Lemma number_texts (P : string -> Prop) n es :
  Forall (fun en => P (snd en)) es ->
  Forall (fun c => P (Cue.text c)) (Spec.number n es).
Proof.
  intros H. revert n. induction H as [|[[s e] t] es Hen H IH]; intros n.
  - constructor.
  - cbn [Spec.number]. constructor; [exact Hen | apply IH].
Qed.

Lemma window_entry_stripped w :
  Forall (fun en => strip (snd en) = snd en) (Spec.window_entry w).
Proof.
  destruct w as [|first rest]; [constructor|].
  cbn [Spec.window_entry]. constructor; [|constructor].
  apply StringFacts.strip_idem.
Qed.

Lemma segment_entries_stripped max_words s :
  Forall (fun en => strip (snd en) = snd en)
         (Spec.segment_entries max_words s).
Proof.
  assert (Hw : Forall (fun en => strip (snd en) = snd en)
                      [Spec.whole_entry s]).
  { constructor; [|constructor]. apply StringFacts.strip_idem. }
  unfold Spec.segment_entries.
  destruct max_words as [m|]; [|exact Hw].
  destruct (Segment.words s) as [[|w ws]|]; try exact Hw.
  destruct (m =? 0); [exact Hw|].
  destruct (0 <? m); [|constructor].
  induction (Spec.windows (Z.to_nat m) (w :: ws)) as [|x xs IH];
    [constructor|].
  cbn [flat_map]. apply Forall_app. split; [apply window_entry_stripped|].
  exact IH.
Qed.

Lemma expected_stripped max_words segments :
  Forall (fun c => strip (Cue.text c) = Cue.text c)
         (Spec.expected max_words segments).
Proof.
  unfold Spec.expected. apply (number_texts (fun t => strip t = t)).
  induction segments as [|s segments IH]; [constructor|].
  cbn [flat_map]. apply Forall_app. split; [|exact IH].
  apply segment_entries_stripped.
Qed.

(** The whole state a run over accepted times ends in. *)
Lemma run_state E (rep : string -> string -> E) max_words segments closing :
  Forall (fun s => Spec.segment_formats s = true) segments ->
  (set_caption_num 1 ;; loop rep segments max_words ;; report closing)
    (initial E)
  = (ok tt,
     mk (1 + len (Spec.expected max_words segments))
        (Spec.srt_file (Spec.expected max_words segments))
        (map (fun c => rep (Spec.stamp (Cue.end_ c)) (Cue.text c))
             (Spec.expected max_words segments) ++ [closing])
        (Spec.expected max_words segments)).
Proof.
  intros H.
  rewrite (LoopFacts.run_ok E rep max_words segments closing
             (LoopFacts.segments_formats_entries max_words segments H)).
  assert (Hl : len (Spec.expected max_words segments)
               = len (flat_map (Spec.segment_entries max_words) segments))
    by (unfold len, Spec.expected; now rewrite NumberFacts.number_length).
  rewrite Hl, (number_reports E rep 1). reflexivity.
Qed.

Section Rejected.
Variable E : Type.
Variable rep : string -> string -> E.

(** A block whose times the formatter rejects: the index line is written,
    and nothing else happens. *)
Lemma emit_rejected s e t st :
  Spec.formats s && Spec.formats e = false ->
  exists err,
    emit rep s e t st
    = (inl err,
       mk (caption_num st) (f st ++ (str_int (caption_num st) ++ nl))
          (out st) (cues st)).
Proof.
  unfold Spec.formats. intros H.
  unfold emit, bind, lift, get_caption_num, write.
  destruct (format_srt_time (Float s)) as [e1|ts].
  - exists e1. reflexivity.
  - destruct (format_srt_time (Float e)) as [e2|te].
    + exists e2. reflexivity.
    + discriminate H.
Qed.

Lemma body_whole max_words segment :
  truthy_opt_int max_words && truthy_opt_list (Segment.words segment) = false ->
  body rep max_words segment = whole rep segment.
Proof.
  unfold body. destruct max_words as [m|]; [|reflexivity].
  destruct (Segment.words segment) as [ws|]; [|reflexivity].
  cbn [truthy_opt_int]. intros ->. reflexivity.
Qed.

Lemma loop_rejected max_words good bad rest closing :
  Forall (fun s => Spec.segment_formats s = true) good ->
  truthy_opt_int max_words && truthy_opt_list (Segment.words bad) = false ->
  Spec.formats (Segment.start bad) && Spec.formats (Segment.end_ bad) = false ->
  let done := Spec.expected max_words good in
  exists err,
    (set_caption_num 1 ;; loop rep (good ++ bad :: rest) max_words ;;
     report closing) (initial E)
    = (inl err,
       mk (1 + len done)
          (Spec.srt_file done ++ (str_int (1 + len done) ++ nl))
          (map (fun c => rep (Spec.stamp (Cue.end_ c)) (Cue.text c)) done)
          done).
Proof.
  intros Hgood Hguard Hbad done.
  pose proof (LoopFacts.segments_formats_entries max_words good Hgood) as Hen.
  unfold loop. unfold bind at 1 2. unfold set_caption_num at 1.
  rewrite LoopFacts.for_each_app.
  fold (loop rep good max_words).
  rewrite (LoopFacts.loop_ok E rep max_words good _ Hen).
  cbn [for_each]. unfold bind at 1.
  rewrite (body_whole max_words bad Hguard). unfold whole.
  match goal with
  | |- context [emit rep ?s ?e ?t ?st] =>
      destruct (emit_rejected s e t st Hbad) as [err Herr]; rewrite Herr
  end.
  exists err. f_equal.
  rewrite LoopFacts.pushes_caption_num, LoopFacts.pushes_f,
    LoopFacts.pushes_out, LoopFacts.pushes_cues.
  cbn [caption_num f out cues initial app append].
  assert (Hl : len done
               = len (flat_map (Spec.segment_entries max_words) good))
    by (unfold len, done, Spec.expected;
        now rewrite NumberFacts.number_length).
  rewrite Hl, (number_reports E rep 1). reflexivity.
Qed.

End Rejected.

Section Agree.
Variables E1 E2 : Type.
Variable rep1 : string -> string -> E1.
Variable rep2 : string -> string -> E2.

Lemma emit_agree s e t : Spec.alike (emit rep1 s e t) (emit rep2 s e t).
Proof.
  intros st1 st2 (Hn & Hf & Hc & Ho).
  unfold emit, bind, lift, get_caption_num, write, report, completed,
    set_caption_num.
  destruct (format_srt_time (Float s)) as [e1|ts];
    [|destruct (format_srt_time (Float e)) as [e2|te]];
    unfold ok; cbv beta iota; cbn [fst snd]; (split; [reflexivity|]);
    unfold Spec.agree; cbn [caption_num f out cues];
    rewrite ?length_app, ?Hn, ?Hf, ?Hc, ?Ho; repeat split; reflexivity.
Qed.

Lemma for_each_agree A (l : list A) (b1 : A -> M E1 unit)
    (b2 : A -> M E2 unit) :
  (forall a, Spec.alike (b1 a) (b2 a)) ->
  Spec.alike (for_each l b1) (for_each l b2).
Proof.
  intros Hb. induction l as [|a l IH]; intros st1 st2 H.
  - split; [reflexivity | exact H].
  - cbn [for_each]. unfold bind.
    destruct (Hb a st1 st2 H) as [Hr Ha].
    destruct (b1 a st1) as [[e1|[]] st1'], (b2 a st2) as [[e2|[]] st2'];
      cbn [fst snd] in *; try discriminate Hr.
    + split; [exact Hr | exact Ha].
    + apply IH. exact Ha.
Qed.

Lemma window_agree (words : list Word.t) max_words i :
  Spec.alike (window rep1 words max_words i) (window rep2 words max_words i).
Proof.
  intros st1 st2 H. unfold window, bind, lift.
  destruct (index (slice words i (i + max_words)) 0) as [e1|first];
    [split; [reflexivity | exact H]|].
  destruct (index (slice words i (i + max_words)) (-1)) as [e2|last];
    [split; [reflexivity | exact H]|].
  apply emit_agree. exact H.
Qed.

Lemma body_agree max_words segment :
  Spec.alike (body rep1 max_words segment) (body rep2 max_words segment).
Proof.
  assert (Hw : Spec.alike (whole rep1 segment) (whole rep2 segment))
    by (apply emit_agree).
  unfold body. destruct max_words as [m|]; [|exact Hw].
  destruct (Segment.words segment) as [ws|]; [|exact Hw].
  destruct (truthy_int m && truthy_opt_list (Some ws)); [|exact Hw].
  intros st1 st2 H. unfold bind, lift.
  destruct (range 0 (len ws) m) as [e|r];
    [split; [reflexivity | exact H]|].
  apply for_each_agree; [|exact H].
  intros i. apply window_agree.
Qed.

Lemma bind_agree (m1 k1 : M E1 unit) (m2 k2 : M E2 unit) :
  Spec.alike m1 m2 -> Spec.alike k1 k2 ->
  Spec.alike (m1 ;; k1) (m2 ;; k2).
Proof.
  intros Hm Hk st1 st2 H. unfold bind.
  destruct (Hm st1 st2 H) as [Hr Ha].
  destruct (m1 st1) as [[e1|[]] st1'], (m2 st2) as [[e2|[]] st2'];
    cbn [fst snd] in *; try discriminate Hr.
  - split; [exact Hr | exact Ha].
  - apply Hk. exact Ha.
Qed.

Lemma run_agree segments max_words closing1 closing2 :
  Spec.alike (set_caption_num 1 ;; loop rep1 segments max_words ;;
              report closing1)
             (set_caption_num 1 ;; loop rep2 segments max_words ;;
              report closing2).
Proof.
  apply bind_agree; [|apply bind_agree].
  - intros st1 st2 (Hn & Hf & Hc & Ho). unfold set_caption_num.
    cbn [fst snd]. split; [reflexivity|]. repeat split; assumption.
  - apply for_each_agree. intros s. apply body_agree.
  - intros st1 st2 (Hn & Hf & Hc & Ho). unfold report.
    cbn [fst snd]. split; [reflexivity|].
    unfold Spec.agree. cbn [caption_num f out cues].
    rewrite !length_app, Hn, Hf, Hc, Ho. repeat split; reflexivity.
Qed.

End Agree.

End RunFacts.

(** ** The counts of a windowed segment *)

Module CountFacts.
Import Py.




End CountFacts.

(** ** Colours, paths and the encoder's stream *)

Module BurnFacts.
Import Py.

Lemma slice_at A (l : list A) (k m : nat) lo hi :
  lo = Z.of_nat k -> hi = Z.of_nat k + Z.of_nat m ->
  slice l lo hi = firstn m (skipn k l).
Proof. intros -> ->. apply PyFacts.slice_firstn_skipn. Qed.

Lemma hex_to_ass_slices s :
  App.hex_to_ass s
  = (let l := list_ascii_of_string (lstrip_char "#" s) in
     "&H" ++ string_of_list_ascii (firstn 2 (skipn 4 l))
     ++ string_of_list_ascii (firstn 2 (skipn 2 l))
     ++ string_of_list_ascii (firstn 2 l))%string.
Proof.
  unfold App.hex_to_ass, str_slice. cbv zeta.
  rewrite (slice_at _ _ 0 2 0 2 eq_refl eq_refl),
    (slice_at _ _ 2 2 2 4 eq_refl eq_refl),
    (slice_at _ _ 4 2 4 6 eq_refl eq_refl).
  reflexivity.
Qed.

Lemma length_string_of_list l :
  String.length (string_of_list_ascii l) = List.length l.
Proof. induction l as [|c l IH]; [reflexivity | cbn; now rewrite IH]. Qed.

Lemma length_list_of_string s :
  List.length (list_ascii_of_string s) = String.length s.
Proof. induction s as [|c s IH]; [reflexivity | cbn; now rewrite IH]. Qed.

Lemma list_of_string_app a b :
  list_ascii_of_string (a ++ b)
  = (list_ascii_of_string a ++ list_ascii_of_string b)%list.
Proof. induction a as [|c a IH]; [reflexivity | cbn; now rewrite IH]. Qed.

(** Turning backslashes into slashes leaves none. *)
Lemma escaped_replace p :
  Spec.escaped
    (replace_char ":" (String backslash ":") (replace_char backslash "/" p))
  = true.
Proof.
  induction p as [|c p IH]; [reflexivity|].
  cbn [replace_char]. destruct (Ascii.eqb_spec c backslash) as [->|Hb].
  - cbn [append replace_char].
    change (Ascii.eqb "/" ":") with false. cbv iota.
    cbn [Spec.escaped].
    change (Ascii.eqb "/" backslash) with false.
    change (Ascii.eqb "/" ":") with false. exact IH.
  - cbn [replace_char]. destruct (Ascii.eqb_spec c ":") as [->|Hc].
    + cbn [append Spec.escaped].
      change (Ascii.eqb backslash backslash) with true. cbv iota.
      change (Ascii.eqb ":" ":") with true. exact IH.
    + cbn [Spec.escaped].
      destruct (Ascii.eqb_spec c backslash) as [|_]; [contradiction|].
      destruct (Ascii.eqb_spec c ":") as [|_]; [contradiction|].
      exact IH.
Qed.

Lemma unescape_replace q :
  Spec.avoids backslash q = true ->
  Spec.unescape (replace_char ":" (String backslash ":") q) = q.
Proof.
  induction q as [|c q IH]; [reflexivity|].
  cbn [Spec.avoids]. intros H. apply andb_prop in H. destruct H as [Hc Hq].
  apply negb_true_iff in Hc.
  cbn [replace_char]. destruct (Ascii.eqb_spec c ":") as [->|Hn].
  - cbn [append Spec.unescape].
    change (Ascii.eqb backslash backslash) with true. cbv iota.
    change (Ascii.eqb ":" backslash) with false. cbv iota.
    now rewrite IH.
  - cbn [Spec.unescape]. rewrite Hc. now rewrite IH.
Qed.

Lemma avoids_replace p :
  Spec.avoids backslash (replace_char backslash "/" p) = true.
Proof.
  induction p as [|c p IH]; [reflexivity|].
  cbn [replace_char]. destruct (Ascii.eqb c backslash) eqn:Hc.
  - cbn [append Spec.avoids].
    change (Ascii.eqb "/" backslash) with false. exact IH.
  - cbn [Spec.avoids]. rewrite Hc. exact IH.
Qed.

Lemma replace_avoids c new p :
  Spec.avoids c p = true -> replace_char c new p = p.
Proof.
  induction p as [|d p IH]; [reflexivity|].
  cbn [Spec.avoids replace_char]. intros H.
  apply andb_prop in H. destruct H as [Hd Hp].
  apply negb_true_iff in Hd. rewrite Hd. now rewrite IH.
Qed.

Lemma colons_replace p :
  Spec.colons (replace_char backslash "/" p) = Spec.colons p.
Proof.
  induction p as [|c p IH]; [reflexivity|].
  cbn [replace_char]. destruct (Ascii.eqb_spec c backslash) as [->|Hb].
  - cbn [append Spec.colons].
    change (Ascii.eqb "/" ":") with false.
    change (Ascii.eqb backslash ":") with false. exact IH.
  - cbn [Spec.colons]. now rewrite IH.
Qed.

Lemma length_replace_slash p :
  String.length (replace_char backslash "/" p) = String.length p.
Proof.
  induction p as [|c p IH]; [reflexivity|].
  cbn [replace_char]. destruct (Ascii.eqb c backslash);
    cbn [append String.length]; now rewrite IH.
Qed.

Lemma length_replace_colon q :
  String.length (replace_char ":" (String backslash ":") q)
  = (String.length q + Spec.colons q)%nat.
Proof.
  induction q as [|c q IH]; [reflexivity|].
  cbn [replace_char Spec.colons]. destruct (Ascii.eqb c ":");
    cbn [append String.length]; rewrite IH; lia.
Qed.

(** The progress events of the stream are the stripped non-blank lines. *)
Lemma progress_in output_path stderr returncode m :
  In (App.bv_progress m) (App.burn_generate output_path stderr returncode)
  <-> m <> ""%string /\ exists line, In line stderr /\ m = strip line.
Proof.
  unfold App.burn_generate. rewrite !in_app_iff, in_flat_map. split.
  - intros [H|[H|H]].
    + destruct H as [H|[H|[]]]; discriminate H.
    + destruct H as (line & Hin & H). cbv zeta in H.
      destruct (strip line) as [|c r] eqn:Hs; cbn [truthy_str] in H;
        [destruct H|].
      destruct H as [H|[]]. injection H as <-.
      split; [discriminate|]. exists line. split; [exact Hin|].
      now rewrite Hs.
    + destruct (returncode =? 0); destruct H as [H|[]]; discriminate H.
  - intros (Hne & line & Hin & ->). right. left.
    exists line. split; [exact Hin|]. cbv zeta.
    destruct (strip line) as [|c r]; [contradiction|].
    cbn [truthy_str]. left. reflexivity.
Qed.

Lemma progress_map stderr :
  flat_map (fun line =>
              let line := strip line in
              if truthy_str line then [App.bv_progress line] else [])
           stderr
  = map App.bv_progress (filter truthy_str (map strip stderr)).
Proof.
  change (flat_map (fun line =>
                      if truthy_str (strip line)
                      then [App.bv_progress (strip line)] else [])
                   stderr
          = map App.bv_progress (filter truthy_str (map strip stderr))).
  induction stderr as [|line stderr IH]; [reflexivity|].
  cbn [flat_map map filter]. rewrite IH.
  destruct (truthy_str (strip line)); reflexivity.
Qed.

Lemma progress_not_terminal messages :
  Forall (fun e => Spec.terminal e = false)
         (map App.bv_progress messages).
Proof.
  induction messages as [|m messages IH]; constructor;
    [reflexivity | exact IH].
Qed.

End BurnFacts.
(** * Further properties of the code *)

(** X1 (transcribe_to_srt, console output): when the formatter accepts
    every time of the input, the run prints one line per cue, in cue
    order, made of the cue's end timestamp in brackets, a space and the
    cue's text, and then the closing line that names the output path. *)
Theorem console_report (segments : list Segment.t) (output_path : string)
    (max_words : option Z) :
  Forall (fun s => Spec.segment_formats s = true) segments ->
  let st := snd (Transcribe.transcribe_to_srt segments output_path max_words
                   (Run.initial string)) in
  Run.out st
  = (map (fun c => ("[" ++ Spec.stamp (Cue.end_ c) ++ "] " ++ Cue.text c)%string)
         (Run.cues st)
     ++ [(Py.nl ++ "Saved to " ++ output_path)%string])%list.
Proof.
  intros H st. unfold st.
  rewrite LoopFacts.transcribe_to_srt_loop,
    (RunFacts.run_state _ Loop.printed max_words segments _ H).
  reflexivity.
Qed.

Lemma console_report_witness :
  let segments :=
    [Segment.make (Py.dec 15 1) (Py.dec 40 1) "  Good morning. " None] in
  Forall (fun s => Spec.segment_formats s = true) segments
  /\ Run.out (snd (Transcribe.transcribe_to_srt segments "a.srt" None
                     (Run.initial string)))
     = ["[00:00:04,000] Good morning."; (Py.nl ++ "Saved to a.srt")%string].
Proof.
  intros segments.
  assert (H : Forall (fun s => Spec.segment_formats s = true) segments)
    by (apply Forall_forall, forallb_forall; vm_compute; reflexivity).
  split; [exact H|].
  refine (eq_trans (console_report segments "a.srt" None H) _).
  vm_compute. reflexivity.
Defined.

(** X2 (transcribe.generate, event stream): when the formatter accepts
    every time of the input, the service streams one segment event per
    cue, in cue order, carrying the cue's end timestamp and its text, and
    then the completion event with the subtitle path. *)
Theorem stream_events (segments : list Segment.t) (srt_path : string)
    (max_words : option Z) :
  Forall (fun s => Spec.segment_formats s = true) segments ->
  let st := snd (App.generate segments srt_path max_words
                   (Run.initial App.event)) in
  Run.out st
  = (map (fun c => App.ev_segment (Spec.stamp (Cue.end_ c)) (Cue.text c))
         (Run.cues st)
     ++ [App.ev_complete srt_path])%list.
Proof.
  intros H st. unfold st.
  rewrite LoopFacts.generate_loop,
    (RunFacts.run_state _ App.ev_segment max_words segments _ H).
  reflexivity.
Qed.

Lemma stream_events_witness :
  let segments :=
    [Segment.make (Py.dec 0 1) (Py.dec 10 1) " Hi there"
       (Some [Word.make (Py.dec 0 1) (Py.dec 5 1) " Hi";
              Word.make (Py.dec 5 1) (Py.dec 10 1) " there"])] in
  Forall (fun s => Spec.segment_formats s = true) segments
  /\ Run.out (snd (App.generate segments "a.srt" (Some 1)
                     (Run.initial App.event)))
     = [App.ev_segment "00:00:00,500" "Hi";
        App.ev_segment "00:00:01,000" "there";
        App.ev_complete "a.srt"].
Proof.
  intros segments.
  assert (H : Forall (fun s => Spec.segment_formats s = true) segments)
    by (apply Forall_forall, forallb_forall; vm_compute; reflexivity).
  split; [exact H|].
  refine (eq_trans (stream_events segments "a.srt" (Some 1) H) _).
  vm_compute. reflexivity.
Defined.

(** X3 (transcribe_to_srt and transcribe.generate): on the same recognizer
    output and the same max_words the command line and the web service
    end alike, whatever the input: both succeed or both raise the same
    exception, they have written the same text to the subtitle file, have
    completed the same cues, hold the same counter and have reported
    equally many items. *)
Theorem drivers_write_the_same (segments : list Segment.t)
    (output_path srt_path : string) (max_words : option Z) :
  let cli := Transcribe.transcribe_to_srt segments output_path max_words
               (Run.initial string) in
  let web := App.generate segments srt_path max_words
               (Run.initial App.event) in
  fst cli = fst web
  /\ Run.f (snd cli) = Run.f (snd web)
  /\ Run.cues (snd cli) = Run.cues (snd web)
  /\ Run.caption_num (snd cli) = Run.caption_num (snd web)
  /\ List.length (Run.out (snd cli)) = List.length (Run.out (snd web)).
Proof.
  intros cli web. unfold cli, web.
  rewrite LoopFacts.transcribe_to_srt_loop, LoopFacts.generate_loop.
  assert (H0 : Spec.agree (Run.initial string) (Run.initial App.event))
    by (repeat split).
  destruct (RunFacts.run_agree _ _ Loop.printed App.ev_segment segments
              max_words (Py.nl ++ "Saved to " ++ output_path)%string
              (App.ev_complete srt_path) _ _ H0)
    as (Hr & Hn & Hf & Hc & Ho).
  repeat split; assumption.
Qed.

(** X4 (transcribe_to_srt and transcribe.generate, a rejected time): let
    the formatter accept every time of the segments [good], and let [bad]
    be a segment that takes the whole-segment branch and has a start or an
    end that the formatter rejects. Then the run over [good], [bad] and
    anything after raises; the cues of [good] are complete; the file holds
    their blocks followed by the index line of the block that failed, and
    nothing of what comes after; the closing report is not made. *)
Theorem rejected_time_stops_run (good rest : list Segment.t)
    (bad : Segment.t) (path : string) (max_words : option Z) :
  Forall (fun s => Spec.segment_formats s = true) good ->
  Py.truthy_opt_int max_words && Py.truthy_opt_list (Segment.words bad)
  = false ->
  Spec.formats (Segment.start bad) && Spec.formats (Segment.end_ bad)
  = false ->
  let cli := Transcribe.transcribe_to_srt (good ++ bad :: rest) path
               max_words (Run.initial string) in
  let web := App.generate (good ++ bad :: rest) path max_words
               (Run.initial App.event) in
  let done := Spec.expected max_words good in
  let partial :=
    (Spec.srt_file done ++ Py.str_int (1 + Py.len done) ++ Py.nl)%string in
  (exists err, fst cli = Py.raise err /\ fst web = Py.raise err)
  /\ Run.cues (snd cli) = done /\ Run.cues (snd web) = done
  /\ Run.f (snd cli) = partial /\ Run.f (snd web) = partial
  /\ Run.out (snd cli)
     = map (fun c => ("[" ++ Spec.stamp (Cue.end_ c) ++ "] "
                      ++ Cue.text c)%string) done
  /\ Run.out (snd web)
     = map (fun c => App.ev_segment (Spec.stamp (Cue.end_ c)) (Cue.text c))
           done.
Proof.
  intros Hgood Hguard Hbad cli web done partial. unfold cli, web.
  rewrite LoopFacts.transcribe_to_srt_loop, LoopFacts.generate_loop.
  destruct (RunFacts.loop_rejected _ Loop.printed max_words good bad rest
              (Py.nl ++ "Saved to " ++ path)%string Hgood Hguard Hbad)
    as [e1 H1].
  destruct (RunFacts.loop_rejected _ App.ev_segment max_words good bad rest
              (App.ev_complete path) Hgood Hguard Hbad)
    as [e2 H2].
  assert (H0 : Spec.agree (Run.initial string) (Run.initial App.event))
    by (repeat split).
  destruct (RunFacts.run_agree _ _ Loop.printed App.ev_segment
              (good ++ bad :: rest) max_words
              (Py.nl ++ "Saved to " ++ path)%string
              (App.ev_complete path) _ _ H0) as [Hr _].
  rewrite H1, H2 in Hr |- *. cbn [fst snd] in Hr |- *.
  split; [exists e1; split; [reflexivity | now rewrite <- Hr]|].
  repeat split; reflexivity.
Qed.

Lemma rejected_time_stops_run_witness :
  let good := [Segment.make (Py.dec 15 1) (Py.dec 40 1) " Good morning. "
                 None] in
  let bad := Segment.make S754_nan (Py.dec 50 1) " lost" None in
  let rest := [Segment.make (Py.dec 50 1) (Py.dec 60 1) " never" None] in
  Forall (fun s => Spec.segment_formats s = true) good
  /\ Run.f (snd (Transcribe.transcribe_to_srt (good ++ bad :: rest) "a.srt"
                   None (Run.initial string)))
     = ("1" ++ Py.nl ++ "00:00:01,500 --> 00:00:04,000" ++ Py.nl
        ++ "Good morning." ++ Py.nl ++ Py.nl ++ "2" ++ Py.nl)%string.
Proof.
  intros good bad rest.
  assert (H : Forall (fun s => Spec.segment_formats s = true) good)
    by (apply Forall_forall, forallb_forall; vm_compute; reflexivity).
  split; [exact H|].
  refine (eq_trans
            (proj1 (proj2 (proj2 (proj2
               (rejected_time_stops_run good rest bad "a.srt" None H
                  eq_refl _))))) _);
    vm_compute; reflexivity.
Defined.

(** X5 (format_srt_time, error behaviour): on a NaN and on either infinity
    [format_srt_time] raises ValueError: the floor division by 3600 gives
    a NaN (also for an infinity), which [int] refuses. *)
Theorem nonfinite_time_rejected (x : Py.float) :
  Py.is_finite x = false ->
  Transcribe.format_srt_time (Py.Float x) = Py.raise Py.ValueError.
Proof.
  destruct x as [s|s| |s m e]; try discriminate; intros _.
  - destruct s; vm_compute; reflexivity.
  - vm_compute. reflexivity.
Qed.

Lemma nonfinite_time_rejected_witness :
  Py.is_finite (S754_infinity false) = false
  /\ Transcribe.format_srt_time (Py.Float (S754_infinity false))
     = Py.raise Py.ValueError.
Proof.
  split; [reflexivity|].
  apply (nonfinite_time_rejected (S754_infinity false)). reflexivity.
Defined.

(** X6 (transcribe_to_srt, cue text): when the formatter accepts every
    time of the input, under every max_words setting the text of every
    cue is stripped: stripping it again changes nothing, so that no cue
    text starts or ends with white space. *)
Theorem cue_text_stripped (segments : list Segment.t) (output_path : string)
    (max_words : option Z) :
  Forall (fun s => Spec.segment_formats s = true) segments ->
  Forall (fun c => Py.strip (Cue.text c) = Cue.text c)
         (Run.cues (snd (Transcribe.transcribe_to_srt segments output_path
                           max_words (Run.initial string)))).
Proof.
  intros H.
  rewrite (proj2 (LoopFacts.transcribe_to_srt_ok segments output_path
                    max_words H)).
  apply RunFacts.expected_stripped.
Qed.

Lemma cue_text_stripped_witness :
  let segments :=
    [Segment.make (Py.dec 15 1) (Py.dec 40 1) "  Good morning. " None] in
  Forall (fun s => Spec.segment_formats s = true) segments
  /\ Forall (fun c => Py.strip (Cue.text c) = Cue.text c)
            (Run.cues (snd (Transcribe.transcribe_to_srt segments "a.srt"
                              None (Run.initial string)))).
Proof.
  intros segments.
  assert (H : Forall (fun s => Spec.segment_formats s = true) segments)
    by (apply Forall_forall, forallb_forall; vm_compute; reflexivity).
  split; [exact H|].
  exact (cue_text_stripped segments "a.srt" None H).
Defined.



(** X8 (hex_to_ass, leading marks): any number of leading ['#'] is
    dropped, on every string: the result is that of the string without
    them. *)
Theorem hex_to_ass_ignores_hashes (n : nat) (s : string) :
  App.hex_to_ass (string_of_list_ascii (repeat "#"%char n) ++ s)
  = App.hex_to_ass s.
Proof.
  unfold App.hex_to_ass.
  assert (H : Py.lstrip_char "#" (string_of_list_ascii (repeat "#"%char n) ++ s)
              = Py.lstrip_char "#" s).
  { induction n as [|n IH]; [reflexivity|].
    cbn [repeat string_of_list_ascii append].
    rewrite StringFacts.lstrip_char_cons. exact IH. }
  rewrite H. reflexivity.
Qed.

(** X9 (hex_to_ass, no validation): only the first six characters after
    the leading marks are used, and none of them is checked: whatever the
    six characters are (the first not being ['#']) and whatever follows
    them, the result is ["&H"] and the three pairs in reverse order. *)
Theorem hex_to_ass_takes_six (r1 r2 g1 g2 b1 b2 : ascii) (rest : string) :
  r1 <> "#"%char ->
  App.hex_to_ass (string_of_list_ascii [r1; r2; g1; g2; b1; b2] ++ rest)
  = ("&H" ++ string_of_list_ascii [b1; b2; g1; g2; r1; r2])%string.
Proof.
  intros Hr. rewrite BurnFacts.hex_to_ass_slices.
  cbn [string_of_list_ascii append Py.lstrip_char].
  destruct (Ascii.eqb_spec r1 "#") as [|_]; [contradiction|].
  reflexivity.
Qed.

Lemma hex_to_ass_takes_six_witness :
  "F"%char <> "#"%char
  /\ App.hex_to_ass "FF8000CC" = "&H0080FF".
Proof.
  split; [discriminate|].
  apply (hex_to_ass_takes_six "F" "F" "8" "0" "0" "0" "CC"). discriminate.
Defined.

(** X10 (hex_to_ass, short input): [hex_to_ass] raises on no string; on
    fewer than six characters after the leading marks the result is
    shorter: its length is 2 plus the number of those characters, up to
    six. *)
Theorem hex_to_ass_length (s : string) :
  String.length (App.hex_to_ass s)
  = (2 + Nat.min 6 (String.length (Py.lstrip_char "#" s)))%nat.
Proof.
  rewrite BurnFacts.hex_to_ass_slices. cbv zeta.
  rewrite !ReaderFacts.length_append, !BurnFacts.length_string_of_list,
    !length_firstn, !length_skipn, BurnFacts.length_list_of_string.
  cbn [String.length]. lia.
Qed.

(** X11 (burn, the escaped subtitle path): in the escaped path every colon
    follows a backslash and every backslash precedes a colon, whatever the
    path. *)
Theorem srt_path_escaped_wellformed (srt_path : string) :
  Spec.escaped (App.srt_path_escaped srt_path) = true.
Proof. apply BurnFacts.escaped_replace. Qed.

(** X12 (burn, the escaped subtitle path): taking the backslashes out of
    the escaped path gives the path with its backslashes turned into
    slashes, which is the path itself when it has none; and the escaped
    path is longer than the path by the number of its colons. *)
Theorem srt_path_escaped_unescape (srt_path : string) :
  Spec.unescape (App.srt_path_escaped srt_path)
  = Py.replace_char Py.backslash "/" srt_path
  /\ (Spec.avoids Py.backslash srt_path = true ->
      Spec.unescape (App.srt_path_escaped srt_path) = srt_path)
  /\ String.length (App.srt_path_escaped srt_path)
     = (String.length srt_path + Spec.colons srt_path)%nat.
Proof.
  unfold App.srt_path_escaped.
  assert (H : Spec.unescape
                (Py.replace_char ":" (String Py.backslash ":")
                   (Py.replace_char Py.backslash "/" srt_path))
              = Py.replace_char Py.backslash "/" srt_path)
    by (apply BurnFacts.unescape_replace, BurnFacts.avoids_replace).
  split; [exact H|]. split.
  - intros Ha. rewrite H. now apply BurnFacts.replace_avoids.
  - now rewrite BurnFacts.length_replace_colon, BurnFacts.colons_replace,
      BurnFacts.length_replace_slash.
Qed.

Lemma srt_path_escaped_unescape_witness :
  Spec.avoids Py.backslash "C:/clips/a.srt" = true
  /\ Spec.unescape (App.srt_path_escaped "C:/clips/a.srt") = "C:/clips/a.srt".
Proof.
  split; [reflexivity|].
  apply (proj1 (proj2 (srt_path_escaped_unescape "C:/clips/a.srt"))).
  reflexivity.
Defined.

(** X13 (burn.generate, the end of the stream): whatever the encoder
    writes and returns, the stream is the two status events, then progress
    events only, then one closing event, which is last: the completion
    event with the output path when the exit status is 0, and otherwise
    the error event whose message names the exit status. No event before
    the last is a completion or an error. *)
Theorem burn_stream_terminal (output_path : string) (stderr : list string)
    (returncode : Z) :
  exists messages last,
    App.burn_generate output_path stderr returncode
    = ([App.bv_status "Starting ffmpeg...";
        App.bv_status ("Output: " ++ output_path)]
       ++ map App.bv_progress messages ++ [last])%list
    /\ (returncode = 0 -> last = App.bv_complete output_path)
    /\ (returncode <> 0 ->
        last = App.bv_error ("FFmpeg exited with code "
                             ++ Py.str_int returncode))
    /\ Spec.terminal last = true
    /\ Forall (fun e => Spec.terminal e = false)
              ([App.bv_status "Starting ffmpeg...";
                App.bv_status ("Output: " ++ output_path)]
               ++ map App.bv_progress messages).
Proof.
  exists (filter Py.truthy_str (map Py.strip stderr)).
  eexists. split.
  { unfold App.burn_generate. rewrite BurnFacts.progress_map. reflexivity. }
  assert (Hn : Forall (fun e => Spec.terminal e = false)
                 ([App.bv_status "Starting ffmpeg...";
                   App.bv_status ("Output: " ++ output_path)]
                  ++ map App.bv_progress
                       (filter Py.truthy_str (map Py.strip stderr))))
    by (cbn [app]; repeat constructor; apply BurnFacts.progress_not_terminal).
  destruct (Z.eqb_spec returncode 0) as [->|Hne].
  - split; [reflexivity|]. split; [intros H; contradiction|].
    split; [reflexivity | exact Hn].
  - split; [intros H; contradiction|]. split; [reflexivity|].
    split; [reflexivity | exact Hn].
Qed.

(** X14 (burn.generate, progress events): the progress events are the
    encoder's lines, stripped, without those that are blank: a message is
    streamed as progress exactly when it is not empty and is the stripped
    form of one of the lines; such a message has no white space at either
    end. *)
Theorem burn_progress_lines (output_path : string) (stderr : list string)
    (returncode : Z) (m : string) :
  (In (App.bv_progress m) (App.burn_generate output_path stderr returncode)
   <-> m <> ""%string /\ exists line, In line stderr /\ m = Py.strip line)
  /\ (In (App.bv_progress m)
         (App.burn_generate output_path stderr returncode) ->
      Py.strip m = m).
Proof.
  split; [apply BurnFacts.progress_in|].
  intros H. apply BurnFacts.progress_in in H.
  destruct H as (_ & line & _ & ->). apply StringFacts.strip_idem.
Qed.

Lemma burn_progress_lines_witness :
  let stderr := [("frame=  10 " ++ Py.nl)%string; Py.nl] in
  In (App.bv_progress "frame=  10") (App.burn_generate "o.mp4" stderr 0)
  /\ Py.strip "frame=  10" = "frame=  10".
Proof.
  intros stderr.
  assert (H : In (App.bv_progress "frame=  10")
                 (App.burn_generate "o.mp4" stderr 0))
    by (vm_compute; tauto).
  split; [exact H|].
  exact (proj2 (burn_progress_lines "o.mp4" stderr 0 "frame=  10") H).
Defined.

(** X15 (format_srt_time, the width of a timestamp): whenever
    [format_srt_time] returns, on an integer or on a float, the timestamp
    has at least 12 characters: each field is padded with zeros up to its
    width (2, 2, 2 and 3) and a number that needs more digits is written
    in full, never cut or wrapped. *)
Theorem timestamp_width (seconds : Py.number) (stamp : string) :
  Transcribe.format_srt_time seconds = Py.ok stamp ->
  (12 <= String.length stamp)%nat.
Proof.
  rewrite ReaderFacts.format_srt_time_fields.
  destruct (Spec.time_fields seconds) as [e|[[[h m] s] ms]];
    cbn [Py.rbind]; [discriminate|].
  intros H. injection H as <-. unfold Spec.render.
  repeat (rewrite ReaderFacts.length_append; cbn [String.length append]).
  pose proof (StringFacts.format_int_length 2 h).
  pose proof (StringFacts.format_int_length 2 m).
  pose proof (StringFacts.format_int_length 2 s).
  pose proof (StringFacts.format_int_length 3 ms).
  lia.
Qed.

Lemma timestamp_width_witness :
  Transcribe.format_srt_time (Py.Int 360000) = Py.ok "100:00:00,000"
  /\ (12 <= String.length "100:00:00,000")%nat.
Proof.
  assert (H : Transcribe.format_srt_time (Py.Int 360000)
              = Py.ok "100:00:00,000") by (vm_compute; reflexivity).
  split; [exact H|].
  exact (timestamp_width (Py.Int 360000) "100:00:00,000" H).
Defined.
